(** * Bouncing-ball simulation and audio segment engine

    A shallow embedding of [CircleSimulation] (physics tick, drag
    interaction, recording lifecycle), of [AudioManager] (segment store
    and playback sequencer) and of the handlers of the application that
    drive them, with the properties stated about them.

    Numbers.  The physics code works on JavaScript numbers and uses
    [Math.sqrt], [Math.atan2], [Math.cos] and [Math.sin]; it is embedded
    over [num], the real numbers extended with the exceptional values of
    IEEE 754 ([Infinity], [-Infinity], [NaN]).  Finite values are exact
    reals: rounding, overflow and the sign of zero are not modelled.  The
    audio code only adds, multiplies, compares and truncates, and is
    embedded over the rationals [Q], on which it computes, without
    rounding either.  The statements about the segment boundaries and
    about the rate limit are therefore made for numbers that binary64
    holds exactly ([binary64], [exact_frames]), and the rate limit is
    stated with a margin on either side of it. *)

From Stdlib Require Import Reals Lra Lia List Bool Arith ZArith QArith Qround.
From Stdlib Require String Lqa.
Import ListNotations.

(** ** JavaScript numbers *)

Module JSNum.
Local Open Scope R_scope.

Inductive num : Type :=
| Fin (r : R)
| PInf
| NInf
| NaN.

Definition is_nan (x : num) : Prop :=
  match x with NaN => True | _ => False end.

(** Unary minus. *)
Definition nneg (x : num) : num :=
  match x with
  | Fin a => Fin (- a)
  | PInf => NInf
  | NInf => PInf
  | NaN => NaN
  end.

(** [x + y]. *)
Definition nadd (x y : num) : num :=
  match x, y with
  | NaN, _ | _, NaN => NaN
  | Fin a, Fin b => Fin (a + b)
  | PInf, NInf | NInf, PInf => NaN
  | PInf, _ | _, PInf => PInf
  | NInf, _ | _, NInf => NInf
  end.

(** [x - y]. *)
Definition nsub (x y : num) : num := nadd x (nneg y).

(** An infinity multiplied or divided by a finite real. *)
Definition inf_times (positive : bool) (b : R) : num :=
  if Req_dec_T b 0 then NaN
  else if Rlt_dec 0 b then (if positive then PInf else NInf)
  else (if positive then NInf else PInf).

(** [x * y]. *)
Definition nmul (x y : num) : num :=
  match x, y with
  | NaN, _ | _, NaN => NaN
  | Fin a, Fin b => Fin (a * b)
  | PInf, Fin b | Fin b, PInf => inf_times true b
  | NInf, Fin b | Fin b, NInf => inf_times false b
  | PInf, PInf | NInf, NInf => PInf
  | PInf, NInf | NInf, PInf => NInf
  end.

(** [x / y].  A finite non-zero value over zero is an infinity, zero
    over zero is [NaN]. *)
Definition ndiv (x y : num) : num :=
  match x, y with
  | NaN, _ | _, NaN => NaN
  | Fin a, Fin b =>
      if Req_dec_T b 0 then
        (if Req_dec_T a 0 then NaN
         else if Rlt_dec 0 a then PInf else NInf)
      else Fin (a / b)
  | Fin _, PInf | Fin _, NInf => Fin 0
  | PInf, Fin b => if Rlt_dec b 0 then NInf else PInf
  | NInf, Fin b => if Rlt_dec b 0 then PInf else NInf
  | PInf, PInf | PInf, NInf | NInf, PInf | NInf, NInf => NaN
  end.

(** [x ** 2]. *)
Definition nsquare (x : num) : num := nmul x x.

(** [Math.sqrt]. *)
Definition nsqrt (x : num) : num :=
  match x with
  | Fin a => if Rlt_dec a 0 then NaN else Fin (sqrt a)
  | PInf => PInf
  | NInf | NaN => NaN
  end.

(** [x < y]; every comparison with [NaN] is false. *)
Definition nlt (x y : num) : bool :=
  match x, y with
  | NaN, _ | _, NaN => false
  | Fin a, Fin b => if Rlt_dec a b then true else false
  | NInf, NInf | PInf, _ | _, NInf => false
  | NInf, _ | _, PInf => true
  end.

(** [x <= y]. *)
Definition nle (x y : num) : bool :=
  match x, y with
  | NaN, _ | _, NaN => false
  | Fin a, Fin b => if Rle_dec a b then true else false
  | NInf, _ | _, PInf => true
  | PInf, _ | _, NInf => false
  end.

(** [x >= y]. *)
Definition nge (x y : num) : bool := nle y x.

(** [Math.min(x, y)]. *)
Definition nmin (x y : num) : num :=
  match x, y with
  | NaN, _ | _, NaN => NaN
  | _, _ => if nlt y x then y else x
  end.

(** [Math.cos] and [Math.sin]. *)
Definition ncos (x : num) : num :=
  match x with Fin a => Fin (cos a) | _ => NaN end.

Definition nsin (x : num) : num :=
  match x with Fin a => Fin (sin a) | _ => NaN end.

(** [Math.atan2(y, x)] on finite arguments. *)
Definition atan2 (y x : R) : R :=
  if Rlt_dec 0 x then atan (y / x)
  else if Rlt_dec x 0 then
    (if Rlt_dec y 0 then atan (y / x) - PI else atan (y / x) + PI)
  else if Rlt_dec 0 y then PI / 2
  else if Rlt_dec y 0 then - (PI / 2)
  else 0.

(** [Math.atan2(y, x)]. *)
Definition natan2 (y x : num) : num :=
  match y, x with
  | NaN, _ | _, NaN => NaN
  | Fin b, Fin a => Fin (atan2 b a)
  | Fin _, PInf => Fin 0
  | Fin b, NInf => if Rlt_dec b 0 then Fin (- PI) else Fin PI
  | PInf, Fin _ => Fin (PI / 2)
  | NInf, Fin _ => Fin (- (PI / 2))
  | PInf, PInf => Fin (PI / 4)
  | PInf, NInf => Fin (3 * PI / 4)
  | NInf, PInf => Fin (- (PI / 4))
  | NInf, NInf => Fin (- (3 * PI / 4))
  end.

End JSNum.

(** ** CircleSimulation *)

Module CircleSimulation.
Import JSNum.
Local Open Scope R_scope.

Definition vec : Type := (num * num)%type.

(** The read-only geometry, fixed by the constructor from the canvas. *)
Record Geometry : Type := mkGeometry {
  WIDTH : num;
  HEIGHT : num;
  CIRCLE_RADIUS : num;
  MAX_BALL_RADIUS : num
}.

Definition INITIAL_BALL_RADIUS : num := Fin 5.
Definition MOTION_BLUR_STEPS : nat := 5.
Definition MAX_COLLISION_POINTS : nat := 50.

(** The tunable constants. *)
Record Tuning : Type := mkTuning {
  GRAVITY : num;
  VELOCITY_INCREASE_FACTOR : num;
  VELOCITY_DECAY : num;
  BALL_GROWTH_RATE : num
}.

Record Ball : Type := mkBall {
  ballRadius : num;
  ballCenter : vec;
  ballVelocity : vec
}.

Record Trails : Type := mkTrails {
  previousPositions : list vec;
  collisionPoints : list vec
}.

Record Loop : Type := mkLoop {
  running : bool;
  isDragging : bool;
  animationId : nat;
  startTime : num;
  elapsedTime : num
}.

(** A [MediaRecorder] of the platform: its [state] and whether the two
    handlers the simulation installs are still attached. *)
Inductive RecorderState : Type := inactive | recording | paused.

Record MediaRecorder : Type := mkRecorder {
  state : RecorderState;
  ondataavailable : bool;
  onstop : bool
}.

(** A blob is represented by its size, a completion callback by an
    identifier, a media stream by the [enabled] flags of its audio
    tracks. *)
Definition Blob : Type := nat.
Definition Callback : Type := nat.
Definition MediaStream : Type := list bool.

Record Capture : Type := mkCapture {
  mediaRecorder : option nat;
  chunks : list Blob;
  onRecordingComplete : option Callback;
  currentAudioStream : option MediaStream
}.

(** Events the platform delivers later, and effects the simulation has
    on the outside. *)
Inductive PlatformEvent : Type :=
| DataAvailable (recorder : nat) (data : Blob)
| Stopped (recorder : nat).

Inductive Effect : Type :=
| Draw (center : vec) (radius : num)
| ClearCanvas
| CollisionCallback
| RecordingComplete (callback : Callback) (blob : Blob).

(** The simulation object, its fields grouped as above, together with
    the platform objects it holds references to: the recorders ever
    created, the events queued for them, and the animation frames
    requested and not yet run.  [onCollision] tells whether a callback
    was given.  What only serves the painting (the canvases, the colour,
    the text elements) is left out; [log] records what the object does
    to the outside. *)
Record Sim : Type := mkSim {
  geom : Geometry;
  tuning : Tuning;
  ball : Ball;
  trails : Trails;
  loop : Loop;
  capture : Capture;
  onCollision : bool;
  recorders : list MediaRecorder;
  pending : list PlatformEvent;
  scheduled : list nat;
  rafCounter : nat;
  log : list Effect
}.

Definition set_tuning (s : Sim) (t : Tuning) : Sim :=
  mkSim (geom s) t (ball s) (trails s) (loop s) (capture s) (onCollision s)
        (recorders s) (pending s) (scheduled s) (rafCounter s) (log s).

Definition set_ball (s : Sim) (b : Ball) : Sim :=
  mkSim (geom s) (tuning s) b (trails s) (loop s) (capture s) (onCollision s)
        (recorders s) (pending s) (scheduled s) (rafCounter s) (log s).

Definition set_trails (s : Sim) (t : Trails) : Sim :=
  mkSim (geom s) (tuning s) (ball s) t (loop s) (capture s) (onCollision s)
        (recorders s) (pending s) (scheduled s) (rafCounter s) (log s).

Definition set_loop (s : Sim) (l : Loop) : Sim :=
  mkSim (geom s) (tuning s) (ball s) (trails s) l (capture s) (onCollision s)
        (recorders s) (pending s) (scheduled s) (rafCounter s) (log s).

Definition set_capture (s : Sim) (c : Capture) : Sim :=
  mkSim (geom s) (tuning s) (ball s) (trails s) (loop s) c (onCollision s)
        (recorders s) (pending s) (scheduled s) (rafCounter s) (log s).

Definition set_recorders (s : Sim) (r : list MediaRecorder) : Sim :=
  mkSim (geom s) (tuning s) (ball s) (trails s) (loop s) (capture s)
        (onCollision s) r (pending s) (scheduled s) (rafCounter s) (log s).

Definition set_pending (s : Sim) (p : list PlatformEvent) : Sim :=
  mkSim (geom s) (tuning s) (ball s) (trails s) (loop s) (capture s)
        (onCollision s) (recorders s) p (scheduled s) (rafCounter s) (log s).

Definition set_frames (s : Sim) (f : list nat) (c : nat) : Sim :=
  mkSim (geom s) (tuning s) (ball s) (trails s) (loop s) (capture s)
        (onCollision s) (recorders s) (pending s) f c (log s).

Definition emit (s : Sim) (e : Effect) : Sim :=
  mkSim (geom s) (tuning s) (ball s) (trails s) (loop s) (capture s)
        (onCollision s) (recorders s) (pending s) (scheduled s)
        (rafCounter s) (log s ++ [e]).

(** [array.shift()] when the array has reached [cap] entries, then
    [array.push(p)]. *)
Definition push_bounded (cap : nat) (l : list vec) (p : vec) : list vec :=
  (if cap <=? length l then tl l else l) ++ [p].

(** Replace the element at index [i]; out of range nothing changes (the
    indices used below always come from [mediaRecorder]). *)
Fixpoint update_nth {A : Type} (i : nat) (f : A -> A) (l : list A) : list A :=
  match l, i with
  | [], _ => []
  | x :: t, O => f x :: t
  | x :: t, S j => x :: update_nth j f t
  end.

(** The geometry the constructor derives from [canvas.width] and
    [canvas.height], which are unsigned integers. *)
Definition geometry_of_canvas (width height : N) : Geometry :=
  let W := Fin (IZR (Z.of_N width)) in
  let H := Fin (IZR (Z.of_N height)) in
  let CR := nsub (ndiv (nmin W H) (Fin 2)) (Fin 125) in
  mkGeometry W H CR (nmul CR (Fin 1.5)).

Definition default_tuning : Tuning :=
  mkTuning (Fin 0.4) (Fin 1.02) (Fin 0.9995) (Fin 1.015).

Definition circleCenter (g : Geometry) : vec :=
  (ndiv (WIDTH g) (Fin 2), ndiv (HEIGHT g) (Fin 2)).

(** [reset()]; [now] is the value of [performance.now()]. *)
Definition reset (now : num) (s : Sim) : Sim :=
  let g := geom s in
  let s1 :=
    set_ball s (mkBall INITIAL_BALL_RADIUS
                       (ndiv (WIDTH g) (Fin 2), ndiv (HEIGHT g) (Fin 2.7))
                       (Fin 0.8, Fin 0.8)) in
  let s2 := set_trails s1 (mkTrails [] []) in
  set_loop s2 (mkLoop (running (loop s2)) (isDragging (loop s2))
                      (animationId (loop s2)) now (Fin 0)).

(** [new CircleSimulation(canvas, textElements, onCollision)]. *)
Definition construct (width height : N) (hasOnCollision : bool)
    (now : num) : Sim :=
  reset now
    (mkSim (geometry_of_canvas width height) default_tuning
           (mkBall NaN (NaN, NaN) (NaN, NaN)) (mkTrails [] [])
           (mkLoop false false 0 (Fin 0) (Fin 0))
           (mkCapture None [] None None)
           hasOnCollision [] [] [] 0 []).

(** The tuning setters. *)
Definition setGravity (value : num) (s : Sim) : Sim :=
  let t := tuning s in
  set_tuning s (mkTuning value (VELOCITY_INCREASE_FACTOR t)
                         (VELOCITY_DECAY t) (BALL_GROWTH_RATE t)).

Definition setVelocityIncrease (value : num) (s : Sim) : Sim :=
  let t := tuning s in
  set_tuning s (mkTuning (GRAVITY t) (nadd (Fin 1) value)
                         (VELOCITY_DECAY t) (BALL_GROWTH_RATE t)).

Definition setVelocityDecay (value : num) (s : Sim) : Sim :=
  let t := tuning s in
  set_tuning s (mkTuning (GRAVITY t) (VELOCITY_INCREASE_FACTOR t)
                         value (BALL_GROWTH_RATE t)).

Definition setBallGrowthRate (value : num) (s : Sim) : Sim :=
  let t := tuning s in
  set_tuning s (mkTuning (GRAVITY t) (VELOCITY_INCREASE_FACTOR t)
                         (VELOCITY_DECAY t) (nadd (Fin 1) value)).

(** *** The physics tick *)

(** "Apply physics": gravity, decay, then the move. *)
Definition integrate (t : Tuning) (b : Ball) : Ball :=
  let vy1 := nadd (snd (ballVelocity b)) (GRAVITY t) in
  let vx2 := nmul (fst (ballVelocity b)) (VELOCITY_DECAY t) in
  let vy2 := nmul vy1 (VELOCITY_DECAY t) in
  mkBall (ballRadius b)
         (nadd (fst (ballCenter b)) vx2, nadd (snd (ballCenter b)) vy2)
         (vx2, vy2).

(** [dx], [dy]: the ball center relative to the boundary center. *)
Definition offset (g : Geometry) (b : Ball) : vec :=
  (nsub (fst (ballCenter b)) (fst (circleCenter g)),
   nsub (snd (ballCenter b)) (snd (circleCenter g))).

(** [Math.sqrt(x * x + y * y)]. *)
Definition norm (d : vec) : num :=
  nsqrt (nadd (nmul (fst d) (fst d)) (nmul (snd d) (snd d))).

(** [distance >= this.CIRCLE_RADIUS - this.ballRadius]. *)
Definition colliding (g : Geometry) (b : Ball) : bool :=
  nge (norm (offset g b)) (nsub (CIRCLE_RADIUS g) (ballRadius b)).

Definition restitution : num := Fin 0.95.
Definition minVelocity : num := Fin 1.0.

(** Reflection about the unit normal [d / distance], scaled by the
    restitution. *)
Definition reflect (v d : vec) : vec :=
  let distance := norm d in
  let nx := ndiv (fst d) distance in
  let ny := ndiv (snd d) distance in
  let dot := nadd (nmul (fst v) nx) (nmul (snd v) ny) in
  (nmul (nsub (fst v) (nmul (nmul (Fin 2) dot) nx)) restitution,
   nmul (nsub (snd v) (nmul (nmul (Fin 2) dot) ny)) restitution).

(** "Grow ball". *)
Definition grow (g : Geometry) (t : Tuning) (r : num) : num :=
  if nlt r (MAX_BALL_RADIUS g)
  then nmin (nmul r (BALL_GROWTH_RATE t)) (MAX_BALL_RADIUS g)
  else r.

(** "Increase velocity". *)
Definition boost (t : Tuning) (v : vec) : vec :=
  (nmul (fst v) (VELOCITY_INCREASE_FACTOR t),
   nmul (snd v) (VELOCITY_INCREASE_FACTOR t)).

(** [Math.sqrt(vx ** 2 + vy ** 2)]. *)
Definition speed (v : vec) : num :=
  nsqrt (nadd (nsquare (fst v)) (nsquare (snd v))).

(** "Ensure minimum velocity". *)
Definition ensureMinVelocity (v : vec) : vec :=
  let currentVelocity := speed v in
  if nlt currentVelocity minVelocity then
    let scale := ndiv minVelocity currentVelocity in
    (nmul (fst v) scale, nmul (snd v) scale)
  else v.

(** The velocity the collision branch leaves. *)
Definition resolveVelocity (t : Tuning) (v d : vec) : vec :=
  ensureMinVelocity (boost t (reflect v d)).

(** The point at distance [radius] from the boundary center, at the
    angle of [d]. *)
Definition onCircle (g : Geometry) (radius : num) (d : vec) : vec :=
  let angle := natan2 (snd d) (fst d) in
  (nadd (fst (circleCenter g)) (nmul radius (ncos angle)),
   nadd (snd (circleCenter g)) (nmul radius (nsin angle))).

(** The collision branch, applied to the integrated ball. *)
Definition collide (g : Geometry) (t : Tuning) (b : Ball) : Ball :=
  let d := offset g b in
  let r := grow g t (ballRadius b) in
  mkBall r (onCircle g (nsub (CIRCLE_RADIUS g) r) d)
         (resolveVelocity t (ballVelocity b) d).

(** [update()]; [now] is the value of [performance.now()]. *)
Definition update (now : num) (s : Sim) : Sim :=
  let g := geom s in
  let lp := loop s in
  let s1 :=
    set_loop s (mkLoop (running lp) (isDragging lp) (animationId lp)
                       (startTime lp)
                       (ndiv (nsub now (startTime lp)) (Fin 1000))) in
  let s2 :=
    set_trails s1
      (mkTrails (push_bounded MOTION_BLUR_STEPS
                   (previousPositions (trails s1)) (ballCenter (ball s1)))
                (collisionPoints (trails s1))) in
  let b := integrate (tuning s2) (ball s2) in
  if colliding g b then
    let s3 :=
      set_trails s2
        (mkTrails (previousPositions (trails s2))
                  (push_bounded MAX_COLLISION_POINTS
                     (collisionPoints (trails s2))
                     (onCircle g (CIRCLE_RADIUS g) (offset g b)))) in
    let s4 := set_ball s3 (collide g (tuning s3) b) in
    if onCollision s4 then emit s4 CollisionCallback else s4
  else set_ball s2 b.

(** [draw()]: what is painted is recorded as the ball drawn. *)
Definition draw (s : Sim) : Sim :=
  emit s (Draw (ballCenter (ball s)) (ballRadius (ball s))).

(** [requestAnimationFrame(this.animate)]. *)
Definition requestAnimationFrame (s : Sim) : Sim :=
  let id := S (rafCounter s) in
  let s1 := set_frames s (scheduled s ++ [id]) id in
  let lp := loop s1 in
  set_loop s1 (mkLoop (running lp) (isDragging lp) id
                      (startTime lp) (elapsedTime lp)).

(** [cancelAnimationFrame(id)]. *)
Definition cancelAnimationFrame (id : nat) (s : Sim) : Sim :=
  set_frames s (filter (fun i => negb (Nat.eqb i id)) (scheduled s))
             (rafCounter s).

(** [animate]: one frame. *)
Definition animate (now : num) (s : Sim) : Sim :=
  if running (loop s) then requestAnimationFrame (draw (update now s))
  else s.

(** [start()].  The clock is read here and again in the tick of
    [animate]; [now] stands for both readings. *)
Definition start (now : num) (s : Sim) : Sim :=
  let lp := loop s in
  let st :=
    if running lp then startTime lp
    else nsub now (nmul (elapsedTime lp) (Fin 1000)) in
  animate now
    (set_loop s (mkLoop true (isDragging lp) (animationId lp) st
                        (elapsedTime lp))).

(** [stop()]. *)
Definition stop (s : Sim) : Sim :=
  let lp := loop s in
  cancelAnimationFrame (animationId lp)
    (set_loop s (mkLoop false (isDragging lp) (animationId lp)
                        (startTime lp) (elapsedTime lp))).

(** The platform runs the oldest requested frame. *)
Definition runFrame (now : num) (s : Sim) : Sim :=
  match scheduled s with
  | [] => s
  | _ :: rest => animate now (set_frames s rest (rafCounter s))
  end.

(** A run of ticks, one for each value of [performance.now()]. *)
Definition ticks (nows : list num) (s : Sim) : Sim :=
  fold_left (fun st now => update now st) nows s.

(** *** Drag interaction *)

Definition set_dragging (s : Sim) (d : bool) : Sim :=
  let lp := loop s in
  set_loop s (mkLoop (running lp) d (animationId lp)
                     (startTime lp) (elapsedTime lp)).

Definition handleMouseDown (x y : num) (s : Sim) : Sim :=
  let dx := nsub x (fst (ballCenter (ball s))) in
  let dy := nsub y (snd (ballCenter (ball s))) in
  let distance := norm (dx, dy) in
  if nle distance (ballRadius (ball s))
  then stop (set_dragging s true)
  else s.

Definition handleMouseMove (x y : num) (s : Sim) : Sim :=
  if isDragging (loop s)
  then draw (set_ball s (mkBall (ballRadius (ball s)) (x, y)
                                (Fin 0, Fin 0)))
  else s.

Definition handleMouseUp (now : num) (s : Sim) : Sim :=
  if isDragging (loop s)
  then start now (set_dragging s false)
  else s.

(** *** Recording *)

Definition detach (r : MediaRecorder) : MediaRecorder :=
  mkRecorder (state r) false false.

Definition with_state (st : RecorderState) (r : MediaRecorder)
    : MediaRecorder :=
  mkRecorder st (ondataavailable r) (onstop r).

(** [cleanupResources()]. *)
Definition cleanupResources (s : Sim) : Sim :=
  let s1 := set_trails s (mkTrails [] []) in
  let c1 := capture s1 in
  let s2 :=
    set_capture s1 (mkCapture (mediaRecorder c1) []
                              (onRecordingComplete c1)
                              (currentAudioStream c1)) in
  let s3 := emit (emit s2 ClearCanvas) ClearCanvas in
  let s4 :=
    set_ball s3 (mkBall INITIAL_BALL_RADIUS (ballCenter (ball s3))
                        (Fin 0.8, Fin 0.8)) in
  match mediaRecorder (capture s4) with
  | Some id =>
      let c4 := capture s4 in
      set_capture
        (set_recorders s4 (update_nth id detach (recorders s4)))
        (mkCapture None (chunks c4) (onRecordingComplete c4)
                   (currentAudioStream c4))
  | None => s4
  end.

(** [setupRecording(audioStream)]: the previous recorder is let go and
    a new, inactive one is created with both handlers attached. *)
Definition setupRecording (audioStream : option MediaStream) (s : Sim)
    : Sim :=
  let s1 := cleanupResources s in
  let c1 := capture s1 in
  let stream :=
    match audioStream with
    | Some tracks =>
        if 0 <? length tracks then Some tracks else currentAudioStream c1
    | None => currentAudioStream c1
    end in
  let id := length (recorders s1) in
  set_capture
    (set_recorders s1 (recorders s1 ++ [mkRecorder inactive true true]))
    (mkCapture (Some id) (chunks c1) (onRecordingComplete c1) stream).

(** The recorder [this.mediaRecorder] refers to, if any. *)
Definition currentRecorder (s : Sim) : option MediaRecorder :=
  match mediaRecorder (capture s) with
  | Some id => nth_error (recorders s) id
  | None => None
  end.

Definition is_inactive (r : MediaRecorder) : bool :=
  match state r with inactive => true | _ => false end.

Definition is_recording (r : MediaRecorder) : bool :=
  match state r with recording => true | _ => false end.

(** [startRecording(onComplete, audioStream)]. *)
Definition startRecording (onComplete : option Callback)
    (audioStream : option MediaStream) (s : Sim) : Sim :=
  let s1 := setupRecording audioStream s in
  match mediaRecorder (capture s1), currentRecorder s1 with
  | Some id, Some r =>
      if is_inactive r then
        let c1 := capture s1 in
        set_recorders
          (set_capture s1 (mkCapture (mediaRecorder c1) [] onComplete
                                     (currentAudioStream c1)))
          (update_nth id (with_state recording) (recorders s1))
      else s1
  | _, _ => s1
  end.

(** [stopRecording()].  [startRecording] calls [start()] without a
    time slice, so the recorder keeps what it gathers until it is
    stopped: [MediaRecorder.stop()] makes the recorder inactive and
    queues its [dataavailable] event, with all that was recorded, and
    then its [stop] event.  [recorded] is the size of that data. *)
Definition stopRecording (recorded : Blob) (s : Sim) : Sim :=
  match mediaRecorder (capture s), currentRecorder s with
  | Some id, Some r =>
      if is_recording r then
        set_pending
          (set_recorders s (update_nth id (with_state inactive)
                                       (recorders s)))
          (pending s ++ [DataAvailable id recorded; Stopped id])
      else s
  | _, _ => s
  end.

(** The handlers installed by [setupRecording], run when the platform
    delivers the oldest queued event to a recorder that still has them. *)
Definition dispatch (s : Sim) : Sim :=
  match pending s with
  | [] => s
  | DataAvailable id data :: rest =>
      let s1 := set_pending s rest in
      match nth_error (recorders s1) id with
      | Some r =>
          if ondataavailable r && (0 <? data) then
            let c1 := capture s1 in
            set_capture s1 (mkCapture (mediaRecorder c1)
                                      (chunks c1 ++ [data])
                                      (onRecordingComplete c1)
                                      (currentAudioStream c1))
          else s1
      | None => s1
      end
  | Stopped id :: rest =>
      let s1 := set_pending s rest in
      match nth_error (recorders s1) id with
      | Some r =>
          if onstop r then
            let finalBlob := list_sum (chunks (capture s1)) in
            let s2 :=
              match onRecordingComplete (capture s1) with
              | Some cb => emit s1 (RecordingComplete cb finalBlob)
              | None => s1
              end in
            let s3 := cleanupResources s2 in
            let c3 := capture s3 in
            set_capture s3
              (mkCapture (mediaRecorder c3) (chunks c3)
                         (onRecordingComplete c3)
                         (option_map (map (fun _ => true))
                                     (currentAudioStream c3)))
          else s1
      | None => s1
      end
  end.

(** The completion callbacks run so far, with the blob each received. *)
Definition completions (s : Sim) : list (Callback * Blob) :=
  flat_map (fun e => match e with
                     | RecordingComplete cb blob => [(cb, blob)]
                     | _ => []
                     end) (log s).

(** The recorders of the platform that are recording. *)
Definition activeRecorders (s : Sim) : nat :=
  length (filter is_recording (recorders s)).

(** *** Scenarios *)

(** The simulation as the application creates it, on its canvas of 1080
    by 1920. *)
Definition app_sim : Sim := construct 1080 1920 true (Fin 0).

(** The same with the gravity slider at 0. *)
Definition weightless : Sim := setGravity (Fin 0) app_sim.

(** Without gravity, the ball is grabbed, dragged to the point
    (950, 960) on the boundary, and released. *)
Definition released_at_rest : Sim :=
  handleMouseUp (Fin 2000)
    (handleMouseMove (Fin 950) (Fin 960)
       (handleMouseDown (Fin 540) (Fin 711) weightless)).

(** Without gravity, a ball grown to radius 500 rests at the boundary
    center. *)
Definition resting_at_center : Sim :=
  set_ball weightless (mkBall (Fin 500) (Fin 540, Fin 960) (Fin 0, Fin 0)).

(** The simulation of the application, ticking. *)
Definition app_running : Sim := start (Fin 0) app_sim.

(** Recording is started, and started again without a stop between. *)
Definition started_once : Sim := startRecording (Some 1%nat) None app_sim.
Definition started_twice : Sim := startRecording (Some 2%nat) None started_once.

(** *** Predicates used in the statements *)

(** What the ticks keep true of the radius. *)
Definition radius_ok (s : Sim) : Prop :=
  nle INITIAL_BALL_RADIUS (ballRadius (ball s)) = true
  /\ (nle INITIAL_BALL_RADIUS (MAX_BALL_RADIUS (geom s)) = true ->
      nle (ballRadius (ball s)) (MAX_BALL_RADIUS (geom s)) = true).

(** *** The loop and the recorder, seen from outside *)

(** [isRunning()]. *)
Definition isRunning (s : Sim) : bool := running (loop s).

(** The platform runs requested frames, one for each value of
    [performance.now()]. *)
Definition frames (nows : list num) (s : Sim) : Sim :=
  fold_left (fun st now => runFrame now st) nows s.

(** The recorders once [cleanupResources] has let go of the recorder in
    use. *)
Definition released (s : Sim) : list MediaRecorder :=
  match mediaRecorder (capture s) with
  | Some id => update_nth id detach (recorders s)
  | None => recorders s
  end.

(** [handlePlayPause] of the application. *)
Definition handlePlayPause (now : num) (s : Sim) : Sim :=
  if isRunning s then stop s else start now s.

(** One animation chain at most: a running simulation is not being
    dragged and has requested exactly the frame [animationId]; one that
    is not running has requested none. *)
Definition single_chain (s : Sim) : Prop :=
  if running (loop s)
  then isDragging (loop s) = false /\ scheduled s = [animationId (loop s)]
  else scheduled s = [].

End CircleSimulation.

(** ** AudioManager *)

Module AudioManager.
Import String.
Local Open Scope Q_scope.

Inductive Error : Type :=
| NotSupportedError
| RangeError
| IndexSizeError
| TypeError
| EncodingError
| InvalidAudioFormat
| MaximumTracksReached (limit : nat)
| FailedToProcess (cause : Error).

(** What running a piece of code comes to: it returns, it throws, or
    (for the one loop below) it is still running when the fuel is spent. *)
Inductive outcome (A : Type) : Type :=
| Returns (a : A)
| Throws (e : Error)
| Spins.

Arguments Returns {A} a.
Arguments Throws {A} e.
Arguments Spins {A}.

Definition bind {A B : Type} (c : outcome A) (k : A -> outcome B)
    : outcome B :=
  match c with
  | Returns a => k a
  | Throws e => Throws e
  | Spins => Spins
  end.

Notation "x <- c ;; k" := (bind c (fun x => k))
  (at level 61, c at next level, right associativity).

Definition sample : Type := Q.

(** An [AudioBuffer]: [channels] holds the data of each channel. *)
Record AudioBuffer : Type := mkBuffer {
  sampleRate : Q;
  numberOfChannels : nat;
  length : nat;
  channels : list (list sample)
}.

Record AudioSegment : Type := mkSegment {
  buffer : AudioBuffer;
  startTime : Q;
  duration : Q
}.

Definition Qlt_bool (x y : Q) : bool := negb (Qle_bool y x).

(** [Math.min(x, y)]. *)
Definition qmin (x y : Q) : Q := if Qlt_bool y x then y else x.

(** Conversion of a number to an integer by truncation, as array
    indices and lengths undergo. *)
Definition toInteger (x : Q) : Z := Z.quot (Qnum x) (Zpos (Qden x)).

(** Conversion to a WebIDL [unsigned long]. *)
Definition toUint32 (x : Q) : nat := Z.to_nat (toInteger x mod 2 ^ 32).

(** [audioContext.createBuffer(numberOfChannels, length, sampleRate)]:
    a silent buffer, refused when it would have no channel or no
    frame. *)
Definition createBuffer (nch : nat) (len : Q) (rate : Q)
    : outcome AudioBuffer :=
  let n := toUint32 len in
  if (nch =? 0)%nat || (n =? 0)%nat then Throws NotSupportedError
  else Returns (mkBuffer rate nch n (repeat (repeat 0 n) nch)).

(** [buffer.getChannelData(channel)]. *)
Definition getChannelData (b : AudioBuffer) (channel : nat)
    : outcome (list sample) :=
  match nth_error (channels b) channel with
  | Some data => Returns data
  | None => Throws IndexSizeError
  end.

(** A relative index of [slice], clamped to the array. *)
Definition relativeIndex (len : nat) (k : Z) : nat :=
  if (k <? 0)%Z then Z.to_nat (Z.max (Z.of_nat len + k) 0)
  else Z.to_nat (Z.min k (Z.of_nat len)).

(** [typedArray.slice(from, to)]. *)
Definition slice (data : list sample) (from to : Q) : list sample :=
  let first := relativeIndex (List.length data) (toInteger from) in
  let final := relativeIndex (List.length data) (toInteger to) in
  firstn (final - first) (skipn first data).

(** [target.set(source, offset)]: refused when [source] does not fit. *)
Definition set (target source : list sample) (offset : nat)
    : outcome (list sample) :=
  if (List.length target <? List.length source + offset)%nat
  then Throws RangeError
  else Returns (firstn offset target ++ source
                  ++ skipn (offset + List.length source) target).

Fixpoint replace_nth {A : Type} (i : nat) (x : A) (l : list A) : list A :=
  match l, i with
  | [], _ => []
  | _ :: t, O => x :: t
  | y :: t, S j => y :: replace_nth j x t
  end.

(** The buffer [b] after one of its channels was written. *)
Definition with_channel (b : AudioBuffer) (channel : nat)
    (data : list sample) : AudioBuffer :=
  mkBuffer (sampleRate b) (numberOfChannels b) (length b)
           (replace_nth channel data (channels b)).

(** The inner loop of [splitAudioIntoSegments]: each channel of the
    segment receives its slice. *)
Fixpoint copyChannels (audioBuffer segmentBuffer : AudioBuffer)
    (i segmentLength : Q) (todo : list nat) : outcome AudioBuffer :=
  match todo with
  | [] => Returns segmentBuffer
  | channel :: rest =>
      channelData <- getChannelData audioBuffer channel ;;
      segmentData <- getChannelData segmentBuffer channel ;;
      written <- set segmentData
                     (slice channelData i (i + segmentLength)) 0 ;;
      copyChannels audioBuffer (with_channel segmentBuffer channel written)
                   i segmentLength rest
  end.

(** The outer loop of [splitAudioIntoSegments], from the index [i]. *)
Fixpoint splitLoop (fuel : nat) (segmentDuration : Q)
    (audioBuffer : AudioBuffer) (i : Q) (segments : list AudioSegment)
    : outcome (list AudioSegment) :=
  let sampleRate := sampleRate audioBuffer in
  let samplesPerSegment := segmentDuration * sampleRate in
  if Qlt_bool i (inject_Z (Z.of_nat (length audioBuffer))) then
    match fuel with
    | O => Spins
    | S fuel' =>
        let segmentLength :=
          qmin samplesPerSegment
               (inject_Z (Z.of_nat (length audioBuffer)) - i) in
        segmentBuffer <- createBuffer (numberOfChannels audioBuffer)
                                      segmentLength sampleRate ;;
        filled <- copyChannels audioBuffer segmentBuffer i segmentLength
                               (seq 0 (numberOfChannels audioBuffer)) ;;
        splitLoop fuel' segmentDuration audioBuffer
                  (i + samplesPerSegment)
                  (segments ++ [mkSegment filled (i / sampleRate)
                                          segmentDuration])
    end
  else Returns segments.

(** [splitAudioIntoSegments(audioBuffer)].  A pass of the loop that
    does not throw has created a buffer of at least one frame, so it
    advances [i] by at least one: [length + 1] passes are enough. *)
Definition splitAudioIntoSegments (segmentDuration : Q)
    (audioBuffer : AudioBuffer) : outcome (list AudioSegment) :=
  splitLoop (S (length audioBuffer)) segmentDuration audioBuffer 0 [].

(** A [File]: its declared MIME type and what [decodeAudioData] makes
    of its bytes ([None] when the bytes are rejected). *)
Record File : Type := mkFile {
  type : String.string;
  decoded : option AudioBuffer
}.

(** An [AudioBufferSourceNode] of the platform. *)
Record SourceNode : Type := mkSource {
  source_buffer : option AudioBuffer;
  started : bool;
  stopped : bool;
  onended : bool
}.

(** The manager, and the platform objects it refers to: whether the
    audio context is suspended, and the source nodes created so far
    ([currentSource] is an index into them). *)
Record Manager : Type := mkManager {
  audioTracks : list (list AudioSegment);
  currentTrackIndex : nat;
  segments : list AudioSegment;
  currentSegmentIndex : nat;
  isProcessing : bool;
  currentSource : option nat;
  isPlaying : bool;
  segmentDuration : Q;
  lastPlayStartTime : Q;
  suspended : bool;
  sources : list SourceNode
}.

Definition MAX_TRACKS : nat := 10.

(** [new AudioManager(destinationNode)]. *)
Definition construct (contextSuspended : bool) : Manager :=
  mkManager [] 0 [] 0 false None false 0.3 0 contextSuspended [].

Definition set_tracks (m : Manager) (tracks : list (list AudioSegment))
    (active : list AudioSegment) : Manager :=
  mkManager tracks (currentTrackIndex m) active (currentSegmentIndex m)
            (isProcessing m) (currentSource m) (isPlaying m)
            (segmentDuration m) (lastPlayStartTime m) (suspended m)
            (sources m).

Definition set_processing (m : Manager) (p : bool) : Manager :=
  mkManager (audioTracks m) (currentTrackIndex m) (segments m)
            (currentSegmentIndex m) p (currentSource m) (isPlaying m)
            (segmentDuration m) (lastPlayStartTime m) (suspended m)
            (sources m).

Definition set_segmentDuration (m : Manager) (d : Q) : Manager :=
  mkManager (audioTracks m) (currentTrackIndex m) (segments m)
            (currentSegmentIndex m) (isProcessing m) (currentSource m)
            (isPlaying m) d (lastPlayStartTime m) (suspended m)
            (sources m).

Definition set_playing (m : Manager) (p : bool) : Manager :=
  mkManager (audioTracks m) (currentTrackIndex m) (segments m)
            (currentSegmentIndex m) (isProcessing m) (currentSource m)
            p (segmentDuration m) (lastPlayStartTime m) (suspended m)
            (sources m).

Definition set_sources (m : Manager) (l : list SourceNode) : Manager :=
  mkManager (audioTracks m) (currentTrackIndex m) (segments m)
            (currentSegmentIndex m) (isProcessing m) (currentSource m)
            (isPlaying m) (segmentDuration m) (lastPlayStartTime m)
            (suspended m) l.

(** [audioContext.resume()] when the context is suspended. *)
Definition resume (m : Manager) : Manager :=
  mkManager (audioTracks m) (currentTrackIndex m) (segments m)
            (currentSegmentIndex m) (isProcessing m) (currentSource m)
            (isPlaying m) (segmentDuration m) (lastPlayStartTime m)
            false (sources m).

(** *** Re-segmentation *)

(** [track.reduce((acc, segment) => acc + segment.buffer.length, 0)]. *)
Definition totalLength (track : list AudioSegment) : nat :=
  fold_left (fun acc segment => (acc + length (buffer segment))%nat) track 0%nat.

(** The channel loop of the reconstruction: the segment's channels are
    written into [fullBuffer] at [offset]. *)
Fixpoint writeChannels (fullBuffer : AudioBuffer) (segment : AudioSegment)
    (offset : nat) (todo : list nat) : outcome AudioBuffer :=
  match todo with
  | [] => Returns fullBuffer
  | channel :: rest =>
      channelData <- getChannelData fullBuffer channel ;;
      segmentData <- getChannelData (buffer segment) channel ;;
      written <- set channelData segmentData offset ;;
      writeChannels (with_channel fullBuffer channel written) segment
                    offset rest
  end.

(** The segment loop of the reconstruction. *)
Fixpoint writeSegments (fullBuffer : AudioBuffer)
    (track : list AudioSegment) (offset : nat) (channels : nat)
    : outcome AudioBuffer :=
  match track with
  | [] => Returns fullBuffer
  | segment :: rest =>
      fullBuffer' <- writeChannels fullBuffer segment offset
                                   (seq 0 channels) ;;
      writeSegments fullBuffer' rest
                    (offset + length (buffer segment)) channels
  end.

(** "Reconstruct original audio buffer", for a track with a first
    segment. *)
Definition reconstruct (firstSegment : AudioSegment)
    (track : list AudioSegment) : outcome AudioBuffer :=
  let sampleRate := sampleRate (buffer firstSegment) in
  let channels := numberOfChannels (buffer firstSegment) in
  fullBuffer <- createBuffer channels
                  (inject_Z (Z.of_nat (totalLength track))) sampleRate ;;
  writeSegments fullBuffer track 0 channels.

(** How the promise of an [async] method ends. *)
Inductive settled : Type :=
| Resolved
| Rejected (e : Error)
| Unsettled.

(** The loop of [reprocessTracks] over the old tracks.  An exception
    ends it and leaves the manager as it is at that point. *)
Fixpoint reprocessLoop (oldTracks : list (list AudioSegment))
    (m : Manager) : Manager * settled :=
  match oldTracks with
  | [] => (m, Resolved)
  | track :: rest =>
      match track with
      | [] => reprocessLoop rest m
      | firstSegment :: _ =>
          match (fullBuffer <- reconstruct firstSegment track ;;
                 splitAudioIntoSegments (segmentDuration m) fullBuffer) with
          | Returns newSegments =>
              let tracks := audioTracks m ++ [newSegments] in
              reprocessLoop rest
                (set_tracks m tracks
                   (if (List.length tracks =? 1)%nat then newSegments
                    else segments m))
          | Throws e => (m, Rejected e)
          | Spins => (m, Unsettled)
          end
      end
  end.

(** [reprocessTracks()]. *)
Definition reprocessTracks (m : Manager) : Manager * settled :=
  reprocessLoop (audioTracks m) (set_tracks m [] []).

(** [setSegmentDuration(duration)]; the promise of [reprocessTracks] is
    dropped. *)
Definition setSegmentDuration (duration : Q) (m : Manager) : Manager :=
  if Qlt_bool 0 duration
  then fst (reprocessTracks (set_segmentDuration m duration))
  else m.

(** *** Adding a track *)

Local Open Scope string_scope.

Definition validTypes : list String.string :=
  ["audio/mp3"; "audio/mpeg"; "audio/wav"; "audio/ogg"].

(** [isValidAudioFormat(file)]. *)
Definition isValidAudioFormat (file : File) : bool :=
  existsb (String.eqb (type file)) validTypes.

Local Close Scope string_scope.

(** [processAudioFile(file)]. *)
Definition processAudioFile (file : File) (m : Manager)
    : Manager * settled :=
  if negb (isValidAudioFormat file) then (m, Rejected InvalidAudioFormat)
  else if (MAX_TRACKS <=? List.length (audioTracks m))%nat
  then (m, Rejected (MaximumTracksReached MAX_TRACKS))
  else
    let m1 := set_processing m true in
    match (audioBuffer <- match decoded file with
                          | Some b => Returns b
                          | None => Throws EncodingError
                          end ;;
           splitAudioIntoSegments (segmentDuration m1) audioBuffer) with
    | Returns newSegments =>
        let tracks := audioTracks m1 ++ [newSegments] in
        let m2 :=
          set_tracks m1 tracks
            (if (List.length tracks =? 1)%nat then newSegments
             else segments m1) in
        let m3 := set_processing m2 false in
        (if suspended m3 then resume m3 else m3, Resolved)
    | Throws e => (set_processing m1 false, Rejected (FailedToProcess e))
    | Spins => (m1, Unsettled)
    end.

(** *** Playback *)

Definition stop_source (s : SourceNode) : SourceNode :=
  mkSource (source_buffer s) (started s) true (onended s).

(** [playNextSegment()]; [currentTime] is [audioContext.currentTime]. *)
Definition playNextSegment (currentTime : Q) (m : Manager) : Manager :=
  if (List.length (segments m) =? 0)%nat || isProcessing m then m
  else
    let timeSinceLastPlay := currentTime - lastPlayStartTime m in
    if Qlt_bool timeSinceLastPlay (segmentDuration m * 0.9) then m
    else
      let m1 := if suspended m then resume m else m in
      let m2 :=
        match currentSource m1 with
        | Some id =>
            set_sources m1
              (CircleSimulation.update_nth id stop_source (sources m1))
        | None => m1
        end in
      let id := List.length (sources m2) in
      match nth_error (segments m2) (currentSegmentIndex m2) with
      | Some segment =>
          mkManager (audioTracks m2) (currentTrackIndex m2) (segments m2)
                    (currentSegmentIndex m2) (isProcessing m2) (Some id)
                    true (segmentDuration m2) currentTime (suspended m2)
                    (sources m2
                       ++ [mkSource (Some (buffer segment)) true false true])
      | None =>
          set_playing
            (set_sources m2 (sources m2 ++ [mkSource None false false false]))
            false
      end.

(** The one-shot triggers so far: the source nodes that were started. *)
Definition triggers (m : Manager) : nat :=
  List.length (filter started (sources m)).

(** *** Segments as the specification describes them *)

(** A buffer as the platform hands it out: as many channels as it
    says, each as long as it says, and a length that fits an
    [unsigned long]. *)
Definition wf_buffer (b : AudioBuffer) : Prop :=
  List.length (channels b) = numberOfChannels b
  /\ (1 <= numberOfChannels b)%nat
  /\ Forall (fun data => List.length data = length b) (channels b)
  /\ (Z.of_nat (length b) < 2 ^ 32)%Z.

(** The [count] frames of [b] from the frame [first] on. *)
Definition piece (b : AudioBuffer) (first count : nat) : AudioBuffer :=
  mkBuffer (sampleRate b) (numberOfChannels b) count
           (map (fun data => firstn count (skipn first data)) (channels b)).

(** Consecutive pieces of [n] frames from [first] on, the last one
    holding what remains. *)
Fixpoint pieces (fuel n : nat) (b : AudioBuffer) (first : nat)
    : list AudioBuffer :=
  match fuel with
  | O => []
  | S fuel' =>
      if (first <? length b)%nat
      then piece b first (Nat.min n (length b - first))
             :: pieces fuel' n b (first + n)
      else []
  end.

(** The lengths of the consecutive segments of [n] frames that cover
    [len] frames: full ones, then the remainder if there is one. *)
Definition chunk_lengths (n len : nat) : list nat :=
  repeat n (len / n)
  ++ (if (len mod n =? 0)%nat then [] else [(len mod n)%nat]).

(** The data of one channel of a segment. *)
Definition channel_of (channel : nat) (s : AudioSegment) : list sample :=
  nth channel (channels (buffer s)) [].

(** A number that a JavaScript number holds exactly: [m * 2 ^ e] with
    the 53 bits and the exponents of binary64. *)
Definition binary64 (q : Q) : Prop :=
  exists m e : Z,
    (Z.abs m < 2 ^ 53)%Z /\ (-1074 <= e <= 971)%Z
    /\ q == inject_Z m * 2 ^ e.

(** The segment duration and the sample rate of [b] are binary64
    numbers whose product is the whole number [n] of frames, at least
    one.  The product the code rounds is then [n] itself, and the loop
    goes on in whole numbers. *)
Definition exact_frames (segmentDuration : Q) (b : AudioBuffer) (n : nat)
    : Prop :=
  binary64 segmentDuration /\ binary64 (sampleRate b)
  /\ (1 <= n)%nat /\ (Z.of_nat n < 2 ^ 53)%Z
  /\ segmentDuration * sampleRate b == inject_Z (Z.of_nat n).

(** The buffers of [track] are the consecutive pieces of [n] frames of
    [b]. *)
Definition cut_every (n : nat) (b : AudioBuffer) (track : list AudioSegment)
    : Prop :=
  (1 <= n)%nat /\ map buffer track = pieces (S (length b)) n b 0.

(** [track] is [b] cut at the segment duration [d], a whole number of
    frames, and every segment records [d]. *)
Definition resegmented (d : Q) (b : AudioBuffer) (track : list AudioSegment)
    : Prop :=
  exists n : nat,
    exact_frames d b n /\ cut_every n b track
    /\ Forall (fun s => duration s = d) track.

(** The seconds of audio a segment holds. *)
Definition audio_seconds (s : AudioSegment) : Q :=
  Qred (inject_Z (Z.of_nat (length (buffer s))) / sampleRate (buffer s)).

(** A view of the segments a call returned. *)
Definition on_segments {A : Type} (f : AudioSegment -> A)
    (o : outcome (list AudioSegment)) : option (list A) :=
  match o with
  | Returns segs => Some (map f segs)
  | _ => None
  end.

(** *** Scenarios *)

(** A buffer of [n] frames on one channel, whose samples are 0, 1, 2,
    and so on. *)
Fixpoint ramp (from : Z) (n : nat) : list sample :=
  match n with
  | O => []
  | S k => inject_Z from :: ramp (from + 1) k
  end.

(** One second of stereo audio at 44100 Hz. *)
Definition one_second : AudioBuffer :=
  mkBuffer 44100 2 (Z.to_nat 44100)
           [ramp 0 (Z.to_nat 44100); ramp 44100 (Z.to_nat 44100)].

Definition one_second_file : File :=
  mkFile "audio/wav" (Some one_second).

(** The manager after that file was added: one track, split at the
    initial segment duration of 0.3 s. *)
Definition one_track : Manager :=
  fst (processAudioFile one_second_file (construct false)).

(** An empty manager whose segment duration was set to 0.5 s, and the
    same after the file of one second was added: one track of two
    segments. *)
Definition half_second : Manager := setSegmentDuration 0.5 (construct false).

Definition half_second_track : Manager :=
  fst (processAudioFile one_second_file half_second).

(** A file of one second of mono audio at 8000 Hz. *)
Definition short_file : File :=
  mkFile "audio/ogg"
         (Some (mkBuffer 8000 1 (Z.to_nat 8000) [ramp 0 (Z.to_nat 8000)])).

(** The manager after ten short files were added. *)
Definition ten_tracks : Manager :=
  fold_left (fun m file => fst (processAudioFile file m))
            (repeat short_file 10) (construct false).

(** *** Choosing and removing tracks *)

(** [array.splice(index, 1)]. *)
Definition splice1 {A : Type} (index : nat) (l : list A) : list A :=
  firstn index l ++ skipn (S index) l.

(** [currentSource.stop()] on the source in use, if there is one. *)
Definition stopCurrent (m : Manager) : list SourceNode :=
  match currentSource m with
  | Some id => CircleSimulation.update_nth id stop_source (sources m)
  | None => sources m
  end.

(** [selectRandomTrack()]; [random] is the value of [Math.random()], a
    number from 0 up to but not including 1.  For such a value
    [randomIndex] is the index of a track; where it is not,
    [this.audioTracks[randomIndex]] would be [undefined], for which the
    empty list stands here. *)
Definition selectRandomTrack (random : Q) (m : Manager) : Manager :=
  if (List.length (audioTracks m) =? 0)%nat then m
  else
    let randomIndex :=
      Z.to_nat
        (Qfloor (random * inject_Z (Z.of_nat (List.length (audioTracks m)))))
    in
    mkManager (audioTracks m) randomIndex
              (nth randomIndex (audioTracks m) []) 0 (isProcessing m) None
              (isPlaying m) (segmentDuration m) 0 (suspended m)
              (stopCurrent m).

(** [removeTrack(index)], for an index that is a number in the
    ordinary sense (not [NaN], not infinite); [splice] truncates it.
    [random] is the value [Math.random()] has if a track is chosen in
    place of the one removed. *)
Definition removeTrack (index random : Q) (m : Manager) : Manager :=
  if Qlt_bool index 0
     || Qle_bool (inject_Z (Z.of_nat (List.length (audioTracks m)))) index
  then m
  else
    let m1 :=
      set_tracks m (splice1 (Z.to_nat (toInteger index)) (audioTracks m))
                 (segments m) in
    if Qeq_bool (inject_Z (Z.of_nat (currentTrackIndex m1))) index then
      if (0 <? List.length (audioTracks m1))%nat
      then selectRandomTrack random m1
      else
        mkManager (audioTracks m1) 0 [] 0 (isProcessing m1)
                  (currentSource m1) (isPlaying m1) (segmentDuration m1)
                  (lastPlayStartTime m1) (suspended m1) (sources m1)
    else if Qlt_bool index (inject_Z (Z.of_nat (currentTrackIndex m1))) then
      mkManager (audioTracks m1) (currentTrackIndex m1 - 1) (segments m1)
                (currentSegmentIndex m1) (isProcessing m1)
                (currentSource m1) (isPlaying m1) (segmentDuration m1)
                (lastPlayStartTime m1) (suspended m1) (sources m1)
    else m1.

(** [clearSegments()]. *)
Definition clearSegments (m : Manager) : Manager :=
  mkManager [] 0 [] 0 (isProcessing m) None false (segmentDuration m) 0
            (suspended m) (stopCurrent m).

(** [reset()]. *)
Definition reset (random : Q) (m : Manager) : Manager :=
  selectRandomTrack random m.

(** [getTracksCount()], [getMaxTracks()] and [isProcessingAudio()]. *)
Definition getTracksCount (m : Manager) : nat := List.length (audioTracks m).
Definition getMaxTracks (m : Manager) : nat := MAX_TRACKS.
Definition isProcessingAudio (m : Manager) : bool := isProcessing m.

(** *** The end of a source *)

(** The handler [source.onended] that [playNextSegment] installs.  With
    no segment left the remainder by zero is [NaN], a value
    [currentSegmentIndex] does not hold here: the result is [None]. *)
Definition onendedHandler (m : Manager) : option Manager :=
  match List.length (segments m) with
  | O => None
  | S _ =>
      Some (mkManager (audioTracks m) (currentTrackIndex m) (segments m)
                      ((currentSegmentIndex m + 1)
                       mod List.length (segments m))
                      (isProcessing m) (currentSource m) false
                      (segmentDuration m) (lastPlayStartTime m)
                      (suspended m) (sources m))
  end.

(** What happens to the manager: a collision of the simulation, whose
    callback calls [playNextSegment] at the context time [currentTime],
    or the [ended] event of a source node. *)
Inductive Event : Type :=
| Collision (currentTime : Q)
| Ended (source : nat).

Definition happen (e : Event) (m : Manager) : option Manager :=
  match e with
  | Collision currentTime => Some (playNextSegment currentTime m)
  | Ended source =>
      match nth_error (sources m) source with
      | Some node => if onended node then onendedHandler m else Some m
      | None => Some m
      end
  end.

Fixpoint happenAll (es : list Event) (m : Manager) : option Manager :=
  match es with
  | [] => Some m
  | e :: rest =>
      match happen e m with
      | Some m1 => happenAll rest m1
      | None => None
      end
  end.

(** The buffers of the source nodes started so far, oldest first. *)
Definition played (m : Manager) : list (option AudioBuffer) :=
  map source_buffer (filter started (sources m)).

(** *** The calls of the application *)

(** The public methods that change the manager. *)
Inductive Call : Type :=
| ProcessAudioFile (file : File)
| SetSegmentDuration (duration : Q)
| SelectRandomTrack (random : Q)
| RemoveTrack (index random : Q)
| PlayNextSegment (currentTime : Q)
| ClearSegments
| Reset (random : Q).

Definition call (c : Call) (m : Manager) : Manager :=
  match c with
  | ProcessAudioFile file => fst (processAudioFile file m)
  | SetSegmentDuration duration => setSegmentDuration duration m
  | SelectRandomTrack random => selectRandomTrack random m
  | RemoveTrack index random => removeTrack index random m
  | PlayNextSegment currentTime => playNextSegment currentTime m
  | ClearSegments => clearSegments m
  | Reset random => reset random m
  end.

Definition calls (cs : list Call) (m : Manager) : Manager :=
  fold_left (fun st c => call c st) cs m.

(** [handleAudioUpload] of the application, on the files chosen: how
    the handler ends and what it leaves in [audioError]. *)
Inductive Notice : Type :=
| SomeFilesNotProcessed (maxTracks : nat)
| Message (e : Error).

Inductive UploadEnd : Type :=
| Finished (audioError : option Notice)
| Waiting.

(** The loop over the files, from the index [i]; [files] holds the
    files from that index on. *)
Fixpoint uploadLoop (files : list File) (i currentTracks maxTracks : nat)
    (m : Manager) : Manager * settled :=
  match files with
  | [] => (m, Resolved)
  | file :: rest =>
      if (currentTracks + i <? maxTracks)%nat then
        match processAudioFile file m with
        | (m1, Resolved) => uploadLoop rest (S i) currentTracks maxTracks m1
        | (m1, Rejected e) => (m1, Rejected e)
        | (m1, Unsettled) => (m1, Unsettled)
        end
      else (m, Resolved)
  end.

Definition handleAudioUpload (files : list File) (m : Manager)
    : Manager * UploadEnd :=
  let maxTracks := getMaxTracks m in
  let currentTracks := getTracksCount m in
  match uploadLoop files 0 currentTracks maxTracks m with
  | (m1, Resolved) =>
      (m1, Finished (if (maxTracks <? currentTracks + List.length files)%nat
                     then Some (SomeFilesNotProcessed maxTracks)
                     else None))
  | (m1, Rejected e) => (m1, Finished (Some (Message e)))
  | (m1, Unsettled) => (m1, Waiting)
  end.

(** *** More scenarios *)

(** Ten frames of mono audio at 10 Hz. *)
Definition ten_frames : AudioBuffer := mkBuffer 10 1 10 [ramp 0 10].

Definition ten_frames_file : File := mkFile "audio/wav" (Some ten_frames).

(** The manager after that file was added: one track of segments of 3,
    3, 3 and 1 frames. *)
Definition small_track : Manager :=
  fst (processAudioFile ten_frames_file (construct false)).

(** A file that is not of an audio format. *)
Definition video_file : File := mkFile "video/mp4" (Some ten_frames).

(** Five frames of mono audio at 10 Hz, and a manager that holds both
    files and has chosen the second. *)
Definition five_frames : AudioBuffer := mkBuffer 10 1 5 [ramp 100 5].

Definition five_frames_file : File := mkFile "audio/mpeg" (Some five_frames).

Definition second_selected : Manager :=
  selectRandomTrack 0.9 (fst (processAudioFile five_frames_file small_track)).

(** Collisions at the times [times], each followed by the end of the
    source it started; [source] is the number of source nodes created
    before. *)
Fixpoint rounds (source : nat) (times : list Q) : list Event :=
  match times with
  | [] => []
  | currentTime :: rest =>
      Collision currentTime :: Ended source :: rounds (S source) rest
  end.

(** Each of the times [times] is a binary64 number and comes at least
    a full [segmentDuration] after the one before, the first one after
    [last]. *)
Fixpoint spaced (segmentDuration last : Q) (times : list Q) : Prop :=
  match times with
  | [] => True
  | currentTime :: rest =>
      binary64 currentTime
      /\ segmentDuration <= currentTime - last
      /\ spaced segmentDuration currentTime rest
  end.

(** The first three segments of the small track were played to their
    end; then the segment duration is raised to 0.5 s, which leaves two
    segments. *)
Definition three_played : Manager :=
  match happenAll (rounds 0 [1; 2; 3]) small_track with
  | Some m => m
  | None => small_track
  end.

Definition fewer_segments : Manager := setSegmentDuration 0.5 three_played.

(** A segment of the small track is playing. *)
Definition now_playing : Manager := playNextSegment 1 small_track.

(** The files [files] handed to [processAudioFile] one after the
    other. *)
Definition processAll (files : list File) (m : Manager) : Manager :=
  fold_left (fun st file => fst (processAudioFile file st)) files m.

End AudioManager.

(** * Properties of the simulation *)

Module SimulationProps.
Import JSNum CircleSimulation.
Local Open Scope R_scope.

(** ** Facts about [num] *)

(** Settles the comparisons of reals a goal or a hypothesis branches on. *)
Ltac decide_reals :=
  repeat match goal with
         | |- context [Rlt_dec ?a ?b] => destruct (Rlt_dec a b)
         | |- context [Rle_dec ?a ?b] => destruct (Rle_dec a b)
         | |- context [Req_dec_T ?a ?b] => destruct (Req_dec_T a b)
         | H : context [Rlt_dec ?a ?b] |- _ => destruct (Rlt_dec a b)
         | H : context [Rle_dec ?a ?b] |- _ => destruct (Rle_dec a b)
         | H : context [Req_dec_T ?a ?b] |- _ => destruct (Req_dec_T a b)
         end.

Ltac num_cases :=
  repeat (progress (simpl in *; unfold inf_times in *; decide_reals));
  try discriminate; try reflexivity; try contradiction; try lra; try tauto.

Lemma nle_Fin (a b : R) : nle (Fin a) (Fin b) = true <-> a <= b.
Proof. simpl. destruct (Rle_dec a b); split; intros; try discriminate; auto; lra. Qed.

Lemma nle_refl (x : num) : nle x x = true <-> ~ is_nan x.
Proof.
  destruct x as [a| | |]; simpl;
    [destruct (Rle_dec a a); intuition lra | | | ];
    intuition (try discriminate; auto).
Qed.

Lemma nle_not_nan (x y : num) : nle x y = true -> ~ is_nan x /\ ~ is_nan y.
Proof. destruct x, y; simpl; intuition discriminate. Qed.

Lemma nlt_nle (x y : num) : nlt x y = true -> nle x y = true.
Proof. destruct x, y; num_cases. Qed.

Lemma nle_trans (x y z : num) :
  nle x y = true -> nle y z = true -> nle x z = true.
Proof. destruct x, y, z; num_cases. Qed.

Lemma nle_nmin (x y z : num) :
  nle x y = true -> nle x z = true -> nle x (nmin y z) = true.
Proof.
  intros Hy Hz. destruct y, z; simpl in *; try discriminate; auto;
    try (destruct (Rlt_dec _ _); auto).
Qed.

Lemma nmin_le_r (y z : num) :
  ~ is_nan y -> ~ is_nan z -> nle (nmin y z) z = true.
Proof. destruct y, z; simpl; intros; try tauto; num_cases. Qed.

Lemma nmul_ge_1 (x g : num) :
  nlt (Fin 0) x = true -> nle (Fin 1) g = true -> nle x (nmul x g) = true.
Proof.
  destruct x, g; num_cases.
  match goal with H : ~ _ <= _ |- _ => exfalso; apply H; nra end.
Qed.

Lemma ndiv_Fin (a b : R) : b <> 0 -> ndiv (Fin a) (Fin b) = Fin (a / b).
Proof. intros. simpl. destruct (Req_dec_T b 0); [contradiction | reflexivity]. Qed.

Lemma nsqrt_Fin (a : R) : 0 <= a -> nsqrt (Fin a) = Fin (sqrt a).
Proof. intros. simpl. destruct (Rlt_dec a 0); [lra | reflexivity]. Qed.

Lemma sqrt_le_bound (x r : R) : 0 <= r -> x <= r * r -> sqrt x <= r.
Proof.
  intros Hr Hx. rewrite <- (sqrt_square r Hr).
  destruct (Rle_dec 0 x) as [H0 | H0].
  - apply sqrt_le_1_alt. exact Hx.
  - rewrite sqrt_neg_0 by lra. apply sqrt_pos.
Qed.

Lemma sqrt_lt_bound (x r : R) : 0 < r -> x < r * r -> sqrt x < r.
Proof.
  intros Hr Hx.
  destruct (Rle_dec 0 x) as [H0 | H0].
  - rewrite <- (sqrt_square r) by lra. apply sqrt_lt_1_alt. lra.
  - rewrite sqrt_neg_0 by lra. exact Hr.
Qed.

Lemma sqrt_sum_squares_zero (a b : R) :
  sqrt (a * a + b * b) = 0 -> a = 0 /\ b = 0.
Proof.
  intro H. apply sqrt_eq_0 in H; [| nra]. split; nra.
Qed.

(** ** The simulation of the application *)

(** The geometry of a canvas, from its smaller side. *)
Lemma geometry_of_canvas_portrait (width height : N) :
  (width <= height)%N ->
  geometry_of_canvas width height
  = mkGeometry (Fin (IZR (Z.of_N width))) (Fin (IZR (Z.of_N height)))
               (Fin (IZR (Z.of_N width) / 2 + - 125))
               (Fin ((IZR (Z.of_N width) / 2 + - 125) * 1.5)).
Proof.
  intro Hle. apply N2Z.inj_le in Hle. apply IZR_le in Hle.
  unfold geometry_of_canvas. cbn [nmin nlt].
  destruct (Rlt_dec (IZR (Z.of_N height)) (IZR (Z.of_N width))); [lra |].
  cbn. destruct (Req_dec_T 2 0); [lra | reflexivity].
Qed.

(** The canvas of the application, 1080 by 1920, gives a boundary radius
    of 415 and a maximum ball radius of 622.5, above the initial radius. *)
Lemma application_geometry :
  CIRCLE_RADIUS (geometry_of_canvas 1080 1920) = Fin 415
  /\ MAX_BALL_RADIUS (geometry_of_canvas 1080 1920) = Fin 622.5
  /\ nle INITIAL_BALL_RADIUS (MAX_BALL_RADIUS (geometry_of_canvas 1080 1920))
     = true.
Proof.
  rewrite geometry_of_canvas_portrait by lia.
  cbn [CIRCLE_RADIUS MAX_BALL_RADIUS Z.of_N].
  repeat split; try (f_equal; lra).
  apply nle_Fin. lra.
Qed.

Lemma app_sim_geom :
  geom app_sim = mkGeometry (Fin 1080) (Fin 1920) (Fin 415) (Fin 622.5).
Proof.
  unfold app_sim, construct, reset.
  cbn [geom set_loop set_trails set_ball].
  rewrite geometry_of_canvas_portrait by lia. cbn [Z.of_N].
  f_equal; f_equal; lra.
Qed.

Lemma app_sim_ball :
  ball app_sim
  = mkBall (Fin 5) (Fin 540, Fin (1920 / 2.7)) (Fin 0.8, Fin 0.8).
Proof.
  unfold app_sim, construct, reset.
  cbn [ball set_loop set_trails set_ball geom WIDTH HEIGHT
       geometry_of_canvas Z.of_N].
  rewrite !ndiv_Fin by lra. unfold INITIAL_BALL_RADIUS.
  f_equal. f_equal. f_equal. lra.
Qed.

Lemma weightless_geom :
  geom weightless = mkGeometry (Fin 1080) (Fin 1920) (Fin 415) (Fin 622.5).
Proof. exact app_sim_geom. Qed.

Lemma weightless_ball :
  ball weightless
  = mkBall (Fin 5) (Fin 540, Fin (1920 / 2.7)) (Fin 0.8, Fin 0.8).
Proof. exact app_sim_ball. Qed.

Lemma weightless_tuning :
  tuning weightless = mkTuning (Fin 0) (Fin 1.02) (Fin 0.9995) (Fin 1.015).
Proof. reflexivity. Qed.

(** ** Tuning setters *)

(** C10.  [setVelocityIncrease(v)] and [setBallGrowthRate(v)] store
    [1 + v], which is at least 1 for every non-negative [v];
    [setGravity(v)] and [setVelocityDecay(v)] store [v] itself. *)
Theorem setters_store (v : num) (s : Sim) :
  VELOCITY_INCREASE_FACTOR (tuning (setVelocityIncrease v s)) = nadd (Fin 1) v
  /\ BALL_GROWTH_RATE (tuning (setBallGrowthRate v s)) = nadd (Fin 1) v
  /\ GRAVITY (tuning (setGravity v s)) = v
  /\ VELOCITY_DECAY (tuning (setVelocityDecay v s)) = v
  /\ (nge v (Fin 0) = true ->
      nge (VELOCITY_INCREASE_FACTOR (tuning (setVelocityIncrease v s)))
          (Fin 1) = true
      /\ nge (BALL_GROWTH_RATE (tuning (setBallGrowthRate v s))) (Fin 1)
         = true).
Proof.
  do 4 (split; [reflexivity |]). unfold nge. intro Hv.
  assert (H1 : nle (Fin 1) (nadd (Fin 1) v) = true) by (destruct v; num_cases).
  split; exact H1.
Qed.

(** The default of the velocity slider, 0.02, gives the factor 1.02. *)
Lemma setters_store_witness :
  nge (Fin 0.02) (Fin 0) = true
  /\ nge (VELOCITY_INCREASE_FACTOR
            (tuning (setVelocityIncrease (Fin 0.02) app_sim))) (Fin 1) = true.
Proof.
  assert (H : nge (Fin 0.02) (Fin 0) = true) by (apply nle_Fin; lra).
  split; [exact H |].
  exact (proj1 (proj2 (proj2 (proj2 (proj2
           (setters_store (Fin 0.02) app_sim)))) H)).
Defined.

(** ** The radius *)

Lemma update_geom (now : num) (s : Sim) : geom (update now s) = geom s.
Proof.
  unfold update. destruct (colliding _ _); [destruct (onCollision _) |];
    reflexivity.
Qed.

Lemma update_tuning (now : num) (s : Sim) : tuning (update now s) = tuning s.
Proof.
  unfold update. destruct (colliding _ _); [destruct (onCollision _) |];
    reflexivity.
Qed.

Lemma update_radius (now : num) (s : Sim) :
  ballRadius (ball (update now s))
  = if colliding (geom s) (integrate (tuning s) (ball s))
    then grow (geom s) (tuning s) (ballRadius (ball s))
    else ballRadius (ball s).
Proof.
  unfold update. simpl. destruct (colliding _ _); [destruct (onCollision _) |];
    reflexivity.
Qed.

Lemma ticks_geom (nows : list num) (s : Sim) : geom (ticks nows s) = geom s.
Proof.
  revert s. induction nows as [|now rest IH]; intro s; [reflexivity |].
  simpl. unfold ticks in IH. rewrite IH. apply update_geom.
Qed.

Lemma ticks_tuning (nows : list num) (s : Sim) :
  tuning (ticks nows s) = tuning s.
Proof.
  revert s. induction nows as [|now rest IH]; intro s; [reflexivity |].
  simpl. unfold ticks in IH. rewrite IH. apply update_tuning.
Qed.

(** Growth never shrinks a radius that is at least the initial one. *)
Lemma grow_increases (g : Geometry) (t : Tuning) (r : num) :
  nle INITIAL_BALL_RADIUS r = true ->
  nle (Fin 1) (BALL_GROWTH_RATE t) = true ->
  nle r (grow g t r) = true.
Proof.
  intros Hr Hg. unfold grow.
  destruct (nlt r (MAX_BALL_RADIUS g)) eqn:Hlt.
  - apply nle_nmin.
    + apply nmul_ge_1; [| exact Hg].
      unfold INITIAL_BALL_RADIUS in Hr. destruct r; num_cases.
    + apply nlt_nle; exact Hlt.
  - apply nle_refl. apply (nle_not_nan _ _ Hr).
Qed.

(** Growth stops at the maximum. *)
Lemma grow_clamped (g : Geometry) (t : Tuning) (r : num) :
  nle INITIAL_BALL_RADIUS r = true ->
  nle (Fin 1) (BALL_GROWTH_RATE t) = true ->
  nle r (MAX_BALL_RADIUS g) = true ->
  nle (grow g t r) (MAX_BALL_RADIUS g) = true.
Proof.
  intros Hr Hg Hmax. unfold grow.
  destruct (nlt r (MAX_BALL_RADIUS g)) eqn:Hlt; [| exact Hmax].
  apply nmin_le_r; [| apply (nle_not_nan _ _ Hmax)].
  apply (nle_not_nan r).
  apply nmul_ge_1; [| exact Hg].
  unfold INITIAL_BALL_RADIUS in Hr. destruct r; num_cases.
Qed.

Lemma update_radius_grows (now : num) (s : Sim) :
  nle INITIAL_BALL_RADIUS (ballRadius (ball s)) = true ->
  nle (Fin 1) (BALL_GROWTH_RATE (tuning s)) = true ->
  nle (ballRadius (ball s)) (ballRadius (ball (update now s))) = true.
Proof.
  intros Hr Hg. rewrite update_radius.
  destruct (colliding _ _).
  - apply grow_increases; assumption.
  - apply nle_refl. apply (nle_not_nan _ _ Hr).
Qed.

Lemma update_radius_ok (now : num) (s : Sim) :
  nle (Fin 1) (BALL_GROWTH_RATE (tuning s)) = true ->
  radius_ok s -> radius_ok (update now s).
Proof.
  intros Hg [Hlo Hhi]. split.
  - apply (nle_trans _ _ _ Hlo). apply update_radius_grows; assumption.
  - rewrite update_geom. intro Hmax. specialize (Hhi Hmax).
    rewrite update_radius. destruct (colliding _ _); [| exact Hhi].
    apply grow_clamped; assumption.
Qed.

Lemma ticks_radius_ok (nows : list num) (s : Sim) :
  nle (Fin 1) (BALL_GROWTH_RATE (tuning s)) = true ->
  radius_ok s -> radius_ok (ticks nows s).
Proof.
  revert s. induction nows as [|now rest IH]; intros s Hg Hok; [exact Hok |].
  simpl. apply IH.
  - rewrite update_tuning. exact Hg.
  - apply update_radius_ok; assumption.
Qed.

(** C1.  On the canvas of the application, with a growth factor of at
    least 1: from a state whose radius lies between the initial radius
    and the maximum radius, as the state the constructor builds does,
    after any run of ticks the radius still lies between them, and the
    next tick does not decrease it.  The maximum radius is the boundary
    radius times 1.5, there 622.5. *)
Theorem radius_monotone_bounded (s : Sim) (nows : list num) (now : num)
    (Hcanvas : geom s = geometry_of_canvas 1080 1920)
    (Hlow : nle INITIAL_BALL_RADIUS (ballRadius (ball s)) = true)
    (Hhigh : nle (ballRadius (ball s)) (MAX_BALL_RADIUS (geom s)) = true)
    (Hgrowth : nge (BALL_GROWTH_RATE (tuning s)) (Fin 1) = true) :
  let s' := ticks nows s in
  nle INITIAL_BALL_RADIUS (ballRadius (ball s')) = true
  /\ nle (ballRadius (ball s')) (MAX_BALL_RADIUS (geom s')) = true
  /\ nle (ballRadius (ball s')) (ballRadius (ball (update now s'))) = true
  /\ MAX_BALL_RADIUS (geom s') = nmul (CIRCLE_RADIUS (geom s')) (Fin 1.5)
  /\ MAX_BALL_RADIUS (geom s') = Fin 622.5.
Proof.
  intro s'. unfold nge in Hgrowth.
  assert (Hmax : nle INITIAL_BALL_RADIUS (MAX_BALL_RADIUS (geom s)) = true).
  { rewrite Hcanvas. apply application_geometry. }
  assert (Hok : radius_ok s').
  { apply ticks_radius_ok; [exact Hgrowth |].
    split; [exact Hlow | intros _; exact Hhigh]. }
  destruct Hok as [Hlo Hhi]. unfold s' in *. rewrite ticks_geom in *.
  split; [exact Hlo |]. split; [exact (Hhi Hmax) |]. split.
  - apply update_radius_grows; [exact Hlo |].
    rewrite ticks_tuning. exact Hgrowth.
  - rewrite Hcanvas. split; [reflexivity | apply application_geometry].
Qed.

(** The simulation as the application builds it, and two ticks. *)
Lemma radius_monotone_bounded_witness :
  geom app_sim = geometry_of_canvas 1080 1920
  /\ nle INITIAL_BALL_RADIUS (ballRadius (ball app_sim)) = true
  /\ nle (ballRadius (ball app_sim)) (MAX_BALL_RADIUS (geom app_sim)) = true
  /\ nge (BALL_GROWTH_RATE (tuning app_sim)) (Fin 1) = true
  /\ nle (ballRadius (ball (ticks [Fin 16; Fin 33] app_sim)))
         (MAX_BALL_RADIUS (geom (ticks [Fin 16; Fin 33] app_sim))) = true.
Proof.
  assert (H0 : geom app_sim = geometry_of_canvas 1080 1920) by reflexivity.
  assert (H1 : nle INITIAL_BALL_RADIUS (ballRadius (ball app_sim)) = true).
  { apply nle_Fin. lra. }
  assert (H2 : nle (ballRadius (ball app_sim)) (MAX_BALL_RADIUS (geom app_sim))
               = true).
  { rewrite app_sim_geom. apply nle_Fin. lra. }
  assert (H3 : nge (BALL_GROWTH_RATE (tuning app_sim)) (Fin 1) = true).
  { unfold nge. simpl. destruct (Rle_dec 1 1.015); [reflexivity | lra]. }
  split; [exact H0 | split; [exact H1 | split; [exact H2 | split]]];
    [exact H3 |].
  exact (proj1 (proj2 (radius_monotone_bounded app_sim [Fin 16; Fin 33]
                         (Fin 50) H0 H1 H2 H3))).
Defined.

(** ** The ball after a tick *)

Lemma update_ball (now : num) (s : Sim) :
  ball (update now s)
  = if colliding (geom s) (integrate (tuning s) (ball s))
    then collide (geom s) (tuning s) (integrate (tuning s) (ball s))
    else integrate (tuning s) (ball s).
Proof.
  unfold update. simpl. destruct (colliding _ _); [destruct (onCollision _) |];
    reflexivity.
Qed.

Lemma norm_Fin (a b : R) : norm (Fin a, Fin b) = Fin (sqrt (a * a + b * b)).
Proof.
  unfold norm. cbn [fst snd nmul nadd]. apply nsqrt_Fin. nra.
Qed.

Lemma speed_Fin (a b : R) : speed (Fin a, Fin b) = Fin (sqrt (a * a + b * b)).
Proof.
  unfold speed, nsquare. cbn [fst snd nmul nadd]. apply nsqrt_Fin. nra.
Qed.

Lemma app_running_ball :
  ball app_running
  = if colliding (geom app_sim) (integrate (tuning app_sim) (ball app_sim))
    then collide (geom app_sim) (tuning app_sim)
                 (integrate (tuning app_sim) (ball app_sim))
    else integrate (tuning app_sim) (ball app_sim).
Proof.
  unfold app_running, start. cbn [running loop app_sim construct reset set_loop].
  unfold animate. cbn [running loop set_loop].
  unfold requestAnimationFrame, draw. cbn [ball set_loop set_frames emit].
  rewrite update_ball. reflexivity.
Qed.

(** The first tick of the application moves the ball without a
    collision. *)
Lemma app_running_ball_value :
  ball app_running
  = mkBall (Fin 5)
           (Fin (1080 / 2 + 0.8 * 0.9995),
            Fin (1920 / 2.7 + (0.8 + 0.4) * 0.9995))
           (Fin (0.8 * 0.9995), Fin ((0.8 + 0.4) * 0.9995)).
Proof.
  rewrite app_running_ball.
  pose proof app_sim_geom as Hg.
  assert (Hb : integrate (tuning app_sim) (ball app_sim)
               = mkBall (Fin 5)
                   (Fin (1080 / 2 + 0.8 * 0.9995),
                    Fin (1920 / 2.7 + (0.8 + 0.4) * 0.9995))
                   (Fin (0.8 * 0.9995), Fin ((0.8 + 0.4) * 0.9995))).
  { unfold app_sim, construct, reset, integrate, default_tuning.
    cbn [tuning ball set_ball set_trails set_loop geom WIDTH HEIGHT
         geometry_of_canvas ballRadius ballCenter ballVelocity fst snd
         GRAVITY VELOCITY_DECAY Z.of_N].
    rewrite !ndiv_Fin by lra. reflexivity. }
  rewrite Hb, Hg.
  replace (colliding _ _) with false; [reflexivity |].
  symmetry. unfold colliding, offset, circleCenter, nge.
  cbn [WIDTH HEIGHT CIRCLE_RADIUS ballCenter ballRadius fst snd].
  rewrite !ndiv_Fin by lra. cbn [nsub nadd nneg]. rewrite norm_Fin.
  cbn [nle]. destruct (Rle_dec _ _) as [Hle | Hle]; [| reflexivity].
  exfalso. apply (Rle_not_lt _ _ Hle). apply sqrt_lt_bound; lra.
Qed.

(** ** Drag interaction *)

Lemma handleMouseDown_hit (x y : num) (s : Sim) :
  nle (norm (nsub x (fst (ballCenter (ball s))),
             nsub y (snd (ballCenter (ball s)))))
      (ballRadius (ball s)) = true ->
  handleMouseDown x y s = stop (set_dragging s true).
Proof. intro H. unfold handleMouseDown. rewrite H. reflexivity. Qed.

Lemma handleMouseDown_physics (x y : num) (s : Sim) :
  ball (handleMouseDown x y s) = ball s
  /\ tuning (handleMouseDown x y s) = tuning s
  /\ geom (handleMouseDown x y s) = geom s.
Proof.
  unfold handleMouseDown. destruct (nle _ _); repeat split; reflexivity.
Qed.

Lemma handleMouseMove_dragging (x y : num) (s : Sim) :
  isDragging (loop s) = true ->
  handleMouseMove x y s
  = draw (set_ball s (mkBall (ballRadius (ball s)) (x, y) (Fin 0, Fin 0))).
Proof. intro H. unfold handleMouseMove. rewrite H. reflexivity. Qed.

Lemma handleMouseUp_dragging (now : num) (s : Sim) :
  isDragging (loop s) = true ->
  ball (handleMouseUp now s)
  = if colliding (geom s) (integrate (tuning s) (ball s))
    then collide (geom s) (tuning s) (integrate (tuning s) (ball s))
    else integrate (tuning s) (ball s).
Proof.
  intro H. unfold handleMouseUp. rewrite H. unfold start, animate.
  cbn [loop set_loop set_dragging running].
  unfold requestAnimationFrame, draw. cbn [ball set_loop set_frames emit].
  rewrite update_ball. reflexivity.
Qed.

Lemma cancel_removes (id : nat) (l : list nat) :
  ~ In id (filter (fun i => negb (Nat.eqb i id)) l).
Proof.
  intro H. apply filter_In in H. destruct H as [_ H].
  rewrite Nat.eqb_refl in H. discriminate.
Qed.

(** C9, as amended.  A press within the radius of the ball center sets
    the dragging flag and halts the scheduler: the simulation stops
    running, the requested frame is cancelled and [animate] does nothing;
    the ball, its velocity included, is left as it is.  While dragging, a
    pointer move puts the ball center at the pointer, zeroes the
    velocity and draws once; the trails, the clock and the rest of the
    state are untouched, so no physics tick takes place. *)
Theorem drag_press_and_move (x y : num) (s : Sim) (px py : num) (d : Sim)
    (Hhit : nle (norm (nsub x (fst (ballCenter (ball s))),
                       nsub y (snd (ballCenter (ball s)))))
                (ballRadius (ball s)) = true)
    (Hdrag : isDragging (loop d) = true) :
  (isDragging (loop (handleMouseDown x y s)) = true
   /\ running (loop (handleMouseDown x y s)) = false
   /\ ~ In (animationId (loop s)) (scheduled (handleMouseDown x y s))
   /\ (forall now, animate now (handleMouseDown x y s)
                   = handleMouseDown x y s)
   /\ ball (handleMouseDown x y s) = ball s)
  /\ (ballCenter (ball (handleMouseMove px py d)) = (px, py)
      /\ ballVelocity (ball (handleMouseMove px py d)) = (Fin 0, Fin 0)
      /\ ballRadius (ball (handleMouseMove px py d)) = ballRadius (ball d)
      /\ log (handleMouseMove px py d)
         = log d ++ [Draw (px, py) (ballRadius (ball d))]
      /\ trails (handleMouseMove px py d) = trails d
      /\ loop (handleMouseMove px py d) = loop d
      /\ tuning (handleMouseMove px py d) = tuning d
      /\ scheduled (handleMouseMove px py d) = scheduled d).
Proof.
  split.
  - rewrite (handleMouseDown_hit x y s Hhit).
    repeat split; try reflexivity.
    unfold stop, cancelAnimationFrame.
    cbn [scheduled set_frames set_loop set_dragging loop animationId].
    apply cancel_removes.
  - rewrite (handleMouseMove_dragging px py d Hdrag).
    repeat split; reflexivity.
Qed.

Lemma press_on_running_hits :
  nle (norm (nsub (Fin 541) (fst (ballCenter (ball app_running))),
             nsub (Fin 712) (snd (ballCenter (ball app_running)))))
      (ballRadius (ball app_running)) = true.
Proof.
  rewrite app_running_ball_value.
  cbn [ballCenter ballRadius fst snd nsub nadd nneg]. rewrite norm_Fin.
  apply nle_Fin. apply sqrt_le_bound; lra.
Qed.

(** A press on the ball of the running simulation, then a move. *)
Lemma drag_press_and_move_witness :
  nle (norm (nsub (Fin 541) (fst (ballCenter (ball app_running))),
             nsub (Fin 712) (snd (ballCenter (ball app_running)))))
      (ballRadius (ball app_running)) = true
  /\ isDragging (loop (handleMouseDown (Fin 541) (Fin 712) app_running))
     = true
  /\ ballVelocity
       (ball (handleMouseMove (Fin 600) (Fin 800)
                (handleMouseDown (Fin 541) (Fin 712) app_running)))
     = (Fin 0, Fin 0).
Proof.
  pose proof press_on_running_hits as Hhit.
  assert (Hdrag : isDragging
                    (loop (handleMouseDown (Fin 541) (Fin 712) app_running))
                  = true).
  { rewrite (handleMouseDown_hit _ _ _ Hhit). reflexivity. }
  split; [exact Hhit | split; [exact Hdrag |]].
  exact (proj1 (proj2 (proj2
           (drag_press_and_move (Fin 541) (Fin 712) app_running
              (Fin 600) (Fin 800) _ Hhit Hdrag)))).
Defined.

(** C9, the claim as stated fails.  A press on the ball of the running
    simulation enters the dragging state and halts the scheduler, but
    the velocity is not zeroed: it is still the one of the last tick. *)
Lemma press_keeps_velocity :
  isDragging (loop (handleMouseDown (Fin 541) (Fin 712) app_running)) = true
  /\ running (loop (handleMouseDown (Fin 541) (Fin 712) app_running)) = false
  /\ ballVelocity (ball (handleMouseDown (Fin 541) (Fin 712) app_running))
     = (Fin (0.8 * 0.9995), Fin ((0.8 + 0.4) * 0.9995))
  /\ ballVelocity (ball (handleMouseDown (Fin 541) (Fin 712) app_running))
     <> (Fin 0, Fin 0).
Proof.
  destruct (handleMouseDown_physics (Fin 541) (Fin 712) app_running)
    as (Hb & _).
  rewrite Hb, app_running_ball_value. cbn [ballVelocity].
  rewrite (handleMouseDown_hit _ _ _ press_on_running_hits).
  repeat split. intro H. injection H. intros. lra.
Qed.

(** ** The velocity after a collision *)

(** At rest the floor divides by zero: the scale is [Infinity] and both
    components become [0 * Infinity]. *)
Lemma ensureMinVelocity_at_rest (a b : R) :
  a = 0 -> b = 0 -> ensureMinVelocity (Fin a, Fin b) = (NaN, NaN).
Proof.
  intros -> ->. unfold ensureMinVelocity. rewrite speed_Fin.
  replace (0 * 0 + 0 * 0) with 0 by lra. rewrite sqrt_0.
  unfold minVelocity. cbn [nlt]. destruct (Rlt_dec 0 1.0); [| lra].
  cbn [ndiv fst snd]. destruct (Req_dec_T 0 0); [| lra].
  destruct (Req_dec_T 1.0 0); [lra |]. destruct (Rlt_dec 0 1.0); [| lra].
  cbn [nmul]. unfold inf_times. destruct (Req_dec_T 0 0); [reflexivity | lra].
Qed.

Lemma reflect_Fin (vx vy dx dy : R) :
  sqrt (dx * dx + dy * dy) <> 0 ->
  reflect (Fin vx, Fin vy) (Fin dx, Fin dy)
  = (Fin ((vx + - (2 * (vx * (dx / sqrt (dx * dx + dy * dy))
                        + vy * (dy / sqrt (dx * dx + dy * dy)))
                   * (dx / sqrt (dx * dx + dy * dy)))) * 0.95),
     Fin ((vy + - (2 * (vx * (dx / sqrt (dx * dx + dy * dy))
                        + vy * (dy / sqrt (dx * dx + dy * dy)))
                   * (dy / sqrt (dx * dx + dy * dy)))) * 0.95)).
Proof.
  intro Hc. unfold reflect. rewrite norm_Fin. cbn [fst snd].
  rewrite !ndiv_Fin by exact Hc. reflexivity.
Qed.

(** The reflection keeps the speed, up to the restitution. *)
Lemma reflect_squares (vx vy nx ny : R) :
  nx * nx + ny * ny = 1 ->
  (vx + - (2 * (vx * nx + vy * ny) * nx)) * (95 / 100)
  * ((vx + - (2 * (vx * nx + vy * ny) * nx)) * (95 / 100))
  + (vy + - (2 * (vx * nx + vy * ny) * ny)) * (95 / 100)
    * ((vy + - (2 * (vx * nx + vy * ny) * ny)) * (95 / 100))
  = 95 / 100 * (95 / 100) * (vx * vx + vy * vy).
Proof.
  intro Hn.
  replace ((vx + - (2 * (vx * nx + vy * ny) * nx)) * (95 / 100)
           * ((vx + - (2 * (vx * nx + vy * ny) * nx)) * (95 / 100))
           + (vy + - (2 * (vx * nx + vy * ny) * ny)) * (95 / 100)
             * ((vy + - (2 * (vx * nx + vy * ny) * ny)) * (95 / 100)))
    with (95 / 100 * (95 / 100)
          * (vx * vx + vy * vy
             + 4 * (vx * nx + vy * ny) * (vx * nx + vy * ny)
               * (nx * nx + ny * ny - 1)))
    by field.
  rewrite Hn. field.
Qed.

Lemma unit_normal (dx dy : R) :
  sqrt (dx * dx + dy * dy) <> 0 ->
  dx / sqrt (dx * dx + dy * dy) * (dx / sqrt (dx * dx + dy * dy))
  + dy / sqrt (dx * dx + dy * dy) * (dy / sqrt (dx * dx + dy * dy)) = 1.
Proof.
  intro Hc. set (c := sqrt (dx * dx + dy * dy)) in *.
  assert (Hcc : c * c = dx * dx + dy * dy) by (apply sqrt_sqrt; nra).
  replace (dx / c * (dx / c) + dy / c * (dy / c))
    with ((dx * dx + dy * dy) / (c * c)) by (field; exact Hc).
  rewrite <- Hcc. field. exact Hc.
Qed.

(** Reflection and boost of a finite velocity about a finite, non-zero
    offset: the result is finite and vanishes only if the velocity or
    the factor does. *)
Lemma boost_reflect_Fin (t : Tuning) (k vx vy dx dy : R) :
  VELOCITY_INCREASE_FACTOR t = Fin k ->
  ~ (dx = 0 /\ dy = 0) ->
  exists x y : R,
    boost t (reflect (Fin vx, Fin vy) (Fin dx, Fin dy)) = (Fin x, Fin y)
    /\ x * x + y * y
       = k * k * (95 / 100 * (95 / 100)) * (vx * vx + vy * vy).
Proof.
  intros Hk Hd.
  assert (Hc : sqrt (dx * dx + dy * dy) <> 0).
  { intro H. apply Hd. apply sqrt_sum_squares_zero. exact H. }
  rewrite reflect_Fin by exact Hc. unfold boost. rewrite Hk. cbn [fst snd nmul].
  eexists. eexists. split; [reflexivity |].
  pose proof (reflect_squares vx vy _ _ (unit_normal dx dy Hc)) as Hsq.
  assert (H95 : 0.95 = 95 / 100) by lra. rewrite !H95.
  set (nx := dx / sqrt (dx * dx + dy * dy)) in *.
  set (ny := dy / sqrt (dx * dx + dy * dy)) in *.
  set (x := (vx + - (2 * (vx * nx + vy * ny) * nx)) * (95 / 100)) in *.
  set (y := (vy + - (2 * (vx * nx + vy * ny) * ny)) * (95 / 100)) in *.
  replace (x * k * (x * k) + y * k * (y * k)) with (k * k * (x * x + y * y))
    by ring.
  rewrite Hsq. ring.
Qed.

(** At rest the collision branch yields no velocity at all. *)
Lemma resolveVelocity_at_rest (t : Tuning) (k vx vy dx dy : R) :
  VELOCITY_INCREASE_FACTOR t = Fin k ->
  vx = 0 -> vy = 0 ->
  ~ (dx = 0 /\ dy = 0) ->
  resolveVelocity t (Fin vx, Fin vy) (Fin dx, Fin dy) = (NaN, NaN).
Proof.
  intros Hk Hx Hy Hd.
  destruct (boost_reflect_Fin t k vx vy dx dy Hk Hd) as (x & y & Hb & Hsq).
  unfold resolveVelocity. rewrite Hb. subst vx vy.
  apply ensureMinVelocity_at_rest; nra.
Qed.

(** C2, the failing input.  With the gravity slider at 0, a ball dragged
    onto the boundary and released is at rest when it collides: "Ensure
    minimum velocity" divides by its zero speed and the velocity becomes
    [(NaN, NaN)], whose magnitude is not at least 1. *)
Theorem released_at_rest_velocity :
  ballVelocity (ball released_at_rest) = (NaN, NaN)
  /\ nge (speed (ballVelocity (ball released_at_rest))) minVelocity = false.
Proof.
  assert (Hv : ballVelocity (ball released_at_rest) = (NaN, NaN)).
  { unfold released_at_rest.
    set (s0 := weightless).
    assert (Hdown : handleMouseDown (Fin 540) (Fin 711) s0
                    = stop (set_dragging s0 true)).
    { apply handleMouseDown_hit. unfold s0. rewrite weightless_ball.
      cbn [ballCenter ballRadius fst snd nsub nadd nneg].
      rewrite norm_Fin. apply nle_Fin. apply sqrt_le_bound; lra. }
    rewrite Hdown.
    rewrite handleMouseMove_dragging by reflexivity.
    rewrite handleMouseUp_dragging by reflexivity.
    cbn [geom tuning ball draw emit set_ball stop cancelAnimationFrame
         set_frames set_loop set_dragging ballRadius].
    fold s0. unfold s0.
    rewrite weightless_geom, weightless_tuning, weightless_ball.
    cbn [ballRadius].
    assert (Hb : integrate (mkTuning (Fin 0) (Fin 1.02) (Fin 0.9995)
                                     (Fin 1.015))
                           (mkBall (Fin 5) (Fin 950, Fin 960) (Fin 0, Fin 0))
                 = mkBall (Fin 5) (Fin 950, Fin 960) (Fin 0, Fin 0)).
    { unfold integrate.
      cbn [ballRadius ballCenter ballVelocity fst snd GRAVITY VELOCITY_DECAY
           nadd nmul].
      f_equal; f_equal; f_equal; lra. }
    rewrite Hb.
    assert (Hcol : colliding (mkGeometry (Fin 1080) (Fin 1920) (Fin 415)
                                         (Fin 622.5))
                             (mkBall (Fin 5) (Fin 950, Fin 960)
                                     (Fin 0, Fin 0)) = true).
    { unfold colliding, offset, circleCenter.
      cbn [WIDTH HEIGHT CIRCLE_RADIUS ballCenter ballRadius fst snd].
      rewrite !ndiv_Fin by lra. cbn [nsub nadd nneg]. rewrite norm_Fin.
      unfold nge. apply nle_Fin.
      replace ((950 + - (1080 / 2)) * (950 + - (1080 / 2))
               + (960 + - (1920 / 2)) * (960 + - (1920 / 2)))
        with (410 * 410) by lra.
      rewrite sqrt_square; lra. }
    rewrite Hcol. unfold collide, offset, circleCenter.
    cbn [WIDTH HEIGHT ballCenter ballVelocity fst snd].
    rewrite !ndiv_Fin by lra. cbn [nsub nadd nneg].
    apply (resolveVelocity_at_rest _ 1.02); try reflexivity. lra. }
  split; [exact Hv |]. rewrite Hv. reflexivity.
Qed.

(** ** A collision at the boundary center *)

(** A collision at the boundary center has no unit normal: the
    reflection divides zero by zero. *)
Lemma reflect_at_center (v : vec) (a b : R) :
  a = 0 -> b = 0 -> reflect v (Fin a, Fin b) = (NaN, NaN).
Proof.
  intros -> ->. unfold reflect. rewrite norm_Fin.
  replace (0 * 0 + 0 * 0) with 0 by lra. rewrite sqrt_0.
  cbn [fst snd ndiv]. destruct (Req_dec_T 0 0); [| lra].
  destruct v as [[x| | |] [y| | |]]; reflexivity.
Qed.

Lemma resolveVelocity_at_center (t : Tuning) (v : vec) (a b : R) :
  a = 0 -> b = 0 -> resolveVelocity t v (Fin a, Fin b) = (NaN, NaN).
Proof.
  intros Ha Hb. unfold resolveVelocity. rewrite reflect_at_center by assumption.
  reflexivity.
Qed.

(** C7, the claim as stated fails.  When a tick puts the center of a
    colliding ball exactly on the boundary center, the unit normal is
    zero over zero: no guard intervenes and the tick leaves the velocity
    [(NaN, NaN)]. *)
Lemma zero_distance_collision_not_guarded :
  norm (offset (geom resting_at_center)
               (integrate (tuning resting_at_center)
                          (ball resting_at_center))) = Fin 0
  /\ colliding (geom resting_at_center)
               (integrate (tuning resting_at_center)
                          (ball resting_at_center)) = true
  /\ ballVelocity (ball (update (Fin 16) resting_at_center)) = (NaN, NaN).
Proof.
  assert (Hb : integrate (tuning resting_at_center) (ball resting_at_center)
               = mkBall (Fin 500) (Fin 540, Fin 960) (Fin 0, Fin 0)).
  { unfold resting_at_center, integrate.
    cbn [tuning ball set_ball ballRadius ballCenter ballVelocity fst snd].
    rewrite weightless_tuning. cbn [GRAVITY VELOCITY_DECAY nadd nmul].
    f_equal; f_equal; f_equal; lra. }
  assert (Hg : geom resting_at_center
               = mkGeometry (Fin 1080) (Fin 1920) (Fin 415) (Fin 622.5)).
  { unfold resting_at_center. cbn [geom set_ball]. apply weightless_geom. }
  assert (Ho : offset (geom resting_at_center)
                      (mkBall (Fin 500) (Fin 540, Fin 960) (Fin 0, Fin 0))
               = (Fin (540 + - (1080 / 2)), Fin (960 + - (1920 / 2)))).
  { rewrite Hg. unfold offset, circleCenter.
    cbn [WIDTH HEIGHT ballCenter fst snd]. rewrite !ndiv_Fin by lra.
    reflexivity. }
  assert (Hn : norm (offset (geom resting_at_center)
                            (mkBall (Fin 500) (Fin 540, Fin 960)
                                    (Fin 0, Fin 0))) = Fin 0).
  { rewrite Ho, norm_Fin. f_equal.
    replace ((540 + - (1080 / 2)) * (540 + - (1080 / 2))
             + (960 + - (1920 / 2)) * (960 + - (1920 / 2)))
      with 0 by lra.
    apply sqrt_0. }
  assert (Hc : colliding (geom resting_at_center)
                         (mkBall (Fin 500) (Fin 540, Fin 960)
                                 (Fin 0, Fin 0)) = true).
  { unfold colliding. rewrite Hn, Hg. cbn [CIRCLE_RADIUS ballRadius].
    unfold nge. cbn [nsub nadd nneg]. apply nle_Fin. lra. }
  rewrite update_ball, Hb, Hn, Hc. repeat split.
  unfold collide. cbn [ballVelocity]. rewrite Ho.
  apply resolveVelocity_at_center; lra.
Qed.

(** The center of [resting_at_center] is the boundary center, and its
    radius makes the collision test hold there. *)
Lemma resting_at_center_offset :
  offset (geom resting_at_center)
         (integrate (tuning resting_at_center) (ball resting_at_center))
  = (Fin 0, Fin 0).
Proof.
  unfold resting_at_center, integrate, offset, circleCenter.
  cbn [geom tuning ball set_ball ballRadius ballCenter ballVelocity fst snd].
  rewrite weightless_tuning, weightless_geom.
  cbn [GRAVITY VELOCITY_DECAY WIDTH HEIGHT nadd nmul].
  rewrite !ndiv_Fin by lra. cbn [nsub nadd nneg].
  f_equal; f_equal; lra.
Qed.

Lemma resting_at_center_colliding :
  colliding (geom resting_at_center)
            (integrate (tuning resting_at_center) (ball resting_at_center))
  = true.
Proof.
  unfold colliding. rewrite resting_at_center_offset, norm_Fin.
  unfold resting_at_center, integrate.
  cbn [geom tuning ball set_ball ballRadius]. rewrite weightless_geom.
  cbn [CIRCLE_RADIUS nsub nadd nneg]. unfold nge. apply nle_Fin.
  replace (0 * 0 + 0 * 0) with 0 by lra. rewrite sqrt_0. lra.
Qed.

(** A velocity that is not a number stays so: the move makes the center
    not a number, and a center that is not a number never collides. *)
Lemma integrate_nan (t : Tuning) (b : Ball) :
  ballVelocity b = (NaN, NaN) ->
  ballCenter (integrate t b) = (NaN, NaN)
  /\ ballVelocity (integrate t b) = (NaN, NaN).
Proof.
  intro Hv. unfold integrate. rewrite Hv.
  cbn [fst snd ballCenter ballVelocity nadd nmul].
  destruct (ballCenter b) as [[cx| | |] [cy| | |]]; split; reflexivity.
Qed.

Lemma colliding_nan (g : Geometry) (b : Ball) :
  ballCenter b = (NaN, NaN) -> colliding g b = false.
Proof.
  intro Hc. unfold colliding, offset, norm, nsub. rewrite Hc.
  cbn [fst snd nadd nmul nsqrt]. unfold nge.
  destruct (nadd (CIRCLE_RADIUS g) (nneg (ballRadius b))); reflexivity.
Qed.

Lemma update_nan (now : num) (s : Sim) :
  ballVelocity (ball s) = (NaN, NaN) ->
  ballCenter (ball (update now s)) = (NaN, NaN)
  /\ ballVelocity (ball (update now s)) = (NaN, NaN).
Proof.
  intro Hv. destruct (integrate_nan (tuning s) (ball s) Hv) as [Hc Hv'].
  rewrite update_ball, (colliding_nan _ _ Hc). split; assumption.
Qed.

Lemma ticks_nan (nows : list num) (s : Sim) :
  ballVelocity (ball s) = (NaN, NaN) ->
  ballVelocity (ball (ticks nows s)) = (NaN, NaN).
Proof.
  unfold ticks. revert s.
  induction nows as [| now rest IH]; intros s Hv; cbn [fold_left];
    [exact Hv |].
  apply IH. apply update_nan. exact Hv.
Qed.

(** C7, as amended.  The tick is a total function of the state, but a
    collision detected with the ball center exactly on the boundary
    center is not guarded: the unit normal is zero over zero, the tick
    leaves the velocity [(NaN, NaN)], and no later tick repairs it: after
    any further ticks the velocity is still [(NaN, NaN)], and from the
    next tick on the center of the ball is [(NaN, NaN)] too. *)
Theorem zero_distance_collision_poisons (now next : num) (later : list num)
    (s : Sim)
    (Hcenter : offset (geom s) (integrate (tuning s) (ball s))
               = (Fin 0, Fin 0))
    (Hcol : colliding (geom s) (integrate (tuning s) (ball s)) = true) :
  ballVelocity (ball (update now s)) = (NaN, NaN)
  /\ ballVelocity (ball (ticks later (update now s))) = (NaN, NaN)
  /\ ballCenter (ball (ticks later (update next (update now s))))
     = (NaN, NaN).
Proof.
  assert (Hv : ballVelocity (ball (update now s)) = (NaN, NaN)).
  { rewrite update_ball, Hcol. unfold collide. cbn [ballVelocity].
    rewrite Hcenter. apply resolveVelocity_at_center; reflexivity. }
  split; [exact Hv |]. split; [apply ticks_nan; exact Hv |].
  destruct (update_nan next _ Hv) as [Hc Hv1].
  clear Hv. revert Hc Hv1. generalize (update next (update now s)).
  unfold ticks. induction later as [| t rest IH]; intros s1 Hc Hv1;
    cbn [fold_left]; [exact Hc |].
  destruct (update_nan t s1 Hv1) as [Hc2 Hv2]. apply IH; assumption.
Qed.

(** Without gravity, a ball of radius 500 at rest on the boundary
    center. *)
Lemma zero_distance_collision_poisons_witness :
  offset (geom resting_at_center)
         (integrate (tuning resting_at_center) (ball resting_at_center))
  = (Fin 0, Fin 0)
  /\ colliding (geom resting_at_center)
               (integrate (tuning resting_at_center)
                          (ball resting_at_center)) = true
  /\ ballVelocity (ball (ticks [Fin 50; Fin 66]
                               (update (Fin 16) resting_at_center)))
     = (NaN, NaN).
Proof.
  split; [exact resting_at_center_offset |].
  split; [exact resting_at_center_colliding |].
  exact (proj1 (proj2 (zero_distance_collision_poisons
                         (Fin 16) (Fin 33) [Fin 50; Fin 66] resting_at_center
                         resting_at_center_offset
                         resting_at_center_colliding))).
Defined.

(** ** Recording *)

(** Stopping when no recorder is recording changes nothing: no event
    is queued, so no completion callback is ever run. *)
Lemma stopRecording_idle (recorded : Blob) (s : Sim) :
  match currentRecorder s with
  | Some r => is_recording r = false
  | None => True
  end ->
  stopRecording recorded s = s.
Proof.
  unfold stopRecording. destruct (mediaRecorder (capture s)) as [id|] eqn:Hm; [| reflexivity].
  destruct (currentRecorder s) as [r|]; [| reflexivity].
  intros ->. reflexivity.
Qed.

(** A recording that is started and stopped hands what was recorded to
    its callback, once, when the two events of the stop have arrived. *)
Lemma recording_completes :
  completions (dispatch (dispatch (stopRecording 7%nat started_once)))
  = [(1%nat, 7%nat)].
Proof. reflexivity. Qed.

(** After a second start the callback of the first can no longer run:
    stopping finalizes the second recorder only, and a [stop] event of
    the first finds its handler removed. *)
Lemma first_callback_is_lost :
  completions (dispatch (dispatch (stopRecording 7%nat started_twice)))
  = [(2%nat, 7%nat)]
  /\ completions (dispatch (set_pending started_twice [Stopped 0%nat])) = [].
Proof. split; reflexivity. Qed.

(** C8, the failing input.  The second [startRecording] is not a no-op:
    it lets go of the recorder of the first, which goes on recording
    with its handlers removed, creates a second recorder and starts it.
    Two recorders are then recording, and the state has changed. *)
Theorem second_start_is_not_a_noop :
  recorders started_once = [mkRecorder recording true true]
  /\ activeRecorders started_once = 1%nat
  /\ recorders started_twice
     = [mkRecorder recording false false; mkRecorder recording true true]
  /\ activeRecorders started_twice = 2%nat
  /\ mediaRecorder (capture started_twice) = Some 1%nat
  /\ onRecordingComplete (capture started_twice) = Some 2%nat
  /\ started_twice <> started_once.
Proof.
  repeat split; try reflexivity.
  intro H. apply (f_equal activeRecorders) in H. discriminate H.
Qed.
(** ** The trails *)

Lemma push_bounded_length (cap : nat) (l : list vec) (p : vec) :
  (1 <= cap)%nat -> (length l <= cap)%nat ->
  length (push_bounded cap l p) = Nat.min cap (S (length l)).
Proof.
  intros Hcap Hl. unfold push_bounded.
  destruct (cap <=? length l)%nat eqn:E.
  - apply Nat.leb_le in E. rewrite length_app. cbn [length].
    destruct l as [| x t]; cbn [tl length] in *; lia.
  - apply Nat.leb_gt in E. rewrite length_app. cbn [length]. lia.
Qed.

Lemma update_previousPositions (now : num) (s : Sim) :
  previousPositions (trails (update now s))
  = push_bounded MOTION_BLUR_STEPS (previousPositions (trails s))
                 (ballCenter (ball s)).
Proof.
  unfold update. cbv zeta.
  destruct (colliding _ _); [destruct (onCollision _) |]; reflexivity.
Qed.

Lemma update_collisionPoints (now : num) (s : Sim) :
  collisionPoints (trails (update now s))
  = if colliding (geom s) (integrate (tuning s) (ball s))
    then push_bounded MAX_COLLISION_POINTS (collisionPoints (trails s))
           (onCircle (geom s) (CIRCLE_RADIUS (geom s))
                     (offset (geom s) (integrate (tuning s) (ball s))))
    else collisionPoints (trails s).
Proof.
  unfold update. cbv zeta. cbn [set_loop set_trails geom tuning ball trails].
  destruct (colliding _ _); [destruct (onCollision _) |]; reflexivity.
Qed.

(** X1.  The trails stay within their capacities.  From a state whose
    motion-blur history holds at most [MOTION_BLUR_STEPS] positions and
    whose list of collision points holds at most [MAX_COLLISION_POINTS],
    any run of ticks leaves a history of exactly the smaller of
    [MOTION_BLUR_STEPS] and the old size plus the number of ticks, and a
    list of collision points of at most [MAX_COLLISION_POINTS]. *)
Theorem ticks_trails_bounded (nows : list num) (s : Sim)
    (Hprev : (length (previousPositions (trails s)) <= MOTION_BLUR_STEPS)%nat)
    (Hcol : (length (collisionPoints (trails s)) <= MAX_COLLISION_POINTS)%nat) :
  length (previousPositions (trails (ticks nows s)))
  = Nat.min MOTION_BLUR_STEPS
            (length (previousPositions (trails s)) + length nows)
  /\ (length (collisionPoints (trails (ticks nows s)))
      <= MAX_COLLISION_POINTS)%nat.
Proof.
  revert s Hprev Hcol. unfold ticks.
  induction nows as [| now rest IH]; intros s Hprev Hcol; cbn [fold_left length].
  - split; [lia | exact Hcol].
  - assert (Hp : length (previousPositions (trails (update now s)))
                 = Nat.min MOTION_BLUR_STEPS
                           (S (length (previousPositions (trails s))))).
    { rewrite update_previousPositions. apply push_bounded_length.
      - unfold MOTION_BLUR_STEPS. lia.
      - exact Hprev. }
    assert (Hc : (length (collisionPoints (trails (update now s)))
                  <= MAX_COLLISION_POINTS)%nat).
    { rewrite update_collisionPoints.
      destruct (colliding _ _); [| exact Hcol].
      rewrite push_bounded_length; [lia | unfold MAX_COLLISION_POINTS; lia
                                   | exact Hcol]. }
    destruct (IH (update now s)) as [IHp IHc]; [lia | exact Hc |].
    split; [| exact IHc].
    rewrite IHp, Hp. lia.
Qed.

Lemma ticks_trails_bounded_witness :
  (length (previousPositions (trails app_sim)) <= MOTION_BLUR_STEPS)%nat
  /\ (length (collisionPoints (trails app_sim)) <= MAX_COLLISION_POINTS)%nat
  /\ length (previousPositions
               (trails (ticks [Fin 16; Fin 33; Fin 50] app_sim)))
     = Nat.min MOTION_BLUR_STEPS
               (length (previousPositions (trails app_sim)) + 3).
Proof.
  assert (Hp : (length (previousPositions (trails app_sim))
                <= MOTION_BLUR_STEPS)%nat).
  { cbn. unfold MOTION_BLUR_STEPS. lia. }
  assert (Hc : (length (collisionPoints (trails app_sim))
                <= MAX_COLLISION_POINTS)%nat).
  { cbn. unfold MAX_COLLISION_POINTS. lia. }
  split; [exact Hp | split; [exact Hc |]].
  exact (proj1 (ticks_trails_bounded [Fin 16; Fin 33; Fin 50] app_sim Hp Hc)).
Defined.

(** ** The animation loop *)

Lemma update_loop (now : num) (s : Sim) :
  loop (update now s)
  = mkLoop (running (loop s)) (isDragging (loop s)) (animationId (loop s))
           (startTime (loop s))
           (ndiv (nsub now (startTime (loop s))) (Fin 1000)).
Proof.
  unfold update. cbv zeta.
  destruct (colliding _ _); [destruct (onCollision _) |]; reflexivity.
Qed.

Lemma update_scheduled (now : num) (s : Sim) :
  scheduled (update now s) = scheduled s
  /\ rafCounter (update now s) = rafCounter s.
Proof.
  unfold update. cbv zeta.
  destruct (colliding _ _); [destruct (onCollision _) |]; split; reflexivity.
Qed.

Lemma animate_running (now : num) (s : Sim) :
  running (loop s) = true ->
  running (loop (animate now s)) = true
  /\ scheduled (animate now s) = scheduled s ++ [S (rafCounter s)]
  /\ startTime (loop (animate now s)) = startTime (loop s)
  /\ elapsedTime (loop (animate now s))
     = ndiv (nsub now (startTime (loop s))) (Fin 1000).
Proof.
  intro Hrun. unfold animate. rewrite Hrun.
  unfold requestAnimationFrame, draw.
  cbn [set_loop set_frames emit loop scheduled rafCounter running startTime
       elapsedTime].
  rewrite update_loop. destruct (update_scheduled now s) as [-> ->].
  cbn [running startTime elapsedTime]. rewrite Hrun. repeat split.
Qed.

Lemma runFrame_stopped (now : num) (s : Sim) :
  running (loop s) = false ->
  running (loop (runFrame now s)) = false
  /\ ball (runFrame now s) = ball s
  /\ trails (runFrame now s) = trails s
  /\ log (runFrame now s) = log s.
Proof.
  intro H. unfold runFrame. destruct (scheduled s); [auto |].
  unfold animate. cbn [set_frames loop]. rewrite H. auto.
Qed.

(** X5.  A stopped simulation stands still.  After [stop()], whatever
    frames the platform still runs, and at whatever times, the ball,
    the trails and what was painted stay as they were. *)
Theorem stop_halts_physics (nows : list num) (s : Sim) :
  isRunning (frames nows (stop s)) = false
  /\ ball (frames nows (stop s)) = ball s
  /\ trails (frames nows (stop s)) = trails s
  /\ log (frames nows (stop s)) = log s.
Proof.
  assert (H : forall s0, running (loop s0) = false ->
            running (loop (frames nows s0)) = false
            /\ ball (frames nows s0) = ball s0
            /\ trails (frames nows s0) = trails s0
            /\ log (frames nows s0) = log s0).
  { unfold frames. induction nows as [| now rest IH]; intros s0 H0;
      cbn [fold_left]; [auto |].
    destruct (runFrame_stopped now s0 H0) as (H1 & H2 & H3 & H4).
    destruct (IH _ H1) as (I1 & I2 & I3 & I4).
    rewrite I2, I3, I4. auto. }
  apply (H (stop s)). reflexivity.
Qed.

Lemma runFrame_running (now : num) (s : Sim) :
  running (loop s) = true -> scheduled s <> [] ->
  running (loop (runFrame now s)) = true
  /\ length (scheduled (runFrame now s)) = length (scheduled s).
Proof.
  intros Hrun Hne. unfold runFrame.
  destruct (scheduled s) as [| id rest] eqn:E; [contradiction |].
  destruct (animate_running now (set_frames s rest (rafCounter s)) Hrun)
    as (H1 & H2 & _).
  split; [exact H1 |]. rewrite H2. cbn [set_frames scheduled].
  rewrite length_app. cbn [length]. lia.
Qed.

(** X6.  Every [start()] adds an animation chain.  Whether or not the
    simulation was running, [start()] requests one more frame than were
    requested before, and every frame that runs afterwards requests its
    successor: however many frames the platform runs, one more frame
    stays requested than before the call. *)
Theorem start_adds_animation_chain (now : num) (nows : list num) (s : Sim) :
  isRunning (frames nows (start now s)) = true
  /\ length (scheduled (frames nows (start now s)))
     = S (length (scheduled s)).
Proof.
  assert (H : forall s0, running (loop s0) = true -> scheduled s0 <> [] ->
            running (loop (frames nows s0)) = true
            /\ length (scheduled (frames nows s0)) = length (scheduled s0)).
  { unfold frames. induction nows as [| t rest IH]; intros s0 Hrun Hne;
      cbn [fold_left]; [auto |].
    destruct (runFrame_running t s0 Hrun Hne) as [H1 H2].
    destruct (IH (runFrame t s0) H1) as [I1 I2].
    - intro E. rewrite E in H2. destruct (scheduled s0); [contradiction |].
      discriminate.
    - split; [exact I1 | congruence]. }
  unfold start.
  match goal with |- context [animate _ ?x] => set (s1 := x) end.
  assert (Hrun : running (loop s1) = true) by reflexivity.
  destruct (animate_running now s1 Hrun) as (H1 & H2 & _).
  change (scheduled s1) with (scheduled s) in H2.
  destruct (H (animate now s1) H1) as [I1 I2].
  - rewrite H2. destruct (scheduled s); discriminate.
  - unfold isRunning. split; [exact I1 |].
    rewrite I2, H2, length_app. cbn [length]. lia.
Qed.

(** X7.  Releasing the ball resumes the simulation.  After a press on
    the ball and its release, the simulation is running and no longer
    dragging, whether or not it was running before the press. *)
Theorem release_resumes (x y now : num) (s : Sim)
    (Hhit : nle (norm (nsub x (fst (ballCenter (ball s))),
                       nsub y (snd (ballCenter (ball s)))))
                (ballRadius (ball s)) = true) :
  isRunning (handleMouseDown x y s) = false
  /\ isRunning (handleMouseUp now (handleMouseDown x y s)) = true
  /\ isDragging (loop (handleMouseUp now (handleMouseDown x y s))) = false.
Proof.
  rewrite (handleMouseDown_hit x y s Hhit).
  split; [reflexivity |].
  unfold handleMouseUp.
  assert (Hd : isDragging (loop (stop (set_dragging s true))) = true)
    by reflexivity.
  rewrite Hd. unfold start.
  match goal with |- context [animate _ ?x] => set (s1 := x) end.
  assert (Hrun : running (loop s1) = true) by reflexivity.
  split; [exact (proj1 (animate_running now s1 Hrun)) |].
  unfold animate. rewrite Hrun. unfold requestAnimationFrame, draw.
  cbn [set_loop set_frames emit loop isDragging].
  rewrite update_loop. reflexivity.
Qed.

Lemma release_resumes_witness :
  nle (norm (nsub (Fin 541) (fst (ballCenter (ball app_running))),
             nsub (Fin 712) (snd (ballCenter (ball app_running)))))
      (ballRadius (ball app_running)) = true
  /\ isRunning (handleMouseUp (Fin 2000)
                  (handleMouseDown (Fin 541) (Fin 712) app_running)) = true.
Proof.
  split; [exact press_on_running_hits |].
  exact (proj1 (proj2 (release_resumes (Fin 541) (Fin 712) (Fin 2000)
                         app_running press_on_running_hits))).
Defined.

(** ** One animation chain *)

Lemma animate_running_loop (now : num) (s : Sim) :
  running (loop s) = true ->
  running (loop (animate now s)) = true
  /\ isDragging (loop (animate now s)) = isDragging (loop s)
  /\ animationId (loop (animate now s)) = S (rafCounter s)
  /\ scheduled (animate now s) = scheduled s ++ [S (rafCounter s)].
Proof.
  intro Hrun. unfold animate. rewrite Hrun.
  unfold requestAnimationFrame, draw.
  cbn [set_loop set_frames emit loop scheduled rafCounter running isDragging
       animationId].
  rewrite update_loop. destruct (update_scheduled now s) as [-> ->].
  cbn [running isDragging]. rewrite Hrun. repeat split.
Qed.

Lemma start_single_chain (now : num) (s : Sim) :
  isDragging (loop s) = false -> scheduled s = [] ->
  single_chain (start now s).
Proof.
  intros Hd Hs. unfold start.
  match goal with |- context [animate _ ?x] => set (s1 := x) end.
  assert (Hrun : running (loop s1) = true) by reflexivity.
  destruct (animate_running_loop now s1 Hrun) as (H1 & H2 & H3 & H4).
  unfold single_chain. rewrite H1, H2, H3, H4.
  change (scheduled s1) with (scheduled s). rewrite Hs.
  split; [exact Hd | reflexivity].
Qed.

Lemma stop_single_chain (s : Sim) :
  (if running (loop s) then scheduled s = [animationId (loop s)]
   else scheduled s = []) ->
  single_chain (stop s).
Proof.
  unfold single_chain, stop, cancelAnimationFrame.
  cbn [set_frames set_loop loop running scheduled animationId].
  destruct (running (loop s)); intros ->; [| reflexivity].
  cbn [filter]. rewrite Nat.eqb_refl. reflexivity.
Qed.

(** X30.  Play, pause and drag keep one animation chain.  As long as a
    running simulation is not being dragged and has requested exactly
    one frame, and one that is not running has requested none, each
    frame run, each mouse event and each use of the play/pause button
    outside a drag keeps it so: through them no second chain appears. *)
Theorem single_chain_preserved (now x y : num) (s : Sim)
    (Hs : single_chain s) :
  single_chain (runFrame now s)
  /\ single_chain (handleMouseDown x y s)
  /\ single_chain (handleMouseMove x y s)
  /\ single_chain (handleMouseUp now s)
  /\ (isDragging (loop s) = false -> single_chain (handlePlayPause now s)).
Proof.
  split; [| split; [| split; [| split]]].
  - unfold runFrame. unfold single_chain in Hs.
    destruct (running (loop s)) eqn:Erun.
    + destruct Hs as [Hd Hsch]. rewrite Hsch.
      set (s1 := set_frames s [] (rafCounter s)).
      assert (Hrun : running (loop s1) = true) by exact Erun.
      destruct (animate_running_loop now s1 Hrun) as (H1 & H2 & H3 & H4).
      unfold single_chain. rewrite H1, H2, H3, H4.
      split; [exact Hd | reflexivity].
    + rewrite Hs. unfold single_chain. rewrite Erun. exact Hs.
  - unfold handleMouseDown. destruct (nle _ _); [| exact Hs].
    apply stop_single_chain. unfold single_chain in Hs.
    cbn [set_dragging set_loop loop running scheduled animationId].
    destruct (running (loop s)); [exact (proj2 Hs) | exact Hs].
  - unfold handleMouseMove. destruct (isDragging (loop s)); exact Hs.
  - unfold handleMouseUp. destruct (isDragging (loop s)) eqn:Ed; [| exact Hs].
    apply start_single_chain; [reflexivity |].
    unfold single_chain in Hs. destruct (running (loop s)).
    + destruct Hs as [Hd _]. rewrite Ed in Hd. discriminate.
    + exact Hs.
  - intro Hd. unfold handlePlayPause, isRunning.
    destruct (running (loop s)) eqn:Erun.
    + apply stop_single_chain. unfold single_chain in Hs.
      rewrite Erun in *. exact (proj2 Hs).
    + apply start_single_chain; [exact Hd |].
      unfold single_chain in Hs. rewrite Erun in Hs. exact Hs.
Qed.

Lemma single_chain_preserved_witness :
  single_chain app_running
  /\ single_chain (runFrame (Fin 16) app_running)
  /\ single_chain (handleMouseUp (Fin 2000)
                     (handleMouseDown (Fin 541) (Fin 712) app_running)).
Proof.
  assert (H : single_chain app_running).
  { apply start_single_chain; reflexivity. }
  split; [exact H | split].
  - exact (proj1 (single_chain_preserved (Fin 16) (Fin 0) (Fin 0)
                    app_running H)).
  - pose proof (proj1 (proj2 (single_chain_preserved (Fin 16) (Fin 541)
                                (Fin 712) app_running H))) as Hdown.
    exact (proj1 (proj2 (proj2 (proj2
             (single_chain_preserved (Fin 2000) (Fin 0) (Fin 0) _ Hdown))))).
Defined.

(** ** The recording session *)

Lemma update_nth_length {A : Type} (f : A -> A) (l : list A) (i : nat) :
  length (update_nth i f l) = length l.
Proof.
  revert i. induction l as [| x t IH]; intros [| i]; cbn; auto.
Qed.

Lemma update_nth_app_last {A : Type} (f : A -> A) (l : list A) (x : A) :
  update_nth (length l) f (l ++ [x]) = l ++ [f x].
Proof. induction l as [| y t IH]; cbn; [reflexivity | rewrite IH; reflexivity]. Qed.

Lemma nth_error_app_last {A : Type} (l : list A) (x : A) :
  nth_error (l ++ [x]) (length l) = Some x.
Proof. induction l as [| y t IH]; cbn; auto. Qed.

Lemma filter_update_nth_detach (l : list MediaRecorder) (i : nat) :
  length (filter is_recording (update_nth i detach l))
  = length (filter is_recording l).
Proof.
  revert i. induction l as [| r t IH]; intros [| i]; cbn [update_nth filter];
    auto.
  - unfold is_recording, detach. cbn [state].
    destruct (state r); reflexivity.
  - destruct (is_recording r); cbn [length]; rewrite IH; reflexivity.
Qed.

Lemma released_length (s : Sim) : length (released s) = length (recorders s).
Proof.
  unfold released. destruct (mediaRecorder (capture s));
    [apply update_nth_length | reflexivity].
Qed.

Lemma cleanupResources_spec (s : Sim) :
  cleanupResources s
  = mkSim (geom s) (tuning s)
          (mkBall INITIAL_BALL_RADIUS (ballCenter (ball s)) (Fin 0.8, Fin 0.8))
          (mkTrails [] []) (loop s)
          (mkCapture None [] (onRecordingComplete (capture s))
                     (currentAudioStream (capture s)))
          (onCollision s) (released s) (pending s) (scheduled s)
          (rafCounter s) ((log s ++ [ClearCanvas]) ++ [ClearCanvas]).
Proof.
  destruct s as [g t b tr l c oc rs p sc rc lg].
  destruct c as [mr ch cb st].
  destruct mr; reflexivity.
Qed.

Lemma startRecording_spec (onComplete : option Callback)
    (audioStream : option MediaStream) (s : Sim) :
  exists stream : option MediaStream,
    startRecording onComplete audioStream s
    = mkSim (geom s) (tuning s)
            (mkBall INITIAL_BALL_RADIUS (ballCenter (ball s))
                    (Fin 0.8, Fin 0.8))
            (mkTrails [] []) (loop s)
            (mkCapture (Some (length (recorders s))) [] onComplete stream)
            (onCollision s)
            (released s ++ [mkRecorder recording true true])
            (pending s) (scheduled s) (rafCounter s)
            ((log s ++ [ClearCanvas]) ++ [ClearCanvas]).
Proof.
  unfold startRecording, setupRecording, currentRecorder. cbv zeta.
  rewrite cleanupResources_spec.
  cbn [set_capture set_recorders capture mediaRecorder recorders chunks
       onRecordingComplete currentAudioStream geom tuning ball trails loop
       onCollision pending scheduled rafCounter log].
  rewrite nth_error_app_last. cbn [is_inactive state].
  rewrite update_nth_app_last. unfold with_state.
  cbn [ondataavailable onstop]. rewrite released_length.
  eexists. reflexivity.
Qed.

(** X10.  Every [startRecording] adds a recorder that records.  Whatever
    the state, the call creates one recorder, starts it and makes it the
    recorder in use, and stops none: the number of recorders that are
    recording grows by one.  It also puts the ball back to its initial
    radius and velocity, where it is, and clears the trails. *)
Theorem startRecording_adds_recorder (onComplete : option Callback)
    (audioStream : option MediaStream) (s : Sim) :
  activeRecorders (startRecording onComplete audioStream s)
  = S (activeRecorders s)
  /\ mediaRecorder (capture (startRecording onComplete audioStream s))
     = Some (length (recorders s))
  /\ currentRecorder (startRecording onComplete audioStream s)
     = Some (mkRecorder recording true true)
  /\ onRecordingComplete (capture (startRecording onComplete audioStream s))
     = onComplete
  /\ ball (startRecording onComplete audioStream s)
     = mkBall INITIAL_BALL_RADIUS (ballCenter (ball s)) (Fin 0.8, Fin 0.8)
  /\ trails (startRecording onComplete audioStream s) = mkTrails [] [].
Proof.
  destruct (startRecording_spec onComplete audioStream s) as [stream ->].
  unfold activeRecorders, currentRecorder.
  cbn [recorders capture mediaRecorder onRecordingComplete ball trails].
  rewrite <- released_length, nth_error_app_last.
  repeat split.
  rewrite filter_app, length_app. cbn [filter is_recording state length].
  unfold released. destruct (mediaRecorder (capture s)).
  - rewrite filter_update_nth_detach. lia.
  - lia.
Qed.

(** A recording stopped: the recorder in use is the last one created,
    it is recording, and no event is pending.  The two events of the
    stop are queued, and their arrival ends the session. *)
Lemma session_end (g : Geometry) (t : Tuning) (b : Ball) (tr : Trails)
    (l : Loop) (cb : Callback) (stream : option MediaStream)
    (oc : bool) (rs : list MediaRecorder) (sc : list nat) (rc : nat)
    (lg : list Effect) (recorded : Blob) :
  let s :=
    stopRecording recorded
      (mkSim g t b tr l
             (mkCapture (Some (length rs)) [] (Some cb) stream) oc
             (rs ++ [mkRecorder recording true true]) [] sc rc lg) in
  pending s = [DataAvailable (length rs) recorded; Stopped (length rs)]
  /\ log s = lg
  /\ log (dispatch s) = lg
  /\ dispatch (dispatch s)
     = mkSim g t
             (mkBall INITIAL_BALL_RADIUS (ballCenter b) (Fin 0.8, Fin 0.8))
             (mkTrails [] []) l
             (mkCapture None [] (Some cb)
                        (option_map (map (fun _ => true)) stream))
             oc (rs ++ [mkRecorder inactive false false]) [] sc rc
             (((lg ++ [RecordingComplete cb recorded]) ++ [ClearCanvas])
              ++ [ClearCanvas]).
Proof.
  cbv zeta. unfold stopRecording, currentRecorder.
  cbn [capture mediaRecorder recorders].
  rewrite nth_error_app_last. cbn [is_recording state].
  unfold set_pending, set_recorders.
  cbn [geom tuning ball trails loop capture onCollision recorders pending
       scheduled rafCounter log app].
  rewrite update_nth_app_last. unfold with_state.
  cbn [ondataavailable onstop].
  split; [reflexivity |]. split; [reflexivity |].
  match goal with |- context [dispatch (dispatch ?x)] => set (s0 := x) end.
  assert (H1 : dispatch s0
               = mkSim g t b tr l
                   (mkCapture (Some (length rs))
                      (if (0 <? recorded)%nat then [recorded] else [])
                      (Some cb) stream)
                   oc (rs ++ [mkRecorder inactive true true])
                   [Stopped (length rs)] sc rc lg).
  { unfold s0, dispatch. cbn [pending]. unfold set_pending.
    cbn [geom tuning ball trails loop capture onCollision recorders pending
         scheduled rafCounter log].
    rewrite nth_error_app_last. cbn [ondataavailable andb].
    destruct (0 <? recorded)%nat; reflexivity. }
  rewrite H1. split; [reflexivity |].
  unfold dispatch. cbn [pending]. unfold set_pending.
  cbn [geom tuning ball trails loop capture onCollision recorders pending
       scheduled rafCounter log].
  rewrite nth_error_app_last. cbn [onstop].
  cbn [capture onRecordingComplete chunks]. unfold emit.
  cbn [geom tuning ball trails loop capture onCollision recorders pending
       scheduled rafCounter log].
  rewrite cleanupResources_spec. unfold released, set_capture.
  cbn [geom tuning ball trails loop capture onCollision recorders pending
       scheduled rafCounter log mediaRecorder chunks onRecordingComplete
       currentAudioStream ballCenter].
  rewrite update_nth_app_last.
  match goal with
  | |- context [RecordingComplete cb ?x] => assert (Hsum : x = recorded)
  end.
  { destruct (0 <? recorded)%nat eqn:E; cbn; [lia |].
    apply Nat.ltb_ge in E. lia. }
  rewrite Hsum. reflexivity.
Qed.

(** X11.  A recording session hands over what it recorded.  From a state
    with no event pending, a recording is started with the callback
    [cb] and then stopped, when the recorder has gathered [recorded]
    bytes.  The stop queues the data and then the [stop] event of the
    recorder; no callback runs before both have arrived, and when they
    have the callback has run once, with a blob of [recorded] bytes, and
    the simulation is left without recorder, chunks or pending event,
    with as many recorders recording as before the session. *)
Theorem recording_delivers_all_data (cb : Callback)
    (audioStream : option MediaStream) (recorded : Blob) (s : Sim)
    (Hidle : pending s = []) :
  let id := length (recorders s) in
  let s1 := stopRecording recorded (startRecording (Some cb) audioStream s) in
  let s2 := dispatch (dispatch s1) in
  pending s1 = [DataAvailable id recorded; Stopped id]
  /\ completions s1 = completions s
  /\ completions (dispatch s1) = completions s
  /\ completions s2 = completions s ++ [(cb, recorded)]
  /\ mediaRecorder (capture s2) = None
  /\ chunks (capture s2) = []
  /\ pending s2 = []
  /\ activeRecorders s2 = activeRecorders s.
Proof.
  cbv zeta.
  destruct (startRecording_spec (Some cb) audioStream s) as [stream ->].
  rewrite Hidle, <- released_length.
  match goal with
  | |- context [stopRecording _ (mkSim ?g ?t ?b ?tr ?l
                  (mkCapture _ _ _ ?st) ?oc (?rs ++ _) _ ?sc ?rc ?lg)] =>
      pose proof (session_end g t b tr l cb st oc rs sc rc lg recorded) as H
  end.
  cbv zeta in H. destruct H as (Hp & Hl1 & Hl2 & ->).
  rewrite Hp. unfold completions at 1 3 5. rewrite Hl1, Hl2.
  unfold completions, activeRecorders.
  cbn [log capture mediaRecorder chunks pending recorders].
  rewrite !flat_map_app. cbn [flat_map app]. rewrite !app_nil_r.
  repeat split.
  rewrite filter_app, length_app.
  cbn [filter is_recording state length].
  unfold released. destruct (mediaRecorder (capture s)).
  - rewrite filter_update_nth_detach. lia.
  - lia.
Qed.

Lemma recording_delivers_all_data_witness :
  pending app_sim = []
  /\ completions
       (dispatch (dispatch (stopRecording 12%nat
          (startRecording (Some 1%nat) None app_sim))))
     = completions app_sim ++ [(1%nat, 12%nat)].
Proof.
  split; [reflexivity |].
  exact (proj1 (proj2 (proj2 (proj2
           (recording_delivers_all_data 1%nat None 12%nat app_sim
              eq_refl))))).
Defined.

End SimulationProps.

(** * Properties of the audio manager *)

Module AudioProps.
Import AudioManager.
Local Open Scope Q_scope.

Lemma Qlt_bool_iff (x y : Q) : Qlt_bool x y = true <-> x < y.
Proof.
  unfold Qlt_bool. rewrite negb_true_iff. split; intro H.
  - apply Qnot_le_lt. intro Hle. apply Qle_bool_iff in Hle. congruence.
  - destruct (Qle_bool y x) eqn:E; [| reflexivity].
    apply Qle_bool_iff in E. exfalso. apply (Qlt_not_le _ _ H E).
Qed.

Lemma Qlt_bool_false_iff (x y : Q) : Qlt_bool x y = false <-> y <= x.
Proof.
  unfold Qlt_bool. rewrite negb_false_iff. apply Qle_bool_iff.
Qed.

(** ** Track capacity *)

(** C6.  Adding a file of a valid format when the store already holds
    [MAX_TRACKS] tracks is refused with the capacity error, and the
    manager is left exactly as it was. *)
Theorem processAudioFile_at_capacity (file : File) (m : Manager)
    (Hvalid : isValidAudioFormat file = true)
    (Hfull : (MAX_TRACKS <= List.length (audioTracks m))%nat) :
  processAudioFile file m = (m, Rejected (MaximumTracksReached 10)).
Proof.
  unfold processAudioFile. rewrite Hvalid. cbn [negb].
  apply Nat.leb_le in Hfull. rewrite Hfull. reflexivity.
Qed.

(** A store filled by ten files refuses the eleventh. *)
Lemma processAudioFile_at_capacity_witness :
  isValidAudioFormat one_second_file = true
  /\ (MAX_TRACKS <= List.length (audioTracks ten_tracks))%nat
  /\ List.length (audioTracks ten_tracks) = 10%nat
  /\ processAudioFile one_second_file ten_tracks
     = (ten_tracks, Rejected (MaximumTracksReached 10)).
Proof.
  assert (Hv : isValidAudioFormat one_second_file = true) by reflexivity.
  assert (Hlen : List.length (audioTracks ten_tracks) = 10%nat)
    by (vm_compute; reflexivity).
  assert (Hfull : (MAX_TRACKS <= List.length (audioTracks ten_tracks))%nat)
    by (rewrite Hlen; apply Nat.le_refl).
  split; [exact Hv | split; [exact Hfull | split; [exact Hlen |]]].
  exact (processAudioFile_at_capacity one_second_file ten_tracks Hv Hfull).
Defined.

(** The store never grows beyond [MAX_TRACKS] by adding files. *)
Lemma processAudioFile_bounded (file : File) (m : Manager) :
  (List.length (audioTracks m) <= MAX_TRACKS)%nat ->
  (List.length (audioTracks (fst (processAudioFile file m))) <= MAX_TRACKS)%nat.
Proof.
  intro Hle. unfold processAudioFile.
  destruct (negb (isValidAudioFormat file)); [exact Hle |].
  destruct (MAX_TRACKS <=? List.length (audioTracks m))%nat eqn:Hfull;
    [exact Hle |].
  apply Nat.leb_gt in Hfull.
  destruct (decoded file) as [b |]; cbn [bind]; [| exact Hle].
  destruct (splitAudioIntoSegments _ b); cbn [fst]; try exact Hle.
  destruct (suspended _); cbn; rewrite length_app; cbn; lia.
Qed.

(** ** Rate limiting *)

Lemma triggers_update_stop (id : nat) (l : list SourceNode) :
  List.length (filter started (CircleSimulation.update_nth id stop_source l))
  = List.length (filter started l).
Proof.
  revert id. induction l as [| x t IH]; intros [| j]; cbn; try reflexivity.
  - destruct (started x); reflexivity.
  - destruct (started x); cbn; rewrite IH; reflexivity.
Qed.

(** Two margins round the rate limit [0.9 * segmentDuration]. *)
Lemma full_duration_past_limit (d gap : Q) :
  0 < d -> d <= gap -> d * 0.9 <= gap.
Proof. intros Hd Hgap. Lqa.lra. Qed.

Lemma short_gap_within_limit (d gap : Q) :
  0 < d -> gap <= d * 0.8 -> gap < d * 0.9.
Proof. intros Hd Hgap. Lqa.lra. Qed.


Lemma binary64_0 : binary64 0.
Proof.
  exists 0%Z, 0%Z. split; [reflexivity | split; [lia | reflexivity]].
Qed.

Lemma binary64_nat (k : nat) :
  (Z.of_nat k < 2 ^ 53)%Z -> binary64 (inject_Z (Z.of_nat k)).
Proof.
  intro Hk. exists (Z.of_nat k), 0%Z.
  split; [lia | split; [lia |]].
  change (2 ^ 0) with 1. symmetry. apply Qmult_1_r.
Qed.

Lemma binary64_half : binary64 0.5.
Proof.
  exists 1%Z, (-1)%Z. split; [reflexivity | split; [lia | reflexivity]].
Qed.



(** ** Splitting a buffer *)

Lemma toInteger_inject (q : Q) (z : Z) : q == inject_Z z -> toInteger q = z.
Proof.
  unfold Qeq, toInteger. cbn. intro H. rewrite Z.mul_1_r in H. rewrite H.
  apply Z.quot_mul. discriminate.
Qed.

Lemma toUint32_inject (q : Q) (n : nat) :
  q == inject_Z (Z.of_nat n) -> (Z.of_nat n < 2 ^ 32)%Z -> toUint32 q = n.
Proof.
  intros Hq Hn. unfold toUint32. rewrite (toInteger_inject _ _ Hq).
  rewrite Z.mod_small by lia. apply Nat2Z.id.
Qed.

Lemma relativeIndex_inside (len k : nat) :
  (k <= len)%nat -> relativeIndex len (Z.of_nat k) = k.
Proof.
  intro H. unfold relativeIndex.
  destruct (Z.of_nat k <? 0)%Z eqn:E; [apply Z.ltb_lt in E; lia |].
  rewrite Z.min_l by lia. apply Nat2Z.id.
Qed.

Lemma slice_piece (data : list sample) (from to : Q) (first count : nat) :
  from == inject_Z (Z.of_nat first) ->
  to == inject_Z (Z.of_nat (first + count)) ->
  (first + count <= List.length data)%nat ->
  slice data from to = firstn count (skipn first data).
Proof.
  intros Hf Ht Hlen. unfold slice.
  rewrite (toInteger_inject _ _ Hf), (toInteger_inject _ _ Ht).
  rewrite !relativeIndex_inside by lia. f_equal. lia.
Qed.

Lemma set_whole (target source : list sample) :
  List.length source = List.length target ->
  set target source 0 = Returns source.
Proof.
  intro H. unfold set. rewrite Nat.add_0_r.
  replace (List.length target <? List.length source)%nat with false
    by (symmetry; apply Nat.ltb_ge; lia).
  cbn [firstn app Nat.add]. rewrite H, skipn_all, app_nil_r. reflexivity.
Qed.

Lemma replace_nth_app {A : Type} (l1 l2 : list A) (x y : A) :
  replace_nth (List.length l1) x (l1 ++ y :: l2) = l1 ++ x :: l2.
Proof. induction l1 as [| a t IH]; cbn; [reflexivity | rewrite IH; reflexivity]. Qed.

Lemma firstn_succ_nth {A : Type} (l : list A) (k : nat) (x : A) :
  nth_error l k = Some x -> firstn (S k) l = firstn k l ++ [x].
Proof.
  revert k. induction l as [| a t IH]; intros [| k] H; cbn in *;
    try discriminate.
  - injection H as ->. reflexivity.
  - rewrite (IH k H). reflexivity.
Qed.

Lemma copyChannels_ends (audioBuffer : AudioBuffer) (i segmentLength : Q)
    (todo : list nat) :
  forall segmentBuffer : AudioBuffer,
    copyChannels audioBuffer segmentBuffer i segmentLength todo <> Spins.
Proof.
  induction todo as [| channel rest IH]; intro segmentBuffer;
    cbn [copyChannels]; [discriminate |].
  unfold getChannelData.
  destruct (nth_error (channels audioBuffer) channel); [| discriminate].
  cbn [bind].
  destruct (nth_error (channels segmentBuffer) channel); [| discriminate].
  cbn [bind]. unfold set. destruct (_ <? _)%nat; [discriminate |].
  cbn [bind]. apply IH.
Qed.

Lemma toUint32_positive (q : Q) : 0 < q -> toUint32 q <> 0%nat -> 1 <= q.
Proof.
  intros Hpos Hnz. unfold toUint32, toInteger in Hnz.
  destruct q as [num den]. unfold Qlt in Hpos. unfold Qle. cbn in *.
  rewrite Z.mul_1_r in *.
  destruct (Z.lt_ge_cases num (Z.pos den)) as [Hlt | Hge]; [| lia].
  exfalso. apply Hnz. rewrite Z.quot_small by lia. reflexivity.
Qed.

Lemma qmin_le_l (x y : Q) : qmin x y <= x.
Proof.
  unfold qmin. destruct (Qlt_bool y x) eqn:E.
  - apply Qlt_bool_iff in E. apply Qlt_le_weak. exact E.
  - apply Qle_refl.
Qed.

Lemma qmin_positive (x y : Q) : 0 < x -> 0 < y -> 0 < qmin x y.
Proof. intros Hx Hy. unfold qmin. destruct (Qlt_bool y x); assumption. Qed.

(** With a positive number of frames per segment the loop does not
    outlast its fuel: every pass that does not throw has created a
    buffer of at least one frame and so moves on by at least one. *)
Lemma splitLoop_ends (segmentDuration : Q) (audioBuffer : AudioBuffer) :
  0 < segmentDuration * sampleRate audioBuffer ->
  forall (fuel : nat) (i : Q) (acc : list AudioSegment),
    inject_Z (Z.of_nat (length audioBuffer)) < i + inject_Z (Z.of_nat fuel) ->
    splitLoop fuel segmentDuration audioBuffer i acc <> Spins.
Proof.
  intro Hsps. induction fuel as [| fuel IH]; intros i acc Hfuel.
  - cbn [splitLoop]. cbn in Hfuel. rewrite Qplus_0_r in Hfuel.
    replace (Qlt_bool i (inject_Z (Z.of_nat (length audioBuffer))))
      with false; [discriminate |].
    symmetry. apply Qlt_bool_false_iff. apply Qlt_le_weak. exact Hfuel.
  - cbn [splitLoop].
    destruct (Qlt_bool i (inject_Z (Z.of_nat (length audioBuffer)))) eqn:Hi;
      [| discriminate].
    apply Qlt_bool_iff in Hi.
    set (segmentLength :=
           qmin (segmentDuration * sampleRate audioBuffer)
                (inject_Z (Z.of_nat (length audioBuffer)) - i)).
    unfold createBuffer.
    destruct ((numberOfChannels audioBuffer =? 0)%nat
              || (toUint32 segmentLength =? 0)%nat) eqn:Hzero;
      [discriminate |].
    cbn [bind]. apply orb_false_iff in Hzero. destruct Hzero as [_ Hlen].
    apply Nat.eqb_neq in Hlen.
    assert (Hone : 1 <= segmentDuration * sampleRate audioBuffer).
    { apply Qle_trans with segmentLength; [| apply qmin_le_l].
      apply toUint32_positive; [| exact Hlen].
      apply qmin_positive; [exact Hsps |].
      unfold Qminus. rewrite <- (Qplus_opp_r i).
      apply Qplus_lt_l. exact Hi. }
    destruct (copyChannels audioBuffer _ i segmentLength _) eqn:Hcopy;
      [| discriminate | exfalso; exact (copyChannels_ends _ _ _ _ _ Hcopy)].
    cbn [bind]. apply IH.
    rewrite Nat2Z.inj_succ, <- Z.add_1_l, inject_Z_plus in Hfuel.
    apply Qlt_le_trans with (i + (1 + inject_Z (Z.of_nat fuel)));
      [exact Hfuel |].
    rewrite Qplus_assoc. apply Qplus_le_l. apply Qplus_le_r. exact Hone.
Qed.

(** X12.  Splitting ends.  [splitAudioIntoSegments] returns or throws
    whenever the segment duration and the sample rate are positive: its
    loop cannot go on for ever. *)
Lemma splitAudioIntoSegments_ends (segmentDuration : Q)
    (audioBuffer : AudioBuffer) :
  0 < segmentDuration -> 0 < sampleRate audioBuffer ->
  splitAudioIntoSegments segmentDuration audioBuffer <> Spins.
Proof.
  intros Hd Hr. apply splitLoop_ends.
  - rewrite <- (Qmult_0_l (sampleRate audioBuffer)).
    apply Qmult_lt_r; assumption.
  - rewrite Qplus_0_l, <- Zlt_Qlt. lia.
Qed.

Section SplitWholeFrames.

Variable segmentDuration : Q.
Variable audioBuffer : AudioBuffer.
Variable n : nat.

Hypothesis Hwf : wf_buffer audioBuffer.
Hypothesis Hn : (1 <= n)%nat.
Hypothesis Hsps :
  segmentDuration * sampleRate audioBuffer == inject_Z (Z.of_nat n).

Let len := length audioBuffer.
Let nch := numberOfChannels audioBuffer.

(** The channel loop fills an empty segment with the piece. *)
Lemma copyChannels_piece (i segmentLength : Q) (first count : nat) :
  i == inject_Z (Z.of_nat first) ->
  i + segmentLength == inject_Z (Z.of_nat (first + count)) ->
  (first + count <= len)%nat ->
  forall (todo k : nat),
    (k + todo = nch)%nat ->
    copyChannels audioBuffer
      (mkBuffer (sampleRate audioBuffer) nch count
         (map (fun data => firstn count (skipn first data))
              (firstn k (channels audioBuffer))
          ++ repeat (repeat 0 count) todo))
      i segmentLength (seq k todo)
    = Returns (piece audioBuffer first count).
Proof.
  intros Hi Hto Hfit.
  destruct Hwf as (Hch & _ & Hall & _). fold nch in Hch. fold len in Hall.
  induction todo as [| todo IH]; intros k Hk.
  - cbn [seq copyChannels repeat]. rewrite app_nil_r.
    rewrite firstn_all2 by lia. reflexivity.
  - cbn [seq copyChannels].
    assert (Hlt : (k < List.length (channels audioBuffer))%nat) by lia.
    destruct (nth_error (channels audioBuffer) k) as [data |] eqn:Hdata;
      [| apply nth_error_None in Hdata; lia].
    assert (Hdl : List.length data = len).
    { rewrite Forall_forall in Hall. apply Hall.
      apply (nth_error_In _ _ Hdata). }
    assert (Hk1 : List.length
                    (map (fun data => firstn count (skipn first data))
                         (firstn k (channels audioBuffer))) = k).
    { rewrite length_map, length_firstn. lia. }
    unfold getChannelData at 1. rewrite Hdata. cbn [bind].
    unfold getChannelData at 1. cbn [channels].
    rewrite nth_error_app2 by lia. rewrite Hk1, Nat.sub_diag.
    cbn [repeat nth_error bind].
    rewrite (slice_piece data i (i + segmentLength) first count Hi Hto)
      by lia.
    rewrite set_whole
      by (rewrite length_firstn, length_skipn, repeat_length; lia).
    cbn [bind]. unfold with_channel.
    cbn [sampleRate numberOfChannels length channels].
    rewrite <- Hk1 at 1. rewrite replace_nth_app.
    specialize (IH (S k) ltac:(lia)).
    rewrite (firstn_succ_nth _ _ _ Hdata) in IH.
    rewrite map_app, <- app_assoc in IH. cbn [map app] in IH.
    exact IH.
Qed.

(** One pass of the outer loop and the rest of it. *)
Lemma splitLoop_pieces (fuel : nat) :
  forall (first : nat) (i : Q) (acc : list AudioSegment),
    i == inject_Z (Z.of_nat first) ->
    (len < first + fuel)%nat ->
    exists segs : list AudioSegment,
      splitLoop fuel segmentDuration audioBuffer i acc = Returns (acc ++ segs)
      /\ map buffer segs = pieces fuel n audioBuffer first
      /\ Forall (fun s => duration s = segmentDuration) segs.
Proof.
  pose proof Hwf as (Hch & Hnch & Hall & Hlen32).
  fold nch in Hch, Hnch. fold len in Hall, Hlen32.
  induction fuel as [| fuel IH]; intros first i acc Hi Hfuel.
  - exists []. cbn [splitLoop pieces]. fold len.
    replace (Qlt_bool i (inject_Z (Z.of_nat len))) with false.
    + rewrite app_nil_r. repeat split. constructor.
    + symmetry. apply Qlt_bool_false_iff. rewrite Hi.
      rewrite <- Zle_Qle. lia.
  - cbn [splitLoop pieces]. fold len nch.
    destruct (first <? len)%nat eqn:Hlt.
    + apply Nat.ltb_lt in Hlt.
      replace (Qlt_bool i (inject_Z (Z.of_nat len))) with true
        by (symmetry; apply Qlt_bool_iff; rewrite Hi, <- Zlt_Qlt; lia).
      set (count := Nat.min n (len - first)).
      assert (Hcount : qmin (segmentDuration * sampleRate audioBuffer)
                            (inject_Z (Z.of_nat len) - i)
                       == inject_Z (Z.of_nat count)).
      { unfold qmin, count.
        destruct (Qlt_bool _ _) eqn:E.
        - apply Qlt_bool_iff in E. rewrite Hsps, Hi in E.
          rewrite Hi. unfold Qminus. rewrite <- inject_Z_opp, <- inject_Z_plus.
          unfold Qminus in E.
          rewrite <- inject_Z_opp, <- inject_Z_plus, <- Zlt_Qlt in E.
          apply inject_Z_injective. lia.
        - apply Qlt_bool_false_iff in E. rewrite Hsps, Hi in E.
          rewrite Hsps. unfold Qminus in E.
          rewrite <- inject_Z_opp, <- inject_Z_plus, <- Zle_Qle in E.
          apply inject_Z_injective. lia. }
      assert (Hc1 : (1 <= count)%nat) by (unfold count; lia).
      assert (Hc2 : (first + count <= len)%nat) by (unfold count; lia).
      unfold createBuffer.
      rewrite (toUint32_inject _ count Hcount) by lia.
      replace ((nch =? 0)%nat || (count =? 0)%nat) with false.
      2:{ symmetry. apply orb_false_iff. split; apply Nat.eqb_neq; lia. }
      cbn [bind].
      assert (Hto : i + qmin (segmentDuration * sampleRate audioBuffer)
                              (inject_Z (Z.of_nat len) - i)
                    == inject_Z (Z.of_nat (first + count))).
      { rewrite Hcount, Hi, <- inject_Z_plus. apply inject_Z_injective. lia. }
      pose proof (copyChannels_piece i _ first count Hi Hto Hc2 nch 0
                    ltac:(lia)) as Hcopy.
      cbn [firstn map app] in Hcopy. rewrite Hcopy. cbn [bind].
      assert (Hnext : i + segmentDuration * sampleRate audioBuffer
                      == inject_Z (Z.of_nat (first + n))).
      { rewrite Hsps, Hi, <- inject_Z_plus. apply inject_Z_injective. lia. }
      destruct (IH (first + n)%nat _
                   (acc ++ [mkSegment (piece audioBuffer first count)
                                      (i / sampleRate audioBuffer)
                                      segmentDuration])
                   Hnext ltac:(lia)) as (segs & Hrun & Hbuf & Hdur).
      exists (mkSegment (piece audioBuffer first count)
                        (i / sampleRate audioBuffer) segmentDuration :: segs).
      rewrite Hrun, <- app_assoc. cbn [app map buffer].
      rewrite Hbuf. repeat split. constructor; [reflexivity | exact Hdur].
    + apply Nat.ltb_ge in Hlt.
      replace (Qlt_bool i (inject_Z (Z.of_nat len))) with false.
      * exists []. rewrite app_nil_r. repeat split. constructor.
      * symmetry. apply Qlt_bool_false_iff. rewrite Hi, <- Zle_Qle. lia.
Qed.

End SplitWholeFrames.

Lemma chunk_lengths_step (n r : nat) :
  (1 <= n)%nat -> (1 <= r)%nat ->
  chunk_lengths n r = Nat.min n r :: chunk_lengths n (r - n).
Proof.
  intros Hn Hr. unfold chunk_lengths.
  destruct (Nat.lt_ge_cases r n) as [Hlt | Hge].
  - rewrite (Nat.div_small r n) by exact Hlt.
    rewrite (Nat.mod_small r n) by exact Hlt.
    replace (r - n)%nat with 0%nat by lia.
    rewrite Nat.Div0.div_0_l, Nat.Div0.mod_0_l.
    replace (r =? 0)%nat with false by (symmetry; apply Nat.eqb_neq; lia).
    rewrite Nat.min_r by lia. reflexivity.
  - assert (Hd : (r / n = S ((r - n) / n))%nat).
    { replace r with ((r - n) + 1 * n)%nat at 1 by lia.
      rewrite Nat.div_add by lia. lia. }
    assert (Hm : (r mod n = (r - n) mod n)%nat).
    { replace r with ((r - n) + 1 * n)%nat at 1 by lia.
      apply Nat.Div0.mod_add. }
    rewrite Hd, Hm. cbn [repeat app]. rewrite Nat.min_l by lia.
    reflexivity.
Qed.

Lemma chunk_lengths_0 (n : nat) : chunk_lengths n 0 = [].
Proof.
  unfold chunk_lengths. rewrite Nat.Div0.div_0_l, Nat.Div0.mod_0_l.
  reflexivity.
Qed.

Lemma pieces_lengths (n : nat) (b : AudioBuffer) (fuel : nat) :
  (1 <= n)%nat ->
  forall first : nat,
    (length b < first + fuel)%nat ->
    map length (pieces fuel n b first) = chunk_lengths n (length b - first).
Proof.
  intro Hn. induction fuel as [| fuel IH]; intros first Hfuel.
  - cbn [pieces map]. replace (length b - first)%nat with 0%nat by lia.
    symmetry. apply chunk_lengths_0.
  - cbn [pieces]. destruct (first <? length b)%nat eqn:Hlt.
    + apply Nat.ltb_lt in Hlt. cbn [map piece length].
      rewrite IH by lia. rewrite (chunk_lengths_step n (length b - first))
        by lia.
      f_equal. f_equal. lia.
    + apply Nat.ltb_ge in Hlt. cbn [map].
      replace (length b - first)%nat with 0%nat by lia.
      symmetry. apply chunk_lengths_0.
Qed.

Lemma pieces_concat (n : nat) (b : AudioBuffer) (fuel : nat) :
  (1 <= n)%nat ->
  forall (channel : nat) (data : list sample),
    nth_error (channels b) channel = Some data ->
    List.length data = length b ->
    forall first : nat,
      (length b < first + fuel)%nat ->
      concat (map (fun p => nth channel (channels p) [])
                  (pieces fuel n b first))
      = skipn first data.
Proof.
  intros Hn channel data Hdata Hlen.
  induction fuel as [| fuel IH]; intros first Hfuel.
  - cbn [pieces map concat]. rewrite skipn_all2 by lia. reflexivity.
  - cbn [pieces]. destruct (first <? length b)%nat eqn:Hlt.
    + apply Nat.ltb_lt in Hlt. cbn [map concat piece channels].
      rewrite IH by lia.
      rewrite (nth_error_nth _ _ []
                 (map_nth_error
                    (fun data => firstn (Nat.min n (length b - first))
                                        (skipn first data))
                    _ _ Hdata)).
      destruct (Nat.le_gt_cases n (length b - first)) as [Hle | Hgt].
      * rewrite Nat.min_l by exact Hle.
        rewrite (Nat.add_comm first n), <- skipn_skipn.
        apply firstn_skipn.
      * rewrite Nat.min_r by lia.
        rewrite (skipn_all2 data (n:=first + n)) by lia.
        rewrite app_nil_r. apply firstn_all2. rewrite length_skipn. lia.
    + apply Nat.ltb_ge in Hlt. cbn [map concat].
      rewrite skipn_all2 by lia. reflexivity.
Qed.

(** Splitting at a whole number [n] of frames per segment: the loop
    returns, and its segments are the consecutive pieces of [n] frames. *)
Lemma split_whole_frames (segmentDuration : Q) (audioBuffer : AudioBuffer)
    (n : nat) :
  wf_buffer audioBuffer ->
  (1 <= n)%nat ->
  segmentDuration * sampleRate audioBuffer == inject_Z (Z.of_nat n) ->
  exists segs : list AudioSegment,
    splitAudioIntoSegments segmentDuration audioBuffer = Returns segs
    /\ map buffer segs = pieces (S (length audioBuffer)) n audioBuffer 0
    /\ map (fun s => length (buffer s)) segs
       = chunk_lengths n (length audioBuffer)
    /\ (forall (channel : nat) (data : list sample),
          nth_error (channels audioBuffer) channel = Some data ->
          concat (map (channel_of channel) segs) = data)
    /\ Forall (fun s => duration s = segmentDuration) segs.
Proof.
  intros Hwf Hn Hsps.
  destruct (splitLoop_pieces segmentDuration audioBuffer n Hwf Hn Hsps
              (S (length audioBuffer)) 0%nat 0 [] (Qeq_refl 0) ltac:(lia))
    as (segs & Hrun & Hbuf & Hdur).
  exists segs. cbn [app] in Hrun.
  split; [exact Hrun | split; [exact Hbuf | split; [| split]]].
  - rewrite <- (map_map buffer length), Hbuf.
    rewrite pieces_lengths by lia. f_equal. lia.
  - intros channel data Hdata.
    unfold channel_of.
    rewrite <- (map_map buffer (fun p => nth channel (channels p) [])), Hbuf.
    rewrite (pieces_concat n audioBuffer _ Hn channel data Hdata);
      [reflexivity | | lia].
    destruct Hwf as (_ & _ & Hall & _). rewrite Forall_forall in Hall.
    apply Hall. apply (nth_error_In _ _ Hdata).
  - exact Hdur.
Qed.

Lemma one_second_wf : wf_buffer one_second.
Proof.
  unfold wf_buffer. split; [reflexivity |].
  split; [cbn; lia |]. split.
  - apply Forall_cons; [| apply Forall_cons; [| apply Forall_nil]];
      apply Nat.eqb_eq; vm_compute; reflexivity.
  - apply Z.ltb_lt. vm_compute. reflexivity.
Qed.

(** One second at 44100 Hz and 0.5 s: 22050 frames a segment, all of it
    exact. *)
Lemma one_second_exact : exact_frames 0.5 one_second (Z.to_nat 22050).
Proof.
  split; [exact binary64_half |]. split.
  { exists 44100%Z, 0%Z. split; [reflexivity | split; [lia | reflexivity]]. }
  split; [lia |]. split; vm_compute; reflexivity.
Qed.




(** ** Reconstruction of a track *)

Lemma totalLength_sum (track : list AudioSegment) :
  totalLength track = list_sum (map (fun s => length (buffer s)) track).
Proof.
  unfold totalLength.
  assert (H : forall acc,
             fold_left (fun a s => (a + length (buffer s))%nat) track acc
             = (acc + list_sum (map (fun s => length (buffer s)) track))%nat).
  { induction track as [| s t IH]; intro acc; cbn [fold_left map];
      [cbn; lia |].
    rewrite IH. unfold list_sum. cbn [fold_right]. lia. }
  apply H.
Qed.

Lemma replace_nth_map_seq {A : Type} (old new : nat -> A) (k todo : nat) :
  replace_nth k (new k) (map new (seq 0 k) ++ map old (seq k (S todo)))
  = map new (seq 0 (S k)) ++ map old (seq (S k) todo).
Proof.
  change (seq k (S todo)) with (k :: seq (S k) todo). cbn [map].
  assert (Hk : List.length (map new (seq 0 k)) = k)
    by (rewrite length_map, length_seq; reflexivity).
  rewrite <- Hk at 1. rewrite replace_nth_app.
  rewrite seq_S, map_app, <- app_assoc. reflexivity.
Qed.

Lemma nth_error_map_seq {A : Type} (new old : nat -> A) (k todo : nat) :
  nth_error (map new (seq 0 k) ++ map old (seq k (S todo))) k = Some (old k).
Proof.
  rewrite nth_error_app2 by (rewrite length_map, length_seq; lia).
  rewrite length_map, length_seq, Nat.sub_diag. reflexivity.
Qed.

Lemma skipn_repeat_zeros {A : Type} (x : A) (k n : nat) :
  skipn k (repeat x n) = repeat x (n - k).
Proof.
  revert n. induction k as [| k IH]; intro n.
  - rewrite Nat.sub_0_r. reflexivity.
  - destruct n as [| n]; [reflexivity |]. cbn. apply IH.
Qed.

Section Reconstruct.

Variable rate : Q.
Variable nch : nat.

(** A segment with [nch] channels, each as long as its buffer says. *)
Let uniform (s : AudioSegment) : Prop :=
  List.length (channels (buffer s)) = nch
  /\ Forall (fun data => List.length data = length (buffer s))
            (channels (buffer s)).

Lemma uniform_channel (s : AudioSegment) (channel : nat) :
  uniform s -> (channel < nch)%nat ->
  getChannelData (buffer s) channel = Returns (channel_of channel s)
  /\ List.length (channel_of channel s) = length (buffer s).
Proof.
  intros [Hch Hall] Hlt. unfold getChannelData, channel_of.
  destruct (nth_error (channels (buffer s)) channel) as [data |] eqn:E;
    [| apply nth_error_None in E; lia].
  rewrite (nth_error_nth _ _ [] E). split; [reflexivity |].
  rewrite Forall_forall in Hall. apply Hall. apply (nth_error_In _ _ E).
Qed.

(** The channel loop writes the segment behind what is already there. *)
Lemma writeChannels_segment (s : AudioSegment) (total offset : nat)
    (pre : nat -> list sample) :
  uniform s ->
  (forall c, (c < nch)%nat -> List.length (pre c) = offset) ->
  (offset + length (buffer s) <= total)%nat ->
  forall todo k : nat,
    (k + todo = nch)%nat ->
    writeChannels
      (mkBuffer rate nch total
         (map (fun c => (pre c ++ channel_of c s)
                        ++ repeat 0 (total - offset - length (buffer s)))
              (seq 0 k)
          ++ map (fun c => pre c ++ repeat 0 (total - offset)) (seq k todo)))
      s offset (seq k todo)
    = Returns
        (mkBuffer rate nch total
           (map (fun c => (pre c ++ channel_of c s)
                          ++ repeat 0 (total - offset - length (buffer s)))
                (seq 0 nch))).
Proof.
  intros Hs Hpre Hfit.
  induction todo as [| todo IH]; intros k Hk.
  - cbn [seq map writeChannels]. rewrite app_nil_r.
    replace k with nch by lia. reflexivity.
  - cbn [seq writeChannels].
    change (k :: seq (S k) todo) with (seq k (S todo)).
    unfold getChannelData at 1. cbn [channels].
    rewrite nth_error_map_seq. cbn [bind].
    destruct (uniform_channel s k Hs ltac:(lia)) as [Hget Hlen].
    rewrite Hget. cbn [bind].
    unfold set.
    rewrite length_app, repeat_length, (Hpre k) by lia.
    rewrite Hlen.
    replace (offset + (total - offset)
             <? length (buffer s) + offset)%nat with false
      by (symmetry; apply Nat.ltb_ge; lia).
    cbn [bind]. unfold with_channel.
    cbn [sampleRate numberOfChannels length channels].
    rewrite <- (Hpre k) at 1 by lia.
    rewrite firstn_app, firstn_all, Nat.sub_diag, firstn_O, app_nil_r.
    rewrite skipn_app, (Hpre k) by lia.
    rewrite (skipn_all2 (pre k)) by (rewrite (Hpre k) by lia; lia).
    replace (offset + length (buffer s) - offset)%nat
      with (length (buffer s)) by lia.
    rewrite skipn_repeat_zeros. cbn [app].
    rewrite app_assoc.
    pose proof (replace_nth_map_seq
                  (fun c => pre c ++ repeat 0 (total - offset))
                  (fun c => (pre c ++ channel_of c s)
                            ++ repeat 0 (total - offset - length (buffer s)))
                  k todo) as Hrep.
    cbv beta in Hrep.
    etransitivity; [| apply (IH (S k)); lia].
    f_equal. f_equal. exact Hrep.
Qed.

(** The segment loop appends the segments in order. *)
Lemma writeSegments_concat (total : nat) (track : list AudioSegment) :
  Forall uniform track ->
  forall (offset : nat) (pre : nat -> list sample),
    (forall c, (c < nch)%nat -> List.length (pre c) = offset) ->
    (offset + list_sum (map (fun s => length (buffer s)) track)
     <= total)%nat ->
    writeSegments
      (mkBuffer rate nch total
         (map (fun c => pre c ++ repeat 0 (total - offset)) (seq 0 nch)))
      track offset nch
    = Returns
        (mkBuffer rate nch total
           (map (fun c =>
                   (pre c ++ concat (map (channel_of c) track))
                   ++ repeat 0
                        (total - offset
                         - list_sum (map (fun s => length (buffer s)) track)))
                (seq 0 nch))).
Proof.
  induction 1 as [| s track Hs Htrack IH]; intros offset pre Hpre Hfit.
  - cbn [writeSegments map concat].
    change (list_sum []) with 0%nat.
    f_equal. f_equal. apply map_ext. intro c.
    rewrite app_nil_r, Nat.sub_0_r. reflexivity.
  - cbn [map] in Hfit.
    change (list_sum (length (buffer s)
                      :: map (fun s => length (buffer s)) track))
      with (length (buffer s)
            + list_sum (map (fun s => length (buffer s)) track))%nat in Hfit.
    cbn [writeSegments].
    pose proof (writeChannels_segment s total offset pre Hs Hpre
                  ltac:(lia) nch 0 ltac:(lia)) as Hw.
    cbn [seq map app] in Hw. rewrite Hw. cbn [bind].
    specialize (IH (offset + length (buffer s))%nat
                   (fun c => pre c ++ channel_of c s)).
    replace (total - offset - length (buffer s))%nat
      with (total - (offset + length (buffer s)))%nat by lia.
    rewrite IH.
    + f_equal. f_equal. apply map_ext. intro c.
      cbn [map concat].
      change (list_sum (length (buffer s)
                        :: map (fun s => length (buffer s)) track))
        with (length (buffer s)
              + list_sum (map (fun s => length (buffer s)) track))%nat.
      rewrite <- !app_assoc.
      f_equal. f_equal. f_equal. f_equal. lia.
    + intros c Hc. rewrite length_app, (Hpre c Hc).
      f_equal. apply (uniform_channel s c Hs Hc).
    + lia.
Qed.

(** Reconstruction joins the channels of the segments. *)
Lemma reconstruct_concat (firstSegment : AudioSegment)
    (track : list AudioSegment) :
  sampleRate (buffer firstSegment) = rate ->
  numberOfChannels (buffer firstSegment) = nch ->
  (1 <= nch)%nat ->
  Forall uniform track ->
  (1 <= totalLength track)%nat ->
  (Z.of_nat (totalLength track) < 2 ^ 32)%Z ->
  reconstruct firstSegment track
  = Returns (mkBuffer rate nch (totalLength track)
               (map (fun c => concat (map (channel_of c) track))
                    (seq 0 nch))).
Proof.
  intros Hrate Hch Hnch Huni Hpos Hsmall.
  unfold reconstruct. rewrite Hrate, Hch. unfold createBuffer.
  rewrite (toUint32_inject _ (totalLength track) (Qeq_refl _) Hsmall).
  replace ((nch =? 0)%nat || (totalLength track =? 0)%nat) with false.
  2:{ symmetry. apply orb_false_iff. split; apply Nat.eqb_neq; lia. }
  cbn [bind].
  pose proof (writeSegments_concat (totalLength track) track Huni 0
                (fun _ => []) (fun _ _ => eq_refl)) as Hw.
  rewrite <- totalLength_sum in Hw. specialize (Hw ltac:(lia)).
  assert (Hzero : forall from,
             map (fun _ : nat => [] ++ repeat (0 : sample)
                                          (totalLength track - 0))
                 (seq from nch)
             = repeat (repeat 0 (totalLength track)) nch).
  { clear. induction nch as [| k IH]; intro from; [reflexivity |].
    cbn [seq map repeat app]. rewrite IH, Nat.sub_0_r. reflexivity. }
  etransitivity.
  { etransitivity; [| exact Hw]. f_equal. f_equal. symmetry. apply Hzero. }
  f_equal. f_equal. apply map_ext. intro c. cbn [app].
  replace (totalLength track - 0 - totalLength track)%nat with 0%nat by lia.
  apply app_nil_r.
Qed.

End Reconstruct.

(** ** Re-segmentation at a whole number of frames *)

Lemma pieces_uniform (n : nat) (b : AudioBuffer) (fuel : nat) :
  wf_buffer b ->
  forall first : nat,
    Forall (fun p =>
              sampleRate p = sampleRate b
              /\ numberOfChannels p = numberOfChannels b
              /\ List.length (channels p) = numberOfChannels b
              /\ Forall (fun data => List.length data = length p)
                        (channels p))
           (pieces fuel n b first).
Proof.
  intros (Hch & _ & Hall & _).
  induction fuel as [| fuel IH]; intro first; cbn [pieces]; [constructor |].
  destruct (first <? length b)%nat eqn:Hlt; [| constructor].
  apply Nat.ltb_lt in Hlt. constructor; [| apply IH].
  unfold piece. cbn [sampleRate numberOfChannels channels length].
  repeat split.
  - rewrite length_map. exact Hch.
  - rewrite Forall_map. rewrite Forall_forall in *. intros data Hin.
    rewrite length_firstn, length_skipn, (Hall data Hin). lia.
Qed.

Lemma pieces_total (n : nat) (b : AudioBuffer) (fuel : nat) :
  (1 <= n)%nat ->
  forall first : nat,
    (length b < first + fuel)%nat ->
    list_sum (map length (pieces fuel n b first)) = (length b - first)%nat.
Proof.
  intro Hn. induction fuel as [| fuel IH]; intros first Hfuel.
  - cbn. lia.
  - cbn [pieces]. destruct (first <? length b)%nat eqn:Hlt.
    + apply Nat.ltb_lt in Hlt. cbn [map piece length].
      change (list_sum (?x :: ?l)) with (x + list_sum l)%nat.
      rewrite IH by lia. lia.
    + apply Nat.ltb_ge in Hlt. cbn. lia.
Qed.

Lemma map_nth_seq {A : Type} (l : list A) (d : A) :
  map (fun i => nth i l d) (seq 0 (List.length l)) = l.
Proof.
  induction l as [| x t IH]; [reflexivity |].
  cbn [List.length seq map nth]. f_equal.
  rewrite <- seq_shift, map_map. exact IH.
Qed.

(** Joining the consecutive pieces of a buffer gives back the buffer. *)
Lemma reconstruct_pieces (n : nat) (b : AudioBuffer)
    (track : list AudioSegment) :
  wf_buffer b -> (1 <= length b)%nat -> cut_every n b track ->
  exists (firstSegment : AudioSegment) (rest : list AudioSegment),
    track = firstSegment :: rest
    /\ reconstruct firstSegment track = Returns b.
Proof.
  intros Hwf Hpos (Hn & Hbuf).
  assert (Hcat : forall (channel : nat) (data : list sample),
             nth_error (channels b) channel = Some data ->
             concat (map (channel_of channel) track) = data).
  { intros channel data Hdata. unfold channel_of.
    rewrite <- (map_map buffer (fun p => nth channel (channels p) [])), Hbuf.
    rewrite (pieces_concat n b _ Hn channel data Hdata);
      [reflexivity | | lia].
    destruct Hwf as (_ & _ & Hall & _). rewrite Forall_forall in Hall.
    apply Hall. apply (nth_error_In _ _ Hdata). }
  pose proof (pieces_uniform n b (S (length b)) Hwf 0) as Huni.
  rewrite <- Hbuf in Huni. rewrite Forall_map in Huni.
  assert (Htotal : totalLength track = length b).
  { rewrite totalLength_sum, <- (map_map buffer length), Hbuf.
    rewrite pieces_total by lia. lia. }
  destruct track as [| s0 rest].
  { rewrite totalLength_sum in Htotal. cbn in Htotal. lia. }
  exists s0, rest. split; [reflexivity |].
  pose proof Hwf as (Hch & Hnch & Hall & Hsmall).
  pose proof (Forall_inv Huni) as (Hr0 & Hc0 & _).
  rewrite (reconstruct_concat (sampleRate b) (numberOfChannels b) s0
             (s0 :: rest) Hr0 Hc0 Hnch).
  - rewrite Htotal. destruct b as [rate nch len chans].
    cbn [sampleRate numberOfChannels length channels] in *.
    f_equal. f_equal.
    transitivity (map (fun i => nth i chans []) (seq 0 (List.length chans)));
      [| apply map_nth_seq].
    rewrite Hch. apply map_ext_in. intros c Hc. apply in_seq in Hc.
    destruct (nth_error chans c) as [data |] eqn:E;
      [| apply nth_error_None in E; lia].
    rewrite (Hcat c data E). symmetry. apply (nth_error_nth _ _ _ E).
  - eapply Forall_impl; [| exact Huni]. intros s (_ & _ & H1 & H2).
    split; assumption.
  - rewrite Htotal. exact Hpos.
  - rewrite Htotal. exact Hsmall.
Qed.

(** Splitting at a whole number of frames cuts the buffer every [n]
    frames. *)
Lemma split_resegmented (d : Q) (b : AudioBuffer) (n : nat) :
  wf_buffer b -> exact_frames d b n ->
  exists segs : list AudioSegment,
    splitAudioIntoSegments d b = Returns segs /\ resegmented d b segs.
Proof.
  intros Hwf Hex. pose proof Hex as (_ & _ & Hn & _ & Hsps).
  destruct (split_whole_frames d b n Hwf Hn Hsps)
    as (segs & Hrun & Hbuf & _ & _ & Hdur).
  exists segs. split; [exact Hrun |]. exists n.
  split; [exact Hex | split; [split; [exact Hn | exact Hbuf] | exact Hdur]].
Qed.

Lemma reprocessLoop_resegments (d : Q) (bs : list AudioBuffer) :
  forall (tracks : list (list AudioSegment)) (m : Manager),
    segmentDuration m = d ->
    Forall2 (fun b track => exists n : nat, cut_every n b track) bs tracks ->
    Forall (fun b => wf_buffer b /\ (1 <= length b)%nat
                     /\ exists n : nat, exact_frames d b n) bs ->
    exists new : list (list AudioSegment),
      Forall2 (resegmented d) bs new
      /\ audioTracks (fst (reprocessLoop tracks m)) = audioTracks m ++ new
      /\ snd (reprocessLoop tracks m) = Resolved.
Proof.
  induction bs as [| b bs IH]; intros tracks m Hm Htracks Hbs.
  - inversion Htracks. exists []. cbn. rewrite app_nil_r.
    repeat split. constructor.
  - destruct tracks as [| track rest]; [inversion Htracks |].
    apply Forall2_cons_iff in Htracks.
    destruct Htracks as [(n1 & Hcut) Hrest].
    apply Forall_cons_iff in Hbs.
    destruct Hbs as [(Hwf & Hpos & n2 & Hex) Hbs'].
    destruct (reconstruct_pieces n1 b track Hwf Hpos Hcut)
      as (s0 & tl & -> & Hrec).
    cbn [reprocessLoop]. rewrite Hrec. cbn [bind]. rewrite Hm.
    destruct (split_resegmented d b n2 Hwf Hex) as (segs2 & Hrun2 & Hres2).
    rewrite Hrun2.
    set (m' := set_tracks m (audioTracks m ++ [segs2]) _).
    destruct (IH rest m' Hm Hrest Hbs') as (new & Hnew2 & Haudio & Hsnd).
    exists (segs2 :: new). split; [| split].
    + constructor; [exact Hres2 | exact Hnew2].
    + rewrite Haudio. unfold m'. cbn [audioTracks set_tracks].
      rewrite <- app_assoc. reflexivity.
    + exact Hsnd.
Qed.

(** X13.  Re-segmentation at whole frames loses nothing.  When every
    track holds a buffer cut into consecutive pieces of a whole number
    of frames, and the new segment duration and the sample rate of each
    buffer are binary64 numbers whose product is a whole number of
    frames, [setSegmentDuration] replaces each track by the same buffer
    cut at the new number of frames, each segment recording the new
    duration: the round trip through the segments loses nothing. *)
Theorem setSegmentDuration_whole_frames (d : Q) (m : Manager)
    (bs : list AudioBuffer)
    (Hd : 0 < d)
    (Htracks : Forall2 (fun b track => exists n : nat, cut_every n b track)
                       bs (audioTracks m))
    (Hbs : Forall (fun b => wf_buffer b /\ (1 <= length b)%nat
                            /\ exists n : nat, exact_frames d b n) bs) :
  Forall2 (resegmented d) bs (audioTracks (setSegmentDuration d m))
  /\ segmentDuration (setSegmentDuration d m) = d.
Proof.
  unfold setSegmentDuration.
  replace (Qlt_bool 0 d) with true by (symmetry; apply Qlt_bool_iff; exact Hd).
  unfold reprocessTracks.
  destruct (reprocessLoop_resegments d bs
              (audioTracks (set_segmentDuration m d))
              (set_tracks (set_segmentDuration m d) [] []) eq_refl Htracks Hbs)
    as (new & Hnew & Haudio & Hsnd).
  rewrite Haudio. cbn [audioTracks set_tracks app]. split; [exact Hnew |].
  assert (H : forall tracks m0,
             segmentDuration (fst (reprocessLoop tracks m0))
             = segmentDuration m0).
  { clear. induction tracks as [| track tracks IH]; intro m0; [reflexivity |].
    cbn [reprocessLoop]. destruct track as [| s0 tl]; [apply IH |].
    destruct (bind _ _); try reflexivity. rewrite IH. reflexivity. }
  rewrite H. reflexivity.
Qed.

(** C5, the failing input.  The track of one second at 44100 Hz is
    re-segmented at 0.333 s, that is 14685.3 frames a segment.  The
    fourth segment is created with 44 frames and handed a slice of 45:
    [set] throws, the promise of [reprocessTracks] is rejected, and the
    track is gone from the store.  At 0.5 s (22050 frames) the same
    track becomes two segments of 0.5 s. *)
Theorem fractional_resegmentation_loses_track :
  map (map audio_seconds) (audioTracks one_track) = [[0.3; 0.3; 0.3; 0.1]]
  /\ snd (reprocessTracks (set_segmentDuration one_track 0.333))
     = Rejected RangeError
  /\ audioTracks (setSegmentDuration 0.333 one_track) = []
  /\ segments (setSegmentDuration 0.333 one_track) = []
  /\ map (map audio_seconds) (audioTracks (setSegmentDuration 0.5 one_track))
     = [[1 # 2; 1 # 2]]
  /\ map (map duration) (audioTracks (setSegmentDuration 0.5 one_track))
     = [[0.5; 0.5]].
Proof.
  split; [vm_compute; reflexivity |].
  split; [vm_compute; reflexivity |].
  split; [vm_compute; reflexivity |].
  split; [vm_compute; reflexivity |].
  split; vm_compute; reflexivity.
Qed.

(** ** Further properties of splitting and re-segmentation *)

Lemma splitAudioIntoSegments_ends_witness :
  0 < 0.3 /\ 0 < sampleRate ten_frames
  /\ splitAudioIntoSegments 0.3 ten_frames <> Spins.
Proof.
  assert (Hd : 0 < 0.3) by reflexivity.
  assert (Hr : 0 < sampleRate ten_frames) by reflexivity.
  split; [exact Hd | split; [exact Hr |]].
  exact (splitAudioIntoSegments_ends 0.3 ten_frames Hd Hr).
Defined.

(** The track of [one_track] is the second of audio cut every 13230
    frames. *)
Lemma one_track_cut :
  Forall2 (fun b track => exists n : nat, cut_every n b track)
          [one_second] (audioTracks one_track).
Proof.
  assert (Hsps : 0.3 * sampleRate one_second
                 == inject_Z (Z.of_nat (Z.to_nat 13230)))
    by (vm_compute; reflexivity).
  destruct (split_whole_frames 0.3 one_second (Z.to_nat 13230) one_second_wf
              ltac:(lia) Hsps) as (segs & Hrun & Hbuf & _).
  assert (E : audioTracks one_track = [segs]).
  { unfold one_track, processAudioFile.
    cbn [isValidAudioFormat one_second_file type decoded negb construct
         audioTracks List.length set_processing segmentDuration bind].
    replace (isValidAudioFormat one_second_file) with true by reflexivity.
    cbn [negb MAX_TRACKS Nat.leb List.length]. rewrite Hrun. reflexivity. }
  rewrite E. constructor; [| constructor].
  exists (Z.to_nat 13230). split; [lia | exact Hbuf].
Qed.

Lemma setSegmentDuration_whole_frames_witness :
  0 < 0.5
  /\ Forall2 (fun b track => exists n : nat, cut_every n b track)
             [one_second] (audioTracks one_track)
  /\ Forall (fun b => wf_buffer b /\ (1 <= length b)%nat
                      /\ exists n : nat, exact_frames 0.5 b n) [one_second]
  /\ Forall2 (resegmented 0.5) [one_second]
             (audioTracks (setSegmentDuration 0.5 one_track)).
Proof.
  assert (Hd : 0 < 0.5) by reflexivity.
  assert (Hb : Forall (fun b => wf_buffer b /\ (1 <= length b)%nat
                                /\ exists n : nat, exact_frames 0.5 b n)
                      [one_second]).
  { constructor; [| constructor].
    split; [exact one_second_wf | split].
    - apply Nat.leb_le. vm_compute. reflexivity.
    - exists (Z.to_nat 22050). exact one_second_exact. }
  split; [exact Hd | split; [exact one_track_cut | split; [exact Hb |]]].
  exact (proj1 (setSegmentDuration_whole_frames 0.5 one_track [one_second]
                  Hd one_track_cut Hb)).
Defined.

(** X14.  Joining the segments undoes the split.  A buffer of at least
    one frame, split at a segment duration that is, like the sample
    rate, a binary64 number and makes a whole number of frames, gives a
    track with a first segment, and the reconstruction that
    [reprocessTracks] makes of that track is the buffer itself. *)
Theorem reconstruct_inverts_split (d : Q) (b : AudioBuffer) (n : nat)
    (Hwf : wf_buffer b)
    (Hlen : (1 <= length b)%nat)
    (Hexact : exact_frames d b n) :
  exists (firstSegment : AudioSegment) (rest : list AudioSegment),
    splitAudioIntoSegments d b = Returns (firstSegment :: rest)
    /\ reconstruct firstSegment (firstSegment :: rest) = Returns b.
Proof.
  destruct (split_resegmented d b n Hwf Hexact)
    as (segs & Hsplit & n' & _ & Hcut & _).
  destruct (reconstruct_pieces n' b segs Hwf Hlen Hcut)
    as (f & rest & -> & Hrec).
  exists f, rest. split; assumption.
Qed.

Lemma reconstruct_inverts_split_witness :
  wf_buffer one_second
  /\ (1 <= length one_second)%nat
  /\ exact_frames 0.5 one_second (Z.to_nat 22050)
  /\ exists (firstSegment : AudioSegment) (rest : list AudioSegment),
       splitAudioIntoSegments 0.5 one_second = Returns (firstSegment :: rest)
       /\ reconstruct firstSegment (firstSegment :: rest) = Returns one_second.
Proof.
  assert (Hlen : (1 <= length one_second)%nat).
  { apply Nat.leb_le. vm_compute. reflexivity. }
  split; [exact one_second_wf | split; [exact Hlen |]].
  split; [exact one_second_exact |].
  exact (reconstruct_inverts_split 0.5 one_second (Z.to_nat 22050)
           one_second_wf Hlen one_second_exact).
Defined.

Lemma toUint32_below_one (q : Q) : 0 < q -> q < 1 -> toUint32 q = 0%nat.
Proof.
  intros H0 H1. unfold toUint32, toInteger.
  destruct q as [a b]. unfold Qlt in *. cbn [Qnum Qden] in *.
  assert (Ha : (0 < a < Zpos b)%Z) by lia.
  rewrite Z.quot_small by lia. reflexivity.
Qed.

(** X15.  A segment shorter than one frame cannot be cut.  When the
    segment duration times the sample rate lies strictly between 0 and
    1, splitting a buffer of at least one frame throws
    [NotSupportedError], and a valid file that decodes to such a buffer
    is rejected by [processAudioFile], which leaves the tracks and the
    active segments as they were and is no longer processing. *)
Theorem split_below_one_frame (file : File) (b : AudioBuffer) (m : Manager)
    (Hlow : 0 < segmentDuration m * sampleRate b)
    (Hhigh : segmentDuration m * sampleRate b < 1)
    (Hlen : (1 <= length b)%nat)
    (Hvalid : isValidAudioFormat file = true)
    (Hroom : (List.length (audioTracks m) < MAX_TRACKS)%nat)
    (Hdec : decoded file = Some b) :
  splitAudioIntoSegments (segmentDuration m) b = Throws NotSupportedError
  /\ snd (processAudioFile file m)
     = Rejected (FailedToProcess NotSupportedError)
  /\ audioTracks (fst (processAudioFile file m)) = audioTracks m
  /\ segments (fst (processAudioFile file m)) = segments m
  /\ isProcessing (fst (processAudioFile file m)) = false.
Proof.
  assert (Hsplit : splitAudioIntoSegments (segmentDuration m) b
                   = Throws NotSupportedError).
  { unfold splitAudioIntoSegments. cbn [splitLoop].
    assert (Hi : Qlt_bool 0 (inject_Z (Z.of_nat (length b))) = true).
    { apply Qlt_bool_iff. unfold Qlt. cbn. lia. }
    rewrite Hi.
    assert (Hmin : qmin (segmentDuration m * sampleRate b)
                        (inject_Z (Z.of_nat (length b)) - 0)
                   = segmentDuration m * sampleRate b).
    { unfold qmin.
      assert (E : Qlt_bool (inject_Z (Z.of_nat (length b)) - 0)
                           (segmentDuration m * sampleRate b) = false).
      { apply Qlt_bool_false_iff.
        apply Qle_trans with 1; [apply Qlt_le_weak; exact Hhigh |].
        unfold Qle, Qminus, Qplus, Qopp, inject_Z. cbn. lia. }
      rewrite E. reflexivity. }
    rewrite Hmin. unfold createBuffer.
    rewrite (toUint32_below_one _ Hlow Hhigh).
    rewrite Nat.eqb_refl, orb_true_r. reflexivity. }
  split; [exact Hsplit |].
  unfold processAudioFile. rewrite Hvalid. cbn [negb].
  apply Nat.leb_gt in Hroom. rewrite Hroom. rewrite Hdec.
  cbn [bind set_processing segmentDuration]. rewrite Hsplit.
  repeat split.
Qed.

Lemma split_below_one_frame_witness :
  0 < segmentDuration (setSegmentDuration 0.05 (construct false))
      * sampleRate ten_frames
  /\ segmentDuration (setSegmentDuration 0.05 (construct false))
     * sampleRate ten_frames < 1
  /\ snd (processAudioFile ten_frames_file
            (setSegmentDuration 0.05 (construct false)))
     = Rejected (FailedToProcess NotSupportedError).
Proof.
  assert (Hlow : 0 < segmentDuration (setSegmentDuration 0.05 (construct false))
                     * sampleRate ten_frames) by reflexivity.
  assert (Hhigh : segmentDuration (setSegmentDuration 0.05 (construct false))
                  * sampleRate ten_frames < 1) by reflexivity.
  split; [exact Hlow | split; [exact Hhigh |]].
  refine (proj1 (proj2 (split_below_one_frame ten_frames_file ten_frames
                          (setSegmentDuration 0.05 (construct false))
                          Hlow Hhigh _ eq_refl _ eq_refl))).
  - cbn. lia.
  - cbn. unfold MAX_TRACKS. lia.
Defined.

(** X16.  A well-formed file is accepted when there is room.  A file of
    a valid format that decodes to a well-formed buffer, handed to a
    manager with a free place whose segment duration is, like the sample
    rate of the buffer, a binary64 number and makes a whole number [n]
    of frames of it, resolves: one track is appended, of segments of [n]
    frames followed by the remainder, which hold the samples of the
    buffer in order. *)
Theorem processAudioFile_accepts (file : File) (b : AudioBuffer) (n : nat)
    (m : Manager)
    (Hvalid : isValidAudioFormat file = true)
    (Hroom : (List.length (audioTracks m) < MAX_TRACKS)%nat)
    (Hdec : decoded file = Some b)
    (Hwf : wf_buffer b)
    (Hexact : exact_frames (segmentDuration m) b n) :
  exists newSegments : list AudioSegment,
    snd (processAudioFile file m) = Resolved
    /\ audioTracks (fst (processAudioFile file m))
       = audioTracks m ++ [newSegments]
    /\ map (fun s => length (buffer s)) newSegments
       = chunk_lengths n (length b)
    /\ (forall (channel : nat) (data : list sample),
          nth_error (channels b) channel = Some data ->
          concat (map (channel_of channel) newSegments) = data).
Proof.
  destruct Hexact as (_ & _ & Hn & _ & Hsps).
  destruct (split_whole_frames (segmentDuration m) b n Hwf Hn Hsps)
    as (segs & Hsplit & _ & Hlen & Hdata & _).
  exists segs. unfold processAudioFile. rewrite Hvalid. cbn [negb].
  apply Nat.leb_gt in Hroom. rewrite Hroom, Hdec.
  cbn [bind set_processing segmentDuration]. rewrite Hsplit.
  split; [reflexivity |]. split; [| split; [exact Hlen | exact Hdata]].
  destruct (suspended _); reflexivity.
Qed.

(** The second of audio at 44100 Hz, handed to an empty manager whose
    segment duration was set to 0.5 s. *)
Lemma processAudioFile_accepts_witness :
  isValidAudioFormat one_second_file = true
  /\ (List.length (audioTracks half_second) < MAX_TRACKS)%nat
  /\ decoded one_second_file = Some one_second
  /\ wf_buffer one_second
  /\ exact_frames (segmentDuration half_second) one_second (Z.to_nat 22050)
  /\ exists newSegments : list AudioSegment,
       snd (processAudioFile one_second_file half_second) = Resolved
       /\ map (fun s => length (buffer s)) newSegments
          = chunk_lengths (Z.to_nat 22050) (length one_second).
Proof.
  assert (Hv : isValidAudioFormat one_second_file = true)
    by (vm_compute; reflexivity).
  assert (Hroom : (List.length (audioTracks half_second) < MAX_TRACKS)%nat).
  { apply Nat.ltb_lt. vm_compute. reflexivity. }
  assert (Hdec : decoded one_second_file = Some one_second) by reflexivity.
  assert (Hex : exact_frames (segmentDuration half_second) one_second
                             (Z.to_nat 22050)).
  { replace (segmentDuration half_second) with 0.5 by reflexivity.
    exact one_second_exact. }
  split; [exact Hv | split; [exact Hroom | split; [exact Hdec |]]].
  split; [exact one_second_wf | split; [exact Hex |]].
  destruct (processAudioFile_accepts one_second_file one_second
              (Z.to_nat 22050) half_second Hv Hroom Hdec one_second_wf Hex)
    as (new & H1 & _ & H3 & _).
  exists new. split; assumption.
Defined.

(** ** The track store *)

(** X17.  A rejected file changes nothing that plays.  When
    [processAudioFile] rejects, the tracks, the active segments, the
    indices and the source nodes are what they were; the manager is
    either untouched or no longer processing. *)
Theorem processAudioFile_rejected_keeps_store (file : File) (m : Manager)
    (e : Error)
    (Hrej : snd (processAudioFile file m) = Rejected e) :
  audioTracks (fst (processAudioFile file m)) = audioTracks m
  /\ segments (fst (processAudioFile file m)) = segments m
  /\ currentTrackIndex (fst (processAudioFile file m)) = currentTrackIndex m
  /\ currentSegmentIndex (fst (processAudioFile file m))
     = currentSegmentIndex m
  /\ sources (fst (processAudioFile file m)) = sources m
  /\ (fst (processAudioFile file m) = m
      \/ isProcessing (fst (processAudioFile file m)) = false).
Proof.
  revert Hrej. unfold processAudioFile.
  destruct (negb (isValidAudioFormat file)).
  { intros _. cbn [fst]. repeat split. left. reflexivity. }
  destruct (MAX_TRACKS <=? List.length (audioTracks m))%nat.
  { intros _. cbn [fst]. repeat split. left. reflexivity. }
  destruct (decoded file) as [b |]; cbn [bind].
  - destruct (splitAudioIntoSegments _ b) as [new | err |].
    + destruct (suspended _); cbn [snd]; discriminate.
    + intros _. cbn [fst]. repeat split. right. reflexivity.
    + cbn [snd]. discriminate.
  - intros _. cbn [fst]. repeat split. right. reflexivity.
Qed.

Lemma processAudioFile_rejected_keeps_store_witness :
  snd (processAudioFile video_file small_track)
  = Rejected InvalidAudioFormat
  /\ audioTracks
       (fst (processAudioFile video_file
               small_track))
     = audioTracks small_track.
Proof.
  split; [reflexivity |].
  exact (proj1 (processAudioFile_rejected_keeps_store
                  video_file small_track
                  InvalidAudioFormat eq_refl)).
Defined.

(** X18.  A resolved file adds exactly one track.  When
    [processAudioFile] resolves, the file was of a valid format and
    decoded, there was room, and the track appended is the split of the
    decoded buffer at the current segment duration; it becomes the
    active one only if it is the first, and the manager is left not
    processing, its context running. *)
Theorem processAudioFile_resolved_adds_track (file : File) (m : Manager)
    (Hres : snd (processAudioFile file m) = Resolved) :
  exists (b : AudioBuffer) (newSegments : list AudioSegment),
    isValidAudioFormat file = true
    /\ (List.length (audioTracks m) < MAX_TRACKS)%nat
    /\ decoded file = Some b
    /\ splitAudioIntoSegments (segmentDuration m) b = Returns newSegments
    /\ audioTracks (fst (processAudioFile file m))
       = audioTracks m ++ [newSegments]
    /\ segments (fst (processAudioFile file m))
       = match audioTracks m with
         | [] => newSegments
         | _ :: _ => segments m
         end
    /\ isProcessing (fst (processAudioFile file m)) = false
    /\ suspended (fst (processAudioFile file m)) = false
    /\ currentTrackIndex (fst (processAudioFile file m))
       = currentTrackIndex m
    /\ currentSegmentIndex (fst (processAudioFile file m))
       = currentSegmentIndex m.
Proof.
  revert Hres. unfold processAudioFile.
  destruct (isValidAudioFormat file); cbn [negb]; [| discriminate].
  destruct (MAX_TRACKS <=? List.length (audioTracks m))%nat eqn:Eroom;
    [discriminate |].
  apply Nat.leb_gt in Eroom.
  destruct (decoded file) as [b |]; cbn [bind]; [| discriminate].
  cbn [set_processing segmentDuration].
  destruct (splitAudioIntoSegments (segmentDuration m) b) as [new | err |]
    eqn:Esplit; [| discriminate | discriminate].
  intros _. exists b, new.
  split; [reflexivity | split; [exact Eroom | split; [reflexivity |]]].
  split; [exact Esplit |].
  cbn [set_tracks set_processing audioTracks segments suspended isProcessing
       currentTrackIndex currentSegmentIndex].
  assert (Hseg : (if (List.length (audioTracks m ++ [new]) =? 1)%nat
                  then new else segments m)
                 = match audioTracks m with
                   | [] => new
                   | _ :: _ => segments m
                   end).
  { destruct (audioTracks m) as [| t l]; [reflexivity |].
    cbn [app List.length]. rewrite length_app. cbn [List.length].
    replace (S (List.length l + 1)) with (S (S (List.length l))) by lia.
    reflexivity. }
  destruct (suspended _) eqn:Es;
    cbn [fst resume audioTracks segments isProcessing suspended
         currentTrackIndex currentSegmentIndex];
    rewrite Hseg; repeat split; exact Es.
Qed.

Lemma processAudioFile_resolved_adds_track_witness :
  snd (processAudioFile ten_frames_file small_track) = Resolved
  /\ exists (b : AudioBuffer) (newSegments : list AudioSegment),
       decoded ten_frames_file = Some b
       /\ audioTracks (fst (processAudioFile ten_frames_file small_track))
          = audioTracks small_track ++ [newSegments].
Proof.
  split; [reflexivity |].
  destruct (processAudioFile_resolved_adds_track ten_frames_file small_track
              eq_refl)
    as (b & new & _ & _ & Hd & _ & Ht & _).
  exists b, new. split; assumption.
Defined.

Lemma reprocessLoop_shape (oldTracks : list (list AudioSegment)) :
  forall m : Manager,
    segments m = hd [] (audioTracks m) ->
    let m' := fst (reprocessLoop oldTracks m) in
    segments m' = hd [] (audioTracks m')
    /\ currentTrackIndex m' = currentTrackIndex m
    /\ currentSegmentIndex m' = currentSegmentIndex m
    /\ segmentDuration m' = segmentDuration m
    /\ sources m' = sources m
    /\ (List.length (audioTracks m')
        <= List.length (audioTracks m) + List.length oldTracks)%nat.
Proof.
  induction oldTracks as [| track rest IH]; intros m Hm; cbv zeta;
    cbn [reprocessLoop].
  - cbn [fst]. repeat split; [exact Hm | lia].
  - destruct track as [| firstSegment more].
    + destruct (IH m Hm) as (H1 & H2 & H3 & H4 & H5 & H6).
      repeat split; try assumption. cbn [List.length]. lia.
    + destruct (bind _ _) as [new | e |].
      * match goal with |- context [reprocessLoop rest ?x] =>
          set (m1 := x) end.
        assert (Hm1 : segments m1 = hd [] (audioTracks m1)).
        { unfold m1. cbn [set_tracks segments audioTracks].
          destruct (audioTracks m) as [| t l] eqn:E; [reflexivity |].
          cbn [app List.length hd]. rewrite length_app. cbn [List.length].
          replace (S (List.length l + 1)) with (S (S (List.length l)))
            by lia.
          cbn [Nat.eqb]. rewrite Hm. reflexivity. }
        destruct (IH m1 Hm1) as (H1 & H2 & H3 & H4 & H5 & H6).
        repeat split; try assumption.
        assert (E : List.length (audioTracks m1)
                    = S (List.length (audioTracks m))).
        { unfold m1. cbn [set_tracks audioTracks]. rewrite length_app.
          cbn [List.length]. lia. }
        rewrite E in H6. cbn [List.length]. lia.
      * cbn [fst]. repeat split; [exact Hm | cbn [List.length]; lia].
      * cbn [fst]. repeat split; [exact Hm | cbn [List.length]; lia].
Qed.

(** X19.  Re-segmentation plays the first track.  After
    [setSegmentDuration] with a positive duration, whether or not the
    re-segmentation went through, the active segments are those of the
    first track left (none if no track is left), while the index of the
    current track and the index of the current segment are what they
    were; no track is added. *)
Theorem setSegmentDuration_activates_first_track (d : Q) (m : Manager)
    (Hd : 0 < d) :
  segments (setSegmentDuration d m)
  = hd [] (audioTracks (setSegmentDuration d m))
  /\ currentTrackIndex (setSegmentDuration d m) = currentTrackIndex m
  /\ currentSegmentIndex (setSegmentDuration d m) = currentSegmentIndex m
  /\ segmentDuration (setSegmentDuration d m) = d
  /\ (List.length (audioTracks (setSegmentDuration d m))
      <= List.length (audioTracks m))%nat.
Proof.
  unfold setSegmentDuration. apply Qlt_bool_iff in Hd. rewrite Hd.
  unfold reprocessTracks.
  destruct (reprocessLoop_shape
              (audioTracks (set_segmentDuration m d))
              (set_tracks (set_segmentDuration m d) [] []) eq_refl)
    as (H1 & H2 & H3 & H4 & H5 & H6).
  repeat split; assumption.
Qed.

Lemma setSegmentDuration_activates_first_track_witness :
  0 < 0.5
  /\ currentTrackIndex second_selected = 1%nat
  /\ currentTrackIndex (setSegmentDuration 0.5 second_selected) = 1%nat
  /\ segments (setSegmentDuration 0.5 second_selected)
     = hd [] (audioTracks (setSegmentDuration 0.5 second_selected)).
Proof.
  assert (Hd : 0 < 0.5) by reflexivity.
  split; [exact Hd |].
  split; [vm_compute; reflexivity | split; [vm_compute; reflexivity |]].
  exact (proj1 (setSegmentDuration_activates_first_track 0.5 second_selected
                  Hd)).
Defined.

(** ** Choosing and removing tracks *)

Lemma stopCurrent_triggers (m : Manager) :
  List.length (filter started (stopCurrent m)) = triggers m.
Proof.
  unfold stopCurrent, triggers. destruct (currentSource m);
    [apply triggers_update_stop | reflexivity].
Qed.

Lemma randomIndex_in_range (random : Q) (n : nat) :
  0 <= random -> random < 1 -> (1 <= n)%nat ->
  (Z.to_nat (Qfloor (random * inject_Z (Z.of_nat n))) < n)%nat.
Proof.
  intros H0 H1 Hn.
  assert (Hpos : 0 < inject_Z (Z.of_nat n)).
  { unfold Qlt. cbn. lia. }
  assert (Hlo : (0 <= Qfloor (random * inject_Z (Z.of_nat n)))%Z).
  { rewrite <- (Qfloor_Z 0). apply Qfloor_resp_le.
    apply Qmult_le_0_compat; [exact H0 | apply Qlt_le_weak; exact Hpos]. }
  assert (Hhi : (Qfloor (random * inject_Z (Z.of_nat n)) < Z.of_nat n)%Z).
  { rewrite Zlt_Qlt.
    apply Qle_lt_trans with (random * inject_Z (Z.of_nat n));
      [apply Qfloor_le |].
    rewrite <- (Qmult_1_l (inject_Z (Z.of_nat n))) at 2.
    apply Qmult_lt_compat_r; assumption. }
  lia.
Qed.

(** [selectRandomTrack] when there is a track. *)
Lemma selectRandomTrack_some (random : Q) (m : Manager) :
  audioTracks m <> [] ->
  selectRandomTrack random m
  = mkManager (audioTracks m)
      (Z.to_nat
         (Qfloor (random * inject_Z (Z.of_nat (List.length (audioTracks m))))))
      (nth (Z.to_nat
              (Qfloor (random
                       * inject_Z (Z.of_nat (List.length (audioTracks m))))))
           (audioTracks m) [])
      0 (isProcessing m) None (isPlaying m) (segmentDuration m) 0
      (suspended m) (stopCurrent m).
Proof.
  intro H. unfold selectRandomTrack.
  destruct (audioTracks m); [contradiction | reflexivity].
Qed.

(** X20.  The track chosen is one of the tracks.  With at least one
    track and a value of [Math.random()] from 0 up to but not including
    1, [selectRandomTrack] sets the current track index to the index of
    a track and the active segments to that track, goes back to its
    first segment, clears the time of the last trigger, and stops and
    lets go of the source in use; it starts no source and changes no
    track. *)
Theorem selectRandomTrack_selects_a_track (random : Q) (m : Manager)
    (Hlow : 0 <= random) (Hhigh : random < 1)
    (Htracks : audioTracks m <> []) :
  (currentTrackIndex (selectRandomTrack random m)
   < List.length (audioTracks m))%nat
  /\ nth_error (audioTracks m)
               (currentTrackIndex (selectRandomTrack random m))
     = Some (segments (selectRandomTrack random m))
  /\ currentSegmentIndex (selectRandomTrack random m) = 0%nat
  /\ lastPlayStartTime (selectRandomTrack random m) = 0
  /\ currentSource (selectRandomTrack random m) = None
  /\ audioTracks (selectRandomTrack random m) = audioTracks m
  /\ triggers (selectRandomTrack random m) = triggers m.
Proof.
  assert (Hn : (1 <= List.length (audioTracks m))%nat).
  { destruct (audioTracks m); [contradiction | cbn; lia]. }
  pose proof (randomIndex_in_range random _ Hlow Hhigh Hn) as Hidx.
  rewrite (selectRandomTrack_some random m Htracks).
  unfold triggers at 1.
  cbn [currentTrackIndex segments currentSegmentIndex lastPlayStartTime
       currentSource audioTracks sources].
  rewrite stopCurrent_triggers.
  split; [exact Hidx |]. split; [| repeat split].
  apply nth_error_nth'. exact Hidx.
Qed.

Lemma two_files_tracks :
  audioTracks (fst (processAudioFile five_frames_file small_track)) <> [].
Proof.
  intro H. apply (f_equal (@List.length _)) in H. vm_compute in H.
  discriminate H.
Qed.

Lemma second_selected_index :
  currentTrackIndex second_selected = 1%nat
  /\ (currentTrackIndex second_selected
      < List.length (audioTracks second_selected))%nat
  /\ (0 < List.length (audioTracks second_selected))%nat.
Proof.
  split; [vm_compute; reflexivity |].
  split; apply Nat.ltb_lt; vm_compute; reflexivity.
Qed.

Lemma selectRandomTrack_selects_a_track_witness :
  0 <= 0.9 /\ 0.9 < 1
  /\ audioTracks (fst (processAudioFile five_frames_file small_track)) <> []
  /\ currentTrackIndex second_selected = 1%nat
  /\ (currentTrackIndex second_selected
      < List.length
          (audioTracks (fst (processAudioFile five_frames_file small_track))))%nat.
Proof.
  assert (H0 : 0 <= 0.9) by (unfold Qle; cbn; lia).
  assert (H1 : 0.9 < 1) by reflexivity.
  pose proof two_files_tracks as Ht.
  split; [exact H0 | split; [exact H1 | split; [exact Ht |]]].
  split; [exact (proj1 second_selected_index) |].
  exact (proj1 (selectRandomTrack_selects_a_track 0.9
                  (fst (processAudioFile five_frames_file small_track))
                  H0 H1 Ht)).
Defined.

Lemma toInteger_nat (i : nat) :
  Z.to_nat (toInteger (inject_Z (Z.of_nat i))) = i.
Proof. rewrite (toInteger_inject _ (Z.of_nat i)) by reflexivity. lia. Qed.

Lemma splice1_length {A : Type} (i : nat) (l : list A) :
  (i < List.length l)%nat ->
  List.length (splice1 i l) = (List.length l - 1)%nat.
Proof.
  intro H. unfold splice1.
  rewrite length_app, length_firstn, length_skipn. lia.
Qed.

Lemma splice1_le {A : Type} (i : nat) (l : list A) :
  (List.length (splice1 i l) <= List.length l)%nat.
Proof.
  unfold splice1. rewrite length_app, length_firstn, length_skipn. lia.
Qed.

Lemma splice1_before {A : Type} (i k : nat) (l : list A) :
  (k < i)%nat -> nth_error (splice1 i l) k = nth_error l k.
Proof.
  intro H. unfold splice1.
  destruct (Nat.lt_ge_cases k (List.length l)) as [Hk | Hk].
  - rewrite nth_error_app1 by (rewrite length_firstn; lia).
    rewrite nth_error_firstn.
    apply Nat.ltb_lt in H. rewrite H. reflexivity.
  - rewrite (proj2 (nth_error_None l k)) by exact Hk.
    apply nth_error_None. rewrite length_app, length_firstn, length_skipn.
    lia.
Qed.

Lemma splice1_after {A : Type} (i k : nat) (l : list A) :
  (i < List.length l)%nat -> (i <= k)%nat ->
  nth_error (splice1 i l) k = nth_error l (S k).
Proof.
  intros Hi H. unfold splice1.
  rewrite nth_error_app2 by (rewrite length_firstn; lia).
  rewrite length_firstn, nth_error_skipn.
  f_equal. lia.
Qed.

Lemma Qlt_bool_nat (i j : nat) :
  Qlt_bool (inject_Z (Z.of_nat i)) (inject_Z (Z.of_nat j)) = (i <? j)%nat.
Proof.
  destruct (i <? j)%nat eqn:E.
  - apply Qlt_bool_iff. rewrite <- Zlt_Qlt. apply Nat.ltb_lt in E. lia.
  - apply Qlt_bool_false_iff. rewrite <- Zle_Qle. apply Nat.ltb_ge in E. lia.
Qed.

Lemma Qle_bool_nat (i j : nat) :
  Qle_bool (inject_Z (Z.of_nat i)) (inject_Z (Z.of_nat j)) = (i <=? j)%nat.
Proof.
  destruct (i <=? j)%nat eqn:E.
  - apply Qle_bool_iff. rewrite <- Zle_Qle. apply Nat.leb_le in E. lia.
  - destruct (Qle_bool _ _) eqn:F; [| reflexivity].
    apply Qle_bool_iff in F. rewrite <- Zle_Qle in F.
    apply Nat.leb_gt in E. lia.
Qed.

Lemma Qeq_bool_nat (i j : nat) :
  Qeq_bool (inject_Z (Z.of_nat i)) (inject_Z (Z.of_nat j)) = (i =? j)%nat.
Proof.
  destruct (i =? j)%nat eqn:E.
  - apply Nat.eqb_eq in E. subst j. apply Qeq_bool_iff. reflexivity.
  - destruct (Qeq_bool _ _) eqn:F; [| reflexivity].
    apply Qeq_bool_iff in F. apply Nat.eqb_neq in E.
    unfold Qeq in F. cbn in F. lia.
Qed.

(** [removeTrack] at a whole index inside the store. *)
Lemma removeTrack_inside (index : nat) (random : Q) (m : Manager) :
  (index < List.length (audioTracks m))%nat ->
  removeTrack (inject_Z (Z.of_nat index)) random m
  = let m1 := set_tracks m (splice1 index (audioTracks m)) (segments m) in
    if (currentTrackIndex m =? index)%nat then
      if (0 <? List.length (audioTracks m1))%nat
      then selectRandomTrack random m1
      else
        mkManager (audioTracks m1) 0 [] 0 (isProcessing m1)
                  (currentSource m1) (isPlaying m1) (segmentDuration m1)
                  (lastPlayStartTime m1) (suspended m1) (sources m1)
    else if (index <? currentTrackIndex m)%nat then
      mkManager (audioTracks m1) (currentTrackIndex m1 - 1) (segments m1)
                (currentSegmentIndex m1) (isProcessing m1)
                (currentSource m1) (isPlaying m1) (segmentDuration m1)
                (lastPlayStartTime m1) (suspended m1) (sources m1)
    else m1.
Proof.
  intro Hindex. unfold removeTrack.
  change 0 with (inject_Z (Z.of_nat 0)).
  rewrite Qlt_bool_nat, Qle_bool_nat, toInteger_nat.
  assert (E1 : (index <? 0)%nat = false) by (apply Nat.ltb_ge; lia).
  assert (E2 : (List.length (audioTracks m) <=? index)%nat = false)
    by (apply Nat.leb_gt; exact Hindex).
  rewrite E1, E2. cbn [orb set_tracks currentTrackIndex].
  rewrite Qeq_bool_nat, Qlt_bool_nat. reflexivity.
Qed.

(** X21.  Removing another track keeps the current one.  When the track
    at a valid index other than the current track index is removed, the
    store loses that track and nothing else: the current track index
    still designates the same track (it is lowered by one when the
    track removed came before), and the active segments, the current
    segment and the playback state are untouched. *)
Theorem removeTrack_keeps_current_track (index : nat) (random : Q)
    (m : Manager)
    (Hindex : (index < List.length (audioTracks m))%nat)
    (Hother : currentTrackIndex m <> index) :
  let m' := removeTrack (inject_Z (Z.of_nat index)) random m in
  audioTracks m' = splice1 index (audioTracks m)
  /\ List.length (audioTracks m') = (List.length (audioTracks m) - 1)%nat
  /\ nth_error (audioTracks m') (currentTrackIndex m')
     = nth_error (audioTracks m) (currentTrackIndex m)
  /\ segments m' = segments m
  /\ currentSegmentIndex m' = currentSegmentIndex m
  /\ currentSource m' = currentSource m
  /\ sources m' = sources m.
Proof.
  cbv zeta. rewrite (removeTrack_inside index random m Hindex). cbv zeta.
  assert (E3 : (currentTrackIndex m =? index)%nat = false)
    by (apply Nat.eqb_neq; exact Hother).
  rewrite E3.
  destruct (index <? currentTrackIndex m)%nat eqn:E4;
    cbn [set_tracks audioTracks currentTrackIndex segments
         currentSegmentIndex currentSource sources];
    (split; [reflexivity |]);
    (split; [apply splice1_length; exact Hindex |]);
    (split; [| repeat split]).
  - apply Nat.ltb_lt in E4.
    rewrite splice1_after by lia. f_equal. lia.
  - apply Nat.ltb_ge in E4. apply splice1_before. lia.
Qed.

Lemma removeTrack_keeps_current_track_witness :
  (0 < List.length (audioTracks second_selected))%nat
  /\ currentTrackIndex second_selected <> 0%nat
  /\ nth_error (audioTracks (removeTrack (inject_Z (Z.of_nat 0)) 0
                               second_selected))
               (currentTrackIndex (removeTrack (inject_Z (Z.of_nat 0)) 0
                                     second_selected))
     = nth_error (audioTracks second_selected)
                 (currentTrackIndex second_selected).
Proof.
  pose proof (proj2 (proj2 second_selected_index)) as Hi.
  assert (Ho : currentTrackIndex second_selected <> 0%nat).
  { rewrite (proj1 second_selected_index). discriminate. }
  split; [exact Hi | split; [exact Ho |]].
  exact (proj1 (proj2 (proj2
           (removeTrack_keeps_current_track 0 0 second_selected Hi Ho)))).
Defined.

(** X22.  Removing the current track.  When the track at the current
    track index is removed, with a value of [Math.random()] from 0 up to
    but not including 1: if it was the only track the store is empty,
    with no active segment and both indices at 0; otherwise one of the
    tracks left is chosen, its segments become the active ones, from
    the first on. *)
Theorem removeTrack_current (random : Q) (m : Manager)
    (Hlow : 0 <= random) (Hhigh : random < 1)
    (Hindex : (currentTrackIndex m < List.length (audioTracks m))%nat) :
  let m' :=
    removeTrack (inject_Z (Z.of_nat (currentTrackIndex m))) random m in
  audioTracks m' = splice1 (currentTrackIndex m) (audioTracks m)
  /\ currentSegmentIndex m' = 0%nat
  /\ match audioTracks m' with
     | [] => segments m' = [] /\ currentTrackIndex m' = 0%nat
     | _ :: _ =>
         nth_error (audioTracks m') (currentTrackIndex m')
         = Some (segments m')
     end.
Proof.
  cbv zeta. rewrite (removeTrack_inside _ random m Hindex). cbv zeta.
  rewrite Nat.eqb_refl. cbn [set_tracks audioTracks].
  destruct (splice1 (currentTrackIndex m) (audioTracks m)) as [| t l] eqn:Et.
  - cbn [List.length Nat.ltb Nat.leb audioTracks currentSegmentIndex
         segments currentTrackIndex]. repeat split.
  - cbn [List.length Nat.ltb Nat.leb].
    match goal with |- context [selectRandomTrack random ?x] =>
      set (m1 := x) end.
    assert (Ht : audioTracks m1 <> []) by (unfold m1; cbn; discriminate).
    rewrite (selectRandomTrack_some random m1 Ht).
    cbn [audioTracks currentSegmentIndex currentTrackIndex segments].
    change (audioTracks m1) with (t :: l).
    split; [reflexivity | split; [reflexivity |]].
    apply nth_error_nth'.
    apply (randomIndex_in_range random (List.length (t :: l)) Hlow Hhigh).
    cbn [List.length]. lia.
Qed.

Lemma removeTrack_current_witness :
  0 <= 0 /\ 0 < 1
  /\ (currentTrackIndex second_selected
      < List.length (audioTracks second_selected))%nat
  /\ audioTracks
       (removeTrack (inject_Z (Z.of_nat (currentTrackIndex second_selected)))
                    0 second_selected)
     = splice1 (currentTrackIndex second_selected)
               (audioTracks second_selected).
Proof.
  assert (H0 : 0 <= 0) by (unfold Qle; cbn; lia).
  assert (H1 : 0 < 1) by reflexivity.
  pose proof (proj1 (proj2 second_selected_index)) as Hi.
  split; [exact H0 | split; [exact H1 | split; [exact Hi |]]].
  exact (proj1 (removeTrack_current 0 second_selected H0 H1 Hi)).
Defined.

(** ** Playback *)

Lemma played_update_stop (id : nat) (l : list SourceNode) :
  map source_buffer
      (filter started (CircleSimulation.update_nth id stop_source l))
  = map source_buffer (filter started l).
Proof.
  revert id. induction l as [| x t IH]; intros [| j]; cbn; try reflexivity.
  - destruct (started x); reflexivity.
  - destruct (started x); cbn; rewrite IH; reflexivity.
Qed.

Lemma update_stop_length (id : nat) (l : list SourceNode) :
  List.length (CircleSimulation.update_nth id stop_source l) = List.length l.
Proof.
  revert id. induction l as [| x t IH]; intros [| j]; cbn; auto.
Qed.

Lemma update_stop_onended (id k : nat) (l : list SourceNode) :
  option_map onended
    (nth_error (CircleSimulation.update_nth id stop_source l) k)
  = option_map onended (nth_error l k).
Proof.
  revert id k. induction l as [| x t IH]; intros [| j] [| k]; cbn;
    try reflexivity; apply IH.
Qed.

Lemma stopCurrent_length (m : Manager) :
  List.length (stopCurrent m) = List.length (sources m).
Proof.
  unfold stopCurrent. destruct (currentSource m);
    [apply update_stop_length | reflexivity].
Qed.

Lemma stopCurrent_played (m : Manager) :
  map source_buffer (filter started (stopCurrent m)) = played m.
Proof.
  unfold stopCurrent, played. destruct (currentSource m);
    [apply played_update_stop | reflexivity].
Qed.

(** [playNextSegment] when it goes past the rate limit. *)
Lemma playNextSegment_past_limit (now : Q) (m : Manager) :
  segments m <> [] -> isProcessing m = false ->
  segmentDuration m * 0.9 <= now - lastPlayStartTime m ->
  playNextSegment now m
  = match nth_error (segments m) (currentSegmentIndex m) with
    | Some segment =>
        mkManager (audioTracks m) (currentTrackIndex m) (segments m)
                  (currentSegmentIndex m) false
                  (Some (List.length (sources m))) true (segmentDuration m)
                  now false
                  (stopCurrent m
                   ++ [mkSource (Some (buffer segment)) true false true])
    | None =>
        mkManager (audioTracks m) (currentTrackIndex m) (segments m)
                  (currentSegmentIndex m) false (currentSource m) false
                  (segmentDuration m) (lastPlayStartTime m) false
                  (stopCurrent m ++ [mkSource None false false false])
    end.
Proof.
  intros Hseg Hproc Hgap.
  assert (Hlen : (List.length (segments m) =? 0)%nat = false).
  { apply Nat.eqb_neq. destruct (segments m); [congruence | discriminate]. }
  apply Qlt_bool_false_iff in Hgap. unfold playNextSegment.
  rewrite Hlen, Hproc, Hgap. cbn [orb]. unfold stopCurrent.
  destruct m as [tr ti sg si pr cs pl sd lp su so].
  cbn [isProcessing] in Hproc. subst pr.
  destruct su, cs as [id |];
    cbn -[CircleSimulation.update_nth nth_error List.length];
    rewrite ?update_stop_length;
    destruct (nth_error sg si); reflexivity.
Qed.

(** X23.  A segment index beyond the active segments silences the
    manager.  When the current segment index is not the index of an
    active segment, no call of [playNextSegment], at whatever times,
    starts a source or moves the index. *)
Theorem stale_index_is_silent (times : list Q) (m : Manager)
    (Hstale : (List.length (segments m) <= currentSegmentIndex m)%nat) :
  triggers (calls (map PlayNextSegment times) m) = triggers m
  /\ played (calls (map PlayNextSegment times) m) = played m
  /\ currentSegmentIndex (calls (map PlayNextSegment times) m)
     = currentSegmentIndex m
  /\ segments (calls (map PlayNextSegment times) m) = segments m.
Proof.
  revert m Hstale. unfold calls.
  induction times as [| t rest IH]; intros m Hstale; cbn [map fold_left call];
    [repeat split |].
  assert (Hstep : triggers (playNextSegment t m) = triggers m
                  /\ played (playNextSegment t m) = played m
                  /\ currentSegmentIndex (playNextSegment t m)
                     = currentSegmentIndex m
                  /\ segments (playNextSegment t m) = segments m).
  { destruct (segments m) as [| sg0 sgs] eqn:Eseg.
    { unfold playNextSegment. rewrite Eseg. cbn [List.length Nat.eqb orb].
      rewrite Eseg. repeat split. }
    destruct (isProcessing m) eqn:Eproc.
    { unfold playNextSegment. rewrite Eproc, orb_true_r.
      rewrite Eseg. repeat split. }
    destruct (Qlt_le_dec (t - lastPlayStartTime m) (segmentDuration m * 0.9))
      as [Hlt | Hge].
    { apply Qlt_bool_iff in Hlt. unfold playNextSegment.
      rewrite Eseg, Eproc, Hlt. cbn [List.length Nat.eqb orb].
      rewrite Eseg. repeat split. }
    rewrite playNextSegment_past_limit;
      [| rewrite Eseg; discriminate | exact Eproc | exact Hge].
    assert (Hnone : nth_error (segments m) (currentSegmentIndex m) = None).
    { apply nth_error_None. rewrite Eseg. exact Hstale. }
    rewrite Hnone. unfold triggers, played.
    cbn [sources currentSegmentIndex segments].
    rewrite filter_app, map_app, length_app. cbn [filter started map
      List.length]. rewrite app_nil_r, Nat.add_0_r.
    rewrite stopCurrent_triggers, stopCurrent_played.
    rewrite Eseg. repeat split. }
  destruct Hstep as (S1 & S2 & S3 & S4).
  destruct (IH (playNextSegment t m)) as (I1 & I2 & I3 & I4).
  { rewrite S3, S4. exact Hstale. }
  rewrite I1, I2, I3, I4. repeat split; assumption.
Qed.

Lemma fewer_segments_stale :
  (List.length (segments fewer_segments)
   <= currentSegmentIndex fewer_segments)%nat
  /\ List.length (segments fewer_segments) = 2%nat
  /\ currentSegmentIndex fewer_segments = 3%nat.
Proof.
  split; [apply Nat.leb_le |]; [| split]; vm_compute; reflexivity.
Qed.

Lemma stale_index_is_silent_witness :
  (List.length (segments fewer_segments)
   <= currentSegmentIndex fewer_segments)%nat
  /\ List.length (segments fewer_segments) = 2%nat
  /\ triggers (calls (map PlayNextSegment [10; 20; 30]) fewer_segments)
     = triggers fewer_segments.
Proof.
  pose proof (proj1 fewer_segments_stale) as H.
  split; [exact H | split; [exact (proj1 (proj2 fewer_segments_stale)) |]].
  exact (proj1 (stale_index_is_silent [10; 20; 30] fewer_segments H)).
Defined.

(** X24.  Nothing plays after [clearSegments].  The call empties the
    store, stops and lets go of the source in use, and starts none; from
    then on no call of [playNextSegment], at whatever times, changes the
    manager. *)
Theorem clearSegments_silences (times : list Q) (m : Manager) :
  calls (map PlayNextSegment times) (clearSegments m) = clearSegments m
  /\ getTracksCount (clearSegments m) = 0%nat
  /\ segments (clearSegments m) = []
  /\ currentSource (clearSegments m) = None
  /\ isPlaying (clearSegments m) = false
  /\ triggers (clearSegments m) = triggers m.
Proof.
  split.
  - unfold calls. induction times as [| t rest IH]; [reflexivity |].
    cbn [map fold_left call].
    assert (E : playNextSegment t (clearSegments m) = clearSegments m)
      by reflexivity.
    rewrite E. exact IH.
  - repeat split. unfold triggers at 1, clearSegments. cbn [sources].
    apply stopCurrent_triggers.
Qed.

(** X25.  The end of a source after [clearSegments].  When a source that
    carries the [onended] handler ends after [clearSegments], the
    handler finds no segment: the remainder by the number of segments is
    not a number, and the manager is left without a segment index. *)
Theorem ended_after_clearSegments (source : nat) (node : SourceNode)
    (m : Manager)
    (Hnode : nth_error (sources m) source = Some node)
    (Hhandler : onended node = true) :
  happen (Ended source) (clearSegments m) = None.
Proof.
  unfold happen, clearSegments. cbn [sources].
  assert (H : option_map onended (nth_error (stopCurrent m) source)
              = Some true).
  { unfold stopCurrent. destruct (currentSource m).
    - rewrite update_stop_onended, Hnode. cbn. rewrite Hhandler. reflexivity.
    - rewrite Hnode. cbn. rewrite Hhandler. reflexivity. }
  destruct (nth_error (stopCurrent m) source) as [n |]; [| discriminate].
  cbn in H. injection H as ->. reflexivity.
Qed.

Lemma ended_after_clearSegments_witness :
  nth_error (sources now_playing) 0
  = Some (mkSource (Some (buffer (hd (mkSegment ten_frames 0 0)
                                     (segments small_track))))
                   true false true)
  /\ happen (Ended 0) (clearSegments now_playing) = None.
Proof.
  assert (H : nth_error (sources now_playing) 0
              = Some (mkSource (Some (buffer (hd (mkSegment ten_frames 0 0)
                                                 (segments small_track))))
                               true false true))
    by (vm_compute; reflexivity).
  split; [exact H |].
  exact (ended_after_clearSegments 0 _ now_playing H eq_refl).
Defined.

Lemma mod_succ (i k n : nat) :
  (1 <= n)%nat -> (((i + 1) mod n + k) mod n = (i + S k) mod n)%nat.
Proof.
  intro Hn. rewrite Nat.Div0.add_mod_idemp_l. f_equal. lia.
Qed.

Lemma seq_shift_map {A : Type} (f : nat -> A) (n : nat) :
  map f (seq 1 n) = map (fun k => f (S k)) (seq 0 n).
Proof. rewrite <- seq_shift, map_map. reflexivity. Qed.

Lemma onendedHandler_segments (m : Manager) :
  segments m <> [] ->
  onendedHandler m
  = Some (mkManager (audioTracks m) (currentTrackIndex m) (segments m)
                    ((currentSegmentIndex m + 1)
                     mod List.length (segments m))
                    (isProcessing m) (currentSource m) false
                    (segmentDuration m) (lastPlayStartTime m)
                    (suspended m) (sources m)).
Proof.
  intro H. unfold onendedHandler.
  destruct (segments m); [contradiction | reflexivity].
Qed.

(** X26.  The segments play in order, round and round.  With active
    segments, no decoding under way, a segment index inside them and a
    positive segment duration, where the duration and the last start
    time are binary64 numbers: if every collision comes, at a time that
    is a binary64 number, at least a full segment duration after the one
    before, and every source started has ended before the next
    collision, then every collision starts a source, the k-th of them
    with the buffer of the segment [k] places after the current one,
    counted round the list. *)
Theorem segments_play_in_order (times : list Q) (m : Manager)
    (Hseg : segments m <> [])
    (Hproc : isProcessing m = false)
    (Hidx : (currentSegmentIndex m < List.length (segments m))%nat)
    (Hdur : 0 < segmentDuration m)
    (Hbin : binary64 (segmentDuration m))
    (Hlast : binary64 (lastPlayStartTime m))
    (Hspaced : spaced (segmentDuration m) (lastPlayStartTime m) times) :
  exists m' : Manager,
    happenAll (rounds (List.length (sources m)) times) m = Some m'
    /\ played m'
       = played m
         ++ map (fun k =>
                   option_map buffer
                     (nth_error (segments m)
                        ((currentSegmentIndex m + k)
                         mod List.length (segments m))))
                (seq 0 (List.length times))
    /\ currentSegmentIndex m'
       = ((currentSegmentIndex m + List.length times)
          mod List.length (segments m))%nat
    /\ segments m' = segments m
    /\ triggers m' = (triggers m + List.length times)%nat.
Proof.
  revert m Hseg Hproc Hidx Hdur Hbin Hlast Hspaced.
  induction times as [| t rest IH];
    intros m Hseg Hproc Hidx Hdur Hbin Hlast Hspaced.
  - exists m. cbn [rounds happenAll List.length seq map].
    rewrite app_nil_r, !Nat.add_0_r, Nat.mod_small by exact Hidx.
    repeat split.
  - destruct Hspaced as (Ht & Hfull & Hrest).
    pose proof (full_duration_past_limit _ _ Hdur Hfull) as Hgap.
    assert (Hn : (1 <= List.length (segments m))%nat) by lia.
    cbn [rounds happenAll happen].
    rewrite (playNextSegment_past_limit t m Hseg Hproc Hgap).
    destruct (nth_error (segments m) (currentSegmentIndex m)) as [seg |]
      eqn:Eseg; [| apply nth_error_None in Eseg; lia].
    cbn [sources]. rewrite <- stopCurrent_length, nth_error_app2 by lia.
    rewrite Nat.sub_diag. cbn [nth_error onended].
    rewrite onendedHandler_segments by exact Hseg.
    cbn [audioTracks currentTrackIndex currentSegmentIndex isProcessing
         currentSource segmentDuration lastPlayStartTime suspended sources].
    match goal with |- context [happenAll _ ?x] => set (m2 := x) end.
    destruct (IH m2) as (m' & Hrun & Hplayed & Hindex & Hsegs & Htrig).
    + exact Hseg.
    + reflexivity.
    + unfold m2. cbn [currentSegmentIndex segments].
      apply Nat.mod_upper_bound. lia.
    + exact Hdur.
    + exact Hbin.
    + exact Ht.
    + exact Hrest.
    + exists m'.
      assert (Hsrc : List.length (sources m2) = S (List.length (stopCurrent m))).
      { unfold m2. cbn [sources]. rewrite length_app. cbn [List.length]. lia. }
      rewrite Hsrc in Hrun. split; [exact Hrun |].
      assert (Es2 : segments m2 = segments m) by reflexivity.
      assert (Ei2 : currentSegmentIndex m2
                    = ((currentSegmentIndex m + 1)
                       mod List.length (segments m))%nat) by reflexivity.
      rewrite Es2, Ei2 in Hplayed. rewrite Es2, Ei2 in Hindex.
      rewrite Es2 in Hsegs.
      assert (Hp2 : played m2 = played m ++ [Some (buffer seg)]).
      { unfold m2, played. cbn [sources].
        rewrite filter_app, map_app. cbn [filter started map source_buffer].
        rewrite stopCurrent_played. reflexivity. }
      assert (Ht2 : triggers m2 = S (triggers m)).
      { unfold m2, triggers. cbn [sources].
        rewrite filter_app, length_app. cbn [filter started List.length].
        rewrite stopCurrent_triggers. unfold triggers. lia. }
      split; [| split; [| split; [exact Hsegs |]]].
      * rewrite Hplayed, Hp2, <- app_assoc. f_equal.
        cbn [List.length seq map app].
        rewrite Nat.add_0_r, (Nat.mod_small (currentSegmentIndex m) _ Hidx).
        rewrite Eseg. cbn [option_map]. f_equal.
        rewrite seq_shift_map. apply map_ext. intro k.
        rewrite mod_succ by exact Hn. reflexivity.
      * rewrite Hindex. cbn [List.length]. apply mod_succ. exact Hn.
      * rewrite Htrig, Ht2. cbn [List.length]. lia.
Qed.

(** The track of one second at 44100 Hz in two segments of 0.5 s,
    with collisions a second apart. *)
Lemma segments_play_in_order_witness :
  segments half_second_track <> []
  /\ isProcessing half_second_track = false
  /\ (currentSegmentIndex half_second_track
      < List.length (segments half_second_track))%nat
  /\ 0 < segmentDuration half_second_track
  /\ binary64 (segmentDuration half_second_track)
  /\ binary64 (lastPlayStartTime half_second_track)
  /\ spaced (segmentDuration half_second_track)
            (lastPlayStartTime half_second_track) [1; 2; 3]
  /\ exists m' : Manager,
       happenAll (rounds (List.length (sources half_second_track)) [1; 2; 3])
                 half_second_track = Some m'
       /\ currentSegmentIndex m' = 1%nat.
Proof.
  assert (Hseg : segments half_second_track <> []).
  { intro H. apply (f_equal (@List.length _)) in H. vm_compute in H.
    discriminate H. }
  assert (Hproc : isProcessing half_second_track = false)
    by (vm_compute; reflexivity).
  assert (Hidx : (currentSegmentIndex half_second_track
                  < List.length (segments half_second_track))%nat).
  { apply Nat.ltb_lt. vm_compute. reflexivity. }
  assert (Hdur : 0 < segmentDuration half_second_track)
    by (vm_compute; reflexivity).
  assert (E0 : lastPlayStartTime half_second_track = 0)
    by (vm_compute; reflexivity).
  assert (Ed : segmentDuration half_second_track = 0.5)
    by (vm_compute; reflexivity).
  assert (Hbin : binary64 (segmentDuration half_second_track)).
  { rewrite Ed. exact binary64_half. }
  assert (Hlast : binary64 (lastPlayStartTime half_second_track)).
  { rewrite E0. exact binary64_0. }
  assert (Hsp : spaced (segmentDuration half_second_track)
                       (lastPlayStartTime half_second_track) [1; 2; 3]).
  { rewrite E0, Ed. cbn [spaced].
    split; [apply (binary64_nat 1); reflexivity |].
    split; [unfold Qle; vm_compute; discriminate |].
    split; [apply (binary64_nat 2); reflexivity |].
    split; [unfold Qle; vm_compute; discriminate |].
    split; [apply (binary64_nat 3); reflexivity |].
    split; [unfold Qle; vm_compute; discriminate | exact I]. }
  split; [exact Hseg | split; [exact Hproc | split; [exact Hidx |]]].
  split; [exact Hdur | split; [exact Hbin | split; [exact Hlast |]]].
  split; [exact Hsp |].
  destruct (segments_play_in_order [1; 2; 3] half_second_track
              Hseg Hproc Hidx Hdur Hbin Hlast Hsp)
    as (m' & Hrun & _ & Hi & _).
  exists m'. split; [exact Hrun |].
  rewrite Hi. vm_compute. reflexivity.
Defined.

(** ** The capacity of the store *)

Lemma selectRandomTrack_tracks (random : Q) (m : Manager) :
  audioTracks (selectRandomTrack random m) = audioTracks m.
Proof.
  unfold selectRandomTrack.
  destruct (List.length (audioTracks m) =? 0)%nat; reflexivity.
Qed.

Lemma playNextSegment_tracks (now : Q) (m : Manager) :
  audioTracks (playNextSegment now m) = audioTracks m.
Proof.
  unfold playNextSegment.
  destruct (_ || _); [reflexivity |].
  destruct (Qlt_bool _ _); [reflexivity |].
  destruct m as [tr ti sg si pr cs pl sd lp su so].
  destruct su, cs as [id |];
    cbn -[CircleSimulation.update_nth nth_error List.length];
    destruct (nth_error sg si); reflexivity.
Qed.

Lemma removeTrack_tracks (index random : Q) (m : Manager) :
  (List.length (audioTracks (removeTrack index random m))
   <= List.length (audioTracks m))%nat.
Proof.
  unfold removeTrack.
  destruct (_ || _); [lia |]. cbv zeta.
  cbn [set_tracks currentTrackIndex audioTracks].
  destruct (Qeq_bool _ _).
  - destruct (0 <? _)%nat.
    + rewrite selectRandomTrack_tracks. cbn [audioTracks]. apply splice1_le.
    + cbn [audioTracks]. apply splice1_le.
  - destruct (Qlt_bool _ _); cbn [audioTracks]; apply splice1_le.
Qed.

Lemma setSegmentDuration_tracks (duration : Q) (m : Manager) :
  (List.length (audioTracks (setSegmentDuration duration m))
   <= List.length (audioTracks m))%nat.
Proof.
  unfold setSegmentDuration. destruct (Qlt_bool 0 duration); [| lia].
  unfold reprocessTracks.
  destruct (reprocessLoop_shape
              (audioTracks (set_segmentDuration m duration))
              (set_tracks (set_segmentDuration m duration) [] []) eq_refl)
    as (_ & _ & _ & _ & _ & H).
  exact H.
Qed.

(** X27.  The store never holds more than [MAX_TRACKS] tracks.  From a
    manager within the limit, and so from a new one, no sequence of
    calls of the public methods, with whatever arguments, leads to a
    manager beyond it. *)
Theorem calls_keep_capacity (cs : list Call) (m : Manager)
    (Hm : (getTracksCount m <= getMaxTracks m)%nat) :
  (getTracksCount (calls cs m) <= getMaxTracks (calls cs m))%nat.
Proof.
  unfold getTracksCount, getMaxTracks in *. revert m Hm. unfold calls.
  induction cs as [| c rest IH]; intros m Hm; cbn [fold_left]; [exact Hm |].
  apply IH.
  destruct c as [file | d | random | index random | now | | random];
    cbn [call].
  - apply processAudioFile_bounded. exact Hm.
  - pose proof (setSegmentDuration_tracks d m). lia.
  - rewrite selectRandomTrack_tracks. exact Hm.
  - pose proof (removeTrack_tracks index random m). lia.
  - rewrite playNextSegment_tracks. exact Hm.
  - cbn. lia.
  - unfold reset. rewrite selectRandomTrack_tracks. exact Hm.
Qed.

Lemma calls_keep_capacity_witness :
  (getTracksCount (construct true) <= getMaxTracks (construct true))%nat
  /\ (getTracksCount
        (calls (repeat (ProcessAudioFile ten_frames_file) 12
                ++ [RemoveTrack 3 0.5; SetSegmentDuration 0.5;
                    ProcessAudioFile five_frames_file; Reset 0.25;
                    PlayNextSegment 1])
               (construct true))
      <= MAX_TRACKS)%nat.
Proof.
  assert (H : (getTracksCount (construct true)
               <= getMaxTracks (construct true))%nat).
  { unfold getTracksCount, getMaxTracks, MAX_TRACKS. cbn. lia. }
  split; [exact H |].
  exact (calls_keep_capacity _ (construct true) H).
Defined.

(** ** Uploading files *)

Lemma uploadLoop_tracks (files : list File) :
  forall (i currentTracks maxTracks : nat) (m : Manager),
    (List.length (audioTracks m) <= currentTracks + i)%nat ->
    (List.length (audioTracks (fst (uploadLoop files i currentTracks
                                               maxTracks m)))
     <= Nat.max (List.length (audioTracks m)) maxTracks)%nat.
Proof.
  induction files as [| file rest IH]; intros i cur mx m Hm;
    cbn [uploadLoop]; [cbn [fst]; lia |].
  destruct (cur + i <? mx)%nat eqn:E; [| cbn [fst]; lia].
  apply Nat.ltb_lt in E.
  destruct (processAudioFile file m) as [m1 st] eqn:Ep.
  assert (H1 : (List.length (audioTracks m1)
                <= S (List.length (audioTracks m)))%nat).
  { replace m1 with (fst (processAudioFile file m)) by (rewrite Ep; reflexivity).
    unfold processAudioFile.
    destruct (negb _); [cbn [fst]; lia |].
    destruct (_ <=? _)%nat; [cbn [fst]; lia |].
    destruct (decoded file); cbn [bind]; [| cbn [fst set_processing audioTracks]; lia].
    destruct (splitAudioIntoSegments _ _); cbn [fst]; try (cbn; lia).
    destruct (suspended _); cbn; rewrite length_app; cbn; lia. }
  destruct st; cbn [fst]; try lia.
  specialize (IH (S i) cur mx m1). lia.
Qed.

(** X28.  An upload stays within the limit.  Whatever files are chosen
    and whatever becomes of each, [handleAudioUpload] leaves at most
    [MAX_TRACKS] tracks in a manager that held no more before. *)
Theorem handleAudioUpload_keeps_capacity (files : list File) (m : Manager)
    (Hm : (getTracksCount m <= getMaxTracks m)%nat) :
  (getTracksCount (fst (handleAudioUpload files m)) <= MAX_TRACKS)%nat.
Proof.
  unfold handleAudioUpload, getTracksCount, getMaxTracks in *.
  pose proof (uploadLoop_tracks files 0 (List.length (audioTracks m))
                MAX_TRACKS m) as H.
  destruct (uploadLoop files 0 _ _ m) as [m1 st].
  cbn [fst] in H. destruct st; cbn [fst]; lia.
Qed.

Lemma handleAudioUpload_keeps_capacity_witness :
  (getTracksCount small_track <= getMaxTracks small_track)%nat
  /\ (getTracksCount
        (fst (handleAudioUpload (repeat five_frames_file 12) small_track))
      <= MAX_TRACKS)%nat.
Proof.
  assert (H : (getTracksCount small_track <= getMaxTracks small_track)%nat).
  { apply Nat.leb_le. vm_compute. reflexivity. }
  split; [exact H |].
  exact (handleAudioUpload_keeps_capacity (repeat five_frames_file 12)
           small_track H).
Defined.

Lemma uploadLoop_prefix (files : list File) :
  forall (i currentTracks maxTracks : nat) (m : Manager),
    exists k : nat,
      (k <= List.length files)%nat
      /\ (k = 0%nat \/ currentTracks + i + k <= maxTracks)%nat
      /\ fst (uploadLoop files i currentTracks maxTracks m)
         = processAll (firstn k files) m
      /\ (snd (uploadLoop files i currentTracks maxTracks m) = Resolved ->
          k = List.length files \/ (maxTracks <= currentTracks + i + k)%nat).
Proof.
  induction files as [| file rest IH]; intros i cur mx m; cbn [uploadLoop].
  - exists 0%nat. cbn [List.length firstn fst snd]. repeat split; auto.
  - destruct (cur + i <? mx)%nat eqn:E.
    + apply Nat.ltb_lt in E.
      destruct (processAudioFile file m) as [m1 st] eqn:Ep.
      assert (Em1 : m1 = fst (processAudioFile file m))
        by (rewrite Ep; reflexivity).
      destruct st as [| e |].
      * destruct (IH (S i) cur mx m1) as (k & Hk & Hroom & Hfst & Hres).
        exists (S k). cbn [List.length firstn]. unfold processAll.
        cbn [fold_left]. rewrite <- Em1. fold (processAll (firstn k rest) m1).
        split; [lia |]. split; [right; lia |]. split; [exact Hfst |].
        intro H. destruct (Hres H); [left | right]; lia.
      * exists 1%nat. cbn [List.length firstn fst snd]. unfold processAll.
        cbn [fold_left]. rewrite <- Em1.
        split; [lia |]. split; [right; lia |]. split; [reflexivity |].
        discriminate.
      * exists 1%nat. cbn [List.length firstn fst snd]. unfold processAll.
        cbn [fold_left]. rewrite <- Em1.
        split; [lia |]. split; [right; lia |]. split; [reflexivity |].
        discriminate.
    + apply Nat.ltb_ge in E. exists 0%nat.
      cbn [List.length firstn fst snd]. unfold processAll. cbn [fold_left].
      split; [lia |]. split; [left; reflexivity |]. split; [reflexivity |].
      intros _. right. lia.
Qed.

(** X29.  An upload hands over a first part of the files.  The files
    [handleAudioUpload] passes to [processAudioFile] are the first [k]
    of those chosen, in their order, for some [k] that does not exceed
    the number of free places in the store; and the handler ends with
    no error message only if it passed all of them. *)
Theorem handleAudioUpload_processes_prefix (files : list File) (m : Manager) :
  exists k : nat,
    (k <= List.length files)%nat
    /\ (k = 0%nat \/ getTracksCount m + k <= MAX_TRACKS)%nat
    /\ fst (handleAudioUpload files m) = processAll (firstn k files) m
    /\ (snd (handleAudioUpload files m) = Finished None ->
        k = List.length files).
Proof.
  unfold handleAudioUpload, getMaxTracks.
  destruct (uploadLoop_prefix files 0 (getTracksCount m) MAX_TRACKS m)
    as (k & Hk & Hroom & Hfst & Hres).
  exists k. split; [exact Hk |]. split; [lia |].
  destruct (uploadLoop files 0 (getTracksCount m) MAX_TRACKS m) as [m1 st].
  cbn [fst snd] in *.
  destruct st as [| e |]; cbn [fst snd]; (split; [exact Hfst |]);
    try discriminate.
  destruct (MAX_TRACKS <? getTracksCount m + List.length files)%nat eqn:E;
    [discriminate |].
  intros _. apply Nat.ltb_ge in E.
  destruct (Hres eq_refl); lia.
Qed.

End AudioProps.
